(** * kluctl: the server-side-apply orchestrator of pkg/deployment/utils

    A shallow embedding of [apply_utils.go]: the per-object retry ladder
    ([ApplyObject] and its [retryApply*] helpers), the CRD rediscovery latch
    ([handleNewCRDs]), the readiness waiter ([WaitReadiness]), the per-item
    worker ([applyDeploymentItem]), the read-modify-write helper
    ([ReplaceObject]) and the goroutine scheduler ([ApplyDeployments]).

    Sequential code is written in a state monad over [ApplyState] whose
    outcomes are a value, a Go panic (nil dereference) or exhausted fuel
    (the two [for true] loops).  The cluster gateway is an oracle indexed by
    the number of gateway calls made so far; every call is appended to the
    [calls] trace of the state.  [ApplyDeployments] is a labelled transition
    system over goroutine states whose worker steps run the monadic code. *)

From Stdlib Require Import ZArith Lia.
From stdpp Require Import base option strings list gmap.

Local Open Scope string_scope.
Local Open Scope list_scope.
Local Open Scope Z_scope.

(** ** Object references and unstructured objects *)

(** Modelled from the spec: the object reference [(group, version, kind,
    namespace, name)] (package [types/k8s] is not under src/), with the
    field names the code uses ([ref.GVK.Group], [ref.GVK.Kind], [Name],
    [Namespace]).  Two references are equal when all components are. *)
Record GroupVersionKind := mkGVK {
  Group : string;
  Version : string;
  Kind : string
}.

Record ObjectRef := mkRef {
  GVK : GroupVersionKind;
  Name : string;
  Namespace : string
}.

Global Instance GroupVersionKind_eq_dec : EqDecision GroupVersionKind.
Proof. solve_decision. Defined.

Global Instance GroupVersionKind_countable : Countable GroupVersionKind.
Proof.
  refine (inj_countable' (fun g => (Group g, Version g, Kind g))
                         (fun t => mkGVK t.1.1 t.1.2 t.2) _).
  by intros [].
Defined.

Global Instance ObjectRef_eq_dec : EqDecision ObjectRef.
Proof. solve_decision. Defined.

Global Instance ObjectRef_countable : Countable ObjectRef.
Proof.
  refine (inj_countable' (fun r => (GVK r, Name r, Namespace r))
                         (fun t => mkRef t.1.1 t.1.2 t.2) _).
  by intros [].
Defined.

(** Modelled from the spec: [uo.UnstructuredObject] (package [uo] is not
    under src/).  The spec asks for an opaque tree that supports cloning,
    reading and setting [metadata.name] and [metadata.resourceVersion],
    annotations, and computing its [Ref]; the record keeps exactly those
    parts apart and the rest of the tree as flattened path/value pairs.
    Go passes pointers; a possibly-nil pointer is an [option]. *)
Record UnstructuredObject := mkObj {
  objGVK : GroupVersionKind;
  objNamespace : string;
  objName : string;
  objResourceVersion : string;
  objAnnotations : list (string * string);
  objFields : list (string * string)
}.

Global Instance UnstructuredObject_eq_dec : EqDecision UnstructuredObject.
Proof. solve_decision. Defined.

Definition GetK8sRef (x : UnstructuredObject) : ObjectRef :=
  {| GVK := objGVK x; Name := objName x; Namespace := objNamespace x |}.

Definition GetK8sName (x : UnstructuredObject) : string := objName x.

Definition SetK8sName (x : UnstructuredObject) (n : string) : UnstructuredObject :=
  {| objGVK := objGVK x; objNamespace := objNamespace x; objName := n;
     objResourceVersion := objResourceVersion x;
     objAnnotations := objAnnotations x; objFields := objFields x |}.

Definition GetK8sResourceVersion (x : UnstructuredObject) : string :=
  objResourceVersion x.

Definition SetK8sResourceVersion (x : UnstructuredObject) (rv : string)
  : UnstructuredObject :=
  {| objGVK := objGVK x; objNamespace := objNamespace x; objName := objName x;
     objResourceVersion := rv;
     objAnnotations := objAnnotations x; objFields := objFields x |}.

(** A deep copy of a value is the value. *)
Definition Clone (x : UnstructuredObject) : UnstructuredObject := x.

Fixpoint lookupAnnotation (l : list (string * string)) (name : string) : string :=
  match l with
  | [] => ""
  | (n, v) :: l' => if String.eqb n name then v else lookupAnnotation l' name
  end.

Definition GetK8sAnnotation (x : UnstructuredObject) (name : string) : string :=
  lookupAnnotation (objAnnotations x) name.

(** ** Errors of the gateway *)

(** Modelled from the spec: the error taxonomy of the gateway that the
    callers distinguish with [errors.IsNotFound], [errors.IsConflict],
    [errors.IsInternalError] and [meta.IsNoMatchError] (apimachinery is not
    under src/): NotFound, Conflict, InternalError, NoMatch, other. *)
Inductive ErrorKind :=
| ErrNotFound | ErrConflict | ErrInternalError | ErrNoMatch | ErrOther.

Global Instance ErrorKind_eq_dec : EqDecision ErrorKind.
Proof. solve_decision. Defined.

(** The causes of a [metav1.Status]: field path and message. *)
Definition Status := list (string * string).

(** An [error] value; [errStatus] is present exactly when
    [errors.As(err, &statusError)] succeeds. *)
Record error := mkErr {
  errKind : ErrorKind;
  errStatus : option Status;
  errMsg : string
}.

Global Instance error_eq_dec : EqDecision error.
Proof. solve_decision. Defined.

Definition IsNotFound (e : error) : bool := bool_decide (errKind e = ErrNotFound).
Definition IsConflict (e : error) : bool := bool_decide (errKind e = ErrConflict).
Definition IsInternalError (e : error) : bool :=
  bool_decide (errKind e = ErrInternalError).
Definition IsNoMatchError (e : error) : bool := bool_decide (errKind e = ErrNoMatch).

(** [fmt.Errorf]: a plain error that is none of the typed ones. *)
Definition fmt_Errorf (msg : string) : error :=
  {| errKind := ErrOther; errStatus := None; errMsg := msg |}.

Definition ApiWarning := string.

Record LostOwnership := mkLost { loField : string; loMessage : string }.

(** ** Options *)

Record ApplyUtilOptions := mkOptions {
  ForceApply : bool;
  ReplaceOnError : bool;
  ForceReplaceOnError : bool;
  DryRun : bool;
  AbortOnError : bool;
  WaitObjectTimeout : Z;      (* time.Duration, nanoseconds *)
  NoWait : bool
}.

Module PatchOptions.
Record t := mk { ForceDryRun : bool; ForceApply : bool }.
End PatchOptions.

Module UpdateOptions.
Record t := mk { ForceDryRun : bool }.
End UpdateOptions.

Module DeleteOptions.
Record t := mk { ForceDryRun : bool }.
End DeleteOptions.

(** ** The collaborators *)

(** Modelled from the spec: the cluster gateway [k8s.K8sCluster] (package
    [k8s] is not under src/), with the operations and result shapes of the
    calls in apply_utils.go.  Every operation that reaches the cluster is a
    function of the number of gateway calls made before it, so that a
    repeated call may answer differently.  The Go result tuples are kept as
    they are: a possibly-nil object, the API warnings and a possibly-nil
    error.  [callDuration n] is the time the [n]-th call takes. *)
Record K8sCluster := mkCluster {
  PatchObject : nat -> UnstructuredObject -> PatchOptions.t ->
                option UnstructuredObject * list ApiWarning * option error;
  UpdateObject : nat -> UnstructuredObject -> UpdateOptions.t ->
                 option UnstructuredObject * list ApiWarning * option error;
  DeleteSingleObject : nat -> ObjectRef -> DeleteOptions.t ->
                       list ApiWarning * option error;
  GetSingleObject : nat -> ObjectRef ->
                    option UnstructuredObject * list ApiWarning * option error;
  RediscoverResources : nat -> option error;
  GetGVKs : string -> string -> string -> list GroupVersionKind;
  FixObjectForPatch : UnstructuredObject -> UnstructuredObject;
  callDuration : nat -> Z
}.

(** Modelled from the spec: the remote cache, [GetRemoteObject(ref)] with
    nil for an object the server does not have (its file is not under
    src/); read-only during the apply phase. *)
Record RemoteObjectUtils := mkRemote {
  GetRemoteObject : ObjectRef -> option UnstructuredObject
}.

(** Modelled from the spec: the result of the object validator,
    [{Ready: bool, Errors: []{Error: string}}] (package [validation] is not
    under src/). *)
Record ValidateResult := mkValidate {
  Ready : bool;
  Errors : list string
}.

(** Modelled from the spec: a hook of the Hook Engine (hooks_utils.go is not
    under src/): the object, its phases, its weight and its deletion
    policies. *)
Record hook := mkHook {
  hookObject : UnstructuredObject;
  hookPhases : list string;
  hookWeight : Z;
  hookDeletePolicies : list string
}.

Global Instance hook_eq_dec : EqDecision hook.
Proof. solve_decision. Defined.

(** Functions of packages outside src/ that the code calls: the conflict
    resolver, the object validator, the random name generator, the key and
    value substitution of [uo], the boolean parser of [utils], the printer
    of references and the annotation parser of the hook engine. *)
Record Packages := mkPackages {
  ResolveFieldManagerConflicts :
    UnstructuredObject -> UnstructuredObject -> Status ->
    UnstructuredObject * list LostOwnership * option error;
  ValidateObject : option UnstructuredObject -> ValidateResult;
  RandomString : nat -> nat -> string;
  ReplaceKeys : UnstructuredObject -> string -> string -> UnstructuredObject;
  ReplaceValues : UnstructuredObject -> string -> string -> UnstructuredObject;
  ParseBoolOrFalse : string -> bool;
  refString : ObjectRef -> string;          (* ObjectRef.String() *)
  GetHook : UnstructuredObject -> option hook
}.

(** ** Deployment items *)

(** Modelled from the spec: the deployment item (package [deployment] is
    not under src/) with the fields and the predicate that
    [applyDeploymentItem] and [ApplyDeployments] read: the deletion
    directives, the desired objects, the two readiness defaults, the two
    barrier flags ([*bool] in the config) and [CheckInclusionForDeploy()]. *)
Module DeleteObjectItemConfig.
Record t := mk {
  Group : string; Version : string; Kind : string;
  Name : string; Namespace : string
}.
End DeleteObjectItemConfig.

Module DeploymentItemConfig.
Record t := mk {
  DeleteObjects : list DeleteObjectItemConfig.t;
  WaitReadiness : option bool;
  Barrier : option bool
}.
End DeploymentItemConfig.

Module DeploymentItem.
Record t := mk {
  Config : DeploymentItemConfig.t;
  Objects : list UnstructuredObject;
  WaitReadiness : bool;
  Barrier : bool;
  CheckInclusionForDeploy : bool
}.
End DeploymentItem.

(** ** The error and warning sink *)

(** Modelled from the spec: [DeploymentErrorsAndWarnings] (its file is not
    under src/): an aggregator of errors, warnings and API warnings by
    reference that answers [HadError] and the two counts.  Entries are kept
    in the order they were added. *)
Record DeploymentErrorsAndWarnings := mkDew {
  dewErrors : list (ObjectRef * error);
  dewWarnings : list (ObjectRef * error);
  dewApiWarnings : list (ObjectRef * ApiWarning)
}.

Definition AddError (ref : ObjectRef) (e : error) (d : DeploymentErrorsAndWarnings) :=
  {| dewErrors := dewErrors d ++ [(ref, e)];
     dewWarnings := dewWarnings d; dewApiWarnings := dewApiWarnings d |}.

Definition AddWarning (ref : ObjectRef) (e : error) (d : DeploymentErrorsAndWarnings) :=
  {| dewErrors := dewErrors d;
     dewWarnings := dewWarnings d ++ [(ref, e)]; dewApiWarnings := dewApiWarnings d |}.

Definition AddApiWarnings (ref : ObjectRef) (ws : list ApiWarning)
    (d : DeploymentErrorsAndWarnings) :=
  {| dewErrors := dewErrors d; dewWarnings := dewWarnings d;
     dewApiWarnings := dewApiWarnings d ++ map (fun w => (ref, w)) ws |}.

Definition dewHadError (ref : ObjectRef) (d : DeploymentErrorsAndWarnings) : bool :=
  existsb (fun p => bool_decide (p.1 = ref)) (dewErrors d).

Definition ErrorCount (d : DeploymentErrorsAndWarnings) : nat := length (dewErrors d).
Definition WarningCount (d : DeploymentErrorsAndWarnings) : nat :=
  length (dewWarnings d).

(** ** What the run prints *)

(** One constructor per format string of the source; the arguments are the
    values the format receives. *)
Inductive Message :=
| MsgApplyingObjectDebug                       (* "applying object" *)
| MsgRetryDeleteAndReapply                     (* "Patching failed, retrying by deleting and re-applying" *)
| MsgRetryReplace                              (* "Patching failed, retrying with replace instead of patch" *)
| MsgWaitingFor (ref : ObjectRef)              (* "Waiting for %s to get ready" *)
| MsgDisappeared (ref : ObjectRef) (elapsed : Z)
| MsgFinishedWaiting (ref : ObjectRef) (elapsed : Z)
| MsgCancelledErrors (ref : ObjectRef) (elapsed : Z)
| MsgTimedOut (ref : ObjectRef) (elapsed : Z)
| MsgWaiting (ref : ObjectRef) (elapsed : Z)   (* "Waiting for %s to get ready... (%ss elapsed)" *)
| MsgStillWaiting (ref : ObjectRef) (elapsed : Z)
| MsgSkipped                                   (* "Skipped" *)
| MsgDeletingN (n : nat)                       (* "Deleting %d objects" *)
| MsgDeletingObject (ref : ObjectRef) (i n : nat)
| MsgApplyingN (n : nat)                       (* "Applying %d objects" *)
| MsgApplyingObject (ref : ObjectRef) (i n : nat)
| MsgAppliedOf (i n : nat)                     (* "...applied %d of %d objects" *)
| MsgFinalStatus (applied hooks deleted deletedHooks errors warnings : nat)
| MsgConflictRetrying (ref : ObjectRef)        (* "Conflict while patching %s. Retrying..." *)
| MsgRunningServerSideApply                    (* "Running server-side apply for all objects" *)
| MsgWaitingOnBarrier.                         (* "Waiting on barrier..." *)

(** Calls on logrus ([Log*]) and on the progress context ([Pctx*]). *)
Inductive Output :=
| LogDebugf (m : Message) | LogInfof (m : Message) | LogWarningf (m : Message)
| PctxSetTotal (n : nat) | PctxSetStatus (m : Message)
| PctxInfof (m : Message) | PctxWarningf (m : Message) | PctxDebugf (m : Message)
| PctxInfofAndStatus (m : Message) | PctxIncrement | PctxFinish.

(** ** The calls the gateway receives *)

Inductive GatewayCall :=
| CallPatch (x : UnstructuredObject) (opts : PatchOptions.t)
| CallUpdate (x : UnstructuredObject) (opts : UpdateOptions.t)
| CallDelete (ref : ObjectRef) (opts : DeleteOptions.t)
| CallGet (ref : ObjectRef)
| CallRediscover.

(** ** The state of a run *)

(** The mutable fields of the Go [ApplyUtil] struct (the spec's ApplyState)
    followed by the world the code acts on: the gateway calls made so far,
    the clock (nanoseconds), the number of random names drawn, and the
    output. *)
Record ApplyState := mkState {
  dew : DeploymentErrorsAndWarnings;
  AppliedObjects : gmap ObjectRef UnstructuredObject;
  appliedHookObjects : gmap ObjectRef UnstructuredObject;
  deletedObjects : gmap ObjectRef bool;
  deletedHookObjects : gmap ObjectRef bool;
  abortSignal : bool;
  deployedNewCRD : bool;
  calls : list GatewayCall;
  now : Z;
  randoms : nat;
  output : list Output
}.

(** The immutable fields of the Go [ApplyUtil] struct. *)
Record ApplyUtil := mkApplyUtil {
  deployments : list DeploymentItem.t;
  ru : RemoteObjectUtils;
  k : K8sCluster;
  o : ApplyUtilOptions
}.

(** [NewApplyUtil]: the mutable part of the struct it builds: the sink it
    was given, empty maps, no abort, and the latch armed ("assume someone
    deployed CRDs in the meantime"); [start] is the clock at construction. *)
Definition NewApplyUtil (d : DeploymentErrorsAndWarnings) (start : Z) : ApplyState :=
  {| dew := d;
     AppliedObjects := ∅; appliedHookObjects := ∅;
     deletedObjects := ∅; deletedHookObjects := ∅;
     abortSignal := false;
     deployedNewCRD := true;
     calls := []; now := start; randoms := 0%nat; output := [] |}.

Definition with_dew (f : DeploymentErrorsAndWarnings -> DeploymentErrorsAndWarnings)
    (s : ApplyState) : ApplyState :=
  mkState (f (dew s)) (AppliedObjects s) (appliedHookObjects s) (deletedObjects s)
          (deletedHookObjects s) (abortSignal s) (deployedNewCRD s) (calls s)
          (now s) (randoms s) (output s).

Definition with_AppliedObjects (f : gmap ObjectRef UnstructuredObject -> _)
    (s : ApplyState) : ApplyState :=
  mkState (dew s) (f (AppliedObjects s)) (appliedHookObjects s) (deletedObjects s)
          (deletedHookObjects s) (abortSignal s) (deployedNewCRD s) (calls s)
          (now s) (randoms s) (output s).

Definition with_appliedHookObjects (f : gmap ObjectRef UnstructuredObject -> _)
    (s : ApplyState) : ApplyState :=
  mkState (dew s) (AppliedObjects s) (f (appliedHookObjects s)) (deletedObjects s)
          (deletedHookObjects s) (abortSignal s) (deployedNewCRD s) (calls s)
          (now s) (randoms s) (output s).

Definition with_deletedObjects (f : gmap ObjectRef bool -> _)
    (s : ApplyState) : ApplyState :=
  mkState (dew s) (AppliedObjects s) (appliedHookObjects s) (f (deletedObjects s))
          (deletedHookObjects s) (abortSignal s) (deployedNewCRD s) (calls s)
          (now s) (randoms s) (output s).

Definition with_deletedHookObjects (f : gmap ObjectRef bool -> _)
    (s : ApplyState) : ApplyState :=
  mkState (dew s) (AppliedObjects s) (appliedHookObjects s) (deletedObjects s)
          (f (deletedHookObjects s)) (abortSignal s) (deployedNewCRD s) (calls s)
          (now s) (randoms s) (output s).

Definition with_abortSignal (b : bool) (s : ApplyState) : ApplyState :=
  mkState (dew s) (AppliedObjects s) (appliedHookObjects s) (deletedObjects s)
          (deletedHookObjects s) b (deployedNewCRD s) (calls s)
          (now s) (randoms s) (output s).

Definition with_deployedNewCRD (b : bool) (s : ApplyState) : ApplyState :=
  mkState (dew s) (AppliedObjects s) (appliedHookObjects s) (deletedObjects s)
          (deletedHookObjects s) (abortSignal s) b (calls s)
          (now s) (randoms s) (output s).

(** A gateway call: it is recorded and the clock advances by its duration. *)
Definition with_call (kc : K8sCluster) (c : GatewayCall) (s : ApplyState) : ApplyState :=
  mkState (dew s) (AppliedObjects s) (appliedHookObjects s) (deletedObjects s)
          (deletedHookObjects s) (abortSignal s) (deployedNewCRD s) (calls s ++ [c])
          (now s + callDuration kc (length (calls s))) (randoms s) (output s).

Definition with_now (f : Z -> Z) (s : ApplyState) : ApplyState :=
  mkState (dew s) (AppliedObjects s) (appliedHookObjects s) (deletedObjects s)
          (deletedHookObjects s) (abortSignal s) (deployedNewCRD s) (calls s)
          (f (now s)) (randoms s) (output s).

Definition with_randoms (f : nat -> nat) (s : ApplyState) : ApplyState :=
  mkState (dew s) (AppliedObjects s) (appliedHookObjects s) (deletedObjects s)
          (deletedHookObjects s) (abortSignal s) (deployedNewCRD s) (calls s)
          (now s) (f (randoms s)) (output s).

Definition with_output (e : Output) (s : ApplyState) : ApplyState :=
  mkState (dew s) (AppliedObjects s) (appliedHookObjects s) (deletedObjects s)
          (deletedHookObjects s) (abortSignal s) (deployedNewCRD s) (calls s)
          (now s) (randoms s) (output s ++ [e]).

(** ** The monad *)

Inductive Outcome (A : Type) :=
| Ret (a : A)      (* the code returned *)
| Panic            (* nil pointer dereference *)
| OutOfFuel.       (* a [for true] loop did not end within the fuel *)
Arguments Ret {A} a.
Arguments Panic {A}.
Arguments OutOfFuel {A}.

Definition M (A : Type) : Type := ApplyState -> Outcome A * ApplyState.

Definition ret {A} (a : A) : M A := fun s => (Ret a, s).

Definition bind {A B} (m : M A) (f : A -> M B) : M B :=
  fun s => match m s with
           | (Ret a, s') => f a s'
           | (Panic, s') => (Panic, s')
           | (OutOfFuel, s') => (OutOfFuel, s')
           end.

Definition gets {A} (f : ApplyState -> A) : M A := fun s => (Ret (f s), s).
Definition modify (f : ApplyState -> ApplyState) : M unit := fun s => (Ret tt, f s).
Definition panic {A} : M A := fun s => (Panic, s).
Definition outOfFuel {A} : M A := fun s => (OutOfFuel, s).

(** Use of a pointer: nil panics. *)
Definition deref {A} (p : option A) : M A :=
  match p with Some x => ret x | None => panic end.

Definition when (b : bool) (m : M unit) : M unit := if b then m else ret tt.

Declare Scope go_scope.
Delimit Scope go_scope with go.
Notation "'let*' p := m 'in' f" := (bind m (fun p => f))
  (at level 10, p pattern, m at level 100, f at level 200) : go_scope.
Notation "m ;; f" := (bind m (fun _ => f))
  (at level 100, f at level 200, right associativity,
   format "'[v' m ;; '/' f ']'") : go_scope.
Local Open Scope go_scope.

Definition time_Now : M Z := gets now.
Definition time_Sleep (d : Z) : M unit := modify (with_now (fun t => t + d)).
Definition emit (e : Output) : M unit := modify (with_output e).

Definition Second : Z := 1000000000.
Definition Millisecond : Z := 1000000.

Fixpoint forM_ {A} (l : list A) (f : A -> M unit) : M unit :=
  match l with
  | [] => ret tt
  | x :: l' => f x ;; forM_ l' f
  end.

(** [for i, x := range l] *)
Definition indexed {A} (l : list A) : list (nat * A) := imap (fun i x => (i, x)) l.

(** ** The code of apply_utils.go *)

Section Code.
Variable pkgs : Packages.
Variable a : ApplyUtil.

(** *** Calls on the gateway [a.k] *)

Definition k_PatchObject (x : UnstructuredObject) (opts : PatchOptions.t)
  : M (option UnstructuredObject * list ApiWarning * option error) :=
  fun s => (Ret (PatchObject (k a) (length (calls s)) x opts),
            with_call (k a) (CallPatch x opts) s).

Definition k_UpdateObject (x : UnstructuredObject) (opts : UpdateOptions.t)
  : M (option UnstructuredObject * list ApiWarning * option error) :=
  fun s => (Ret (UpdateObject (k a) (length (calls s)) x opts),
            with_call (k a) (CallUpdate x opts) s).

Definition k_DeleteSingleObject (ref : ObjectRef) (opts : DeleteOptions.t)
  : M (list ApiWarning * option error) :=
  fun s => (Ret (DeleteSingleObject (k a) (length (calls s)) ref opts),
            with_call (k a) (CallDelete ref opts) s).

Definition k_GetSingleObject (ref : ObjectRef)
  : M (option UnstructuredObject * list ApiWarning * option error) :=
  fun s => (Ret (GetSingleObject (k a) (length (calls s)) ref),
            with_call (k a) (CallGet ref) s).

Definition k_RediscoverResources : M (option error) :=
  fun s => (Ret (RediscoverResources (k a) (length (calls s))),
            with_call (k a) CallRediscover s).

(** [utils.RandomString(n)] *)
Definition utils_RandomString (n : nat) : M string :=
  let* i := gets randoms in
  modify (with_randoms S) ;;
  ret (RandomString pkgs i n).

(** *** Results, warnings and errors *)

Definition handleResult (appliedObject : option UnstructuredObject) (hook : bool)
  : M unit :=
  let* obj := deref appliedObject in
  let ref := GetK8sRef obj in
  when hook (modify (with_appliedHookObjects (insert ref obj))) ;;
  modify (with_AppliedObjects (insert ref obj)).

Definition handleApiWarnings (ref : ObjectRef) (warnings : list ApiWarning) : M unit :=
  modify (with_dew (AddApiWarnings ref warnings)).

Definition HandleWarning (ref : ObjectRef) (warning : error) : M unit :=
  modify (with_dew (AddWarning ref warning)).

Definition HandleError (ref : ObjectRef) (err : error) : M unit :=
  when (AbortOnError (o a)) (modify (with_abortSignal true)) ;;
  modify (with_dew (AddError ref err)).

Definition HadError (ref : ObjectRef) : M bool :=
  gets (fun s => dewHadError ref (dew s)).

Definition DeleteObject (ref : ObjectRef) (hook : bool) : M bool :=
  let o := {| DeleteOptions.ForceDryRun := DryRun (o a) |} in
  let* (apiWarnings, err) := k_DeleteSingleObject ref o in
  handleApiWarnings ref apiWarnings ;;
  match err with
  | Some e =>
      when (negb (IsNotFound e)) (HandleError ref e) ;;
      ret false
  | None =>
      (if hook then modify (with_deletedHookObjects (insert ref true))
       else modify (with_deletedObjects (insert ref true))) ;;
      ret true
  end.

(** *** The retry ladder *)

Definition retryApplyForceReplace (x : UnstructuredObject) (hook : bool)
    (applyError : error) : M unit :=
  let ref := GetK8sRef x in
  if negb (ForceReplaceOnError (o a)) then
    HandleError ref applyError
  else
    emit (LogWarningf MsgRetryDeleteAndReapply) ;;
    let* deleted := DeleteObject ref hook in
    if negb deleted then ret tt
    else if negb (DryRun (o a)) then
      let o := {| PatchOptions.ForceDryRun := DryRun (o a);
                  PatchOptions.ForceApply := false |} in
      let* (r, apiWarnings, err) := k_PatchObject x o in
      handleApiWarnings ref apiWarnings ;;
      match err with
      | Some e => HandleError ref e
      | None => handleResult r hook
      end
    else
      handleResult (Some x) hook.

Definition retryApplyWithReplace (x : UnstructuredObject) (hook : bool)
    (remoteObject : option UnstructuredObject) (applyError : error) : M unit :=
  let ref := GetK8sRef x in
  match remoteObject with
  | Some remote =>
      if negb (ReplaceOnError (o a)) then HandleError ref applyError
      else
        emit (LogWarningf MsgRetryReplace) ;;
        let rv := GetK8sResourceVersion remote in
        let x2 := Clone x in
        let x2 := SetK8sResourceVersion x2 rv in
        let o := {| UpdateOptions.ForceDryRun := DryRun (o a) |} in
        let* (r, apiWarnings, err) := k_UpdateObject x o in
        handleApiWarnings ref apiWarnings ;;
        match err with
        | Some e => retryApplyForceReplace x hook e
        | None => handleResult r hook
        end
  | None => HandleError ref applyError
  end.

Definition lostOwnershipWarning (lo : LostOwnership) : error :=
  fmt_Errorf (loMessage lo +:+ ". Not updating field '" +:+ loField lo
              +:+ "' as we lost field ownership").

(** The object to force-apply after a conflict: [inl] is the early
    return with the error to record. *)
Definition conflictCandidate (x remote : UnstructuredObject) (applyError : error)
  : error + (UnstructuredObject * list LostOwnership) :=
  if negb (ForceApply (o a)) then
    match errStatus applyError with
    | None => inl applyError
    | Some status =>
        let '(x3, lostOwnership, err) :=
          ResolveFieldManagerConflicts pkgs x remote status in
        match err with
        | Some e => inl e
        | None => inr (x3, lostOwnership)
        end
    end
  else inr (x, []).

Definition retryApplyWithConflicts (x : UnstructuredObject) (hook : bool)
    (remoteObject : option UnstructuredObject) (applyError : error) : M unit :=
  let ref := GetK8sRef x in
  match remoteObject with
  | None => HandleError ref applyError
  | Some remote =>
      match conflictCandidate x remote applyError with
      | inl e => HandleError ref e
      | inr (x2, lostOwnership) =>
          forM_ lostOwnership
                (fun lo => modify (with_dew (AddWarning ref (lostOwnershipWarning lo)))) ;;
          let options := {| PatchOptions.ForceDryRun := DryRun (o a);
                            PatchOptions.ForceApply := true |} in
          let* (r, apiWarnings, err) := k_PatchObject x2 options in
          handleApiWarnings ref apiWarnings ;;
          match err with
          | Some e => HandleError ref e
          | None => handleResult r hook
          end
      end
  end.

Definition isCRD (ref : ObjectRef) : bool :=
  String.eqb (Group (GVK ref)) "apiextensions.k8s.io"
  && String.eqb (Kind (GVK ref)) "CustomResourceDefinition".

Definition handleNewCRDs (x : option UnstructuredObject) (err : option error)
  : M (bool * option error) :=
  match err with
  | Some e =>
      if IsNoMatchError e then
        let* armed := gets deployedNewCRD in
        if armed then
          modify (with_deployedNewCRD false) ;;
          let* err' := k_RediscoverResources in
          match err' with
          | Some e' => ret (false, Some e')
          | None => ret (true, None)
          end
        else ret (false, err)
      else ret (false, err)
  | None =>
      let* x' := deref x in
      let ref := GetK8sRef x' in
      if isCRD ref then
        modify (with_deployedNewCRD true) ;;
        ret (true, None)
      else ret (false, None)
  end.

(** What [ApplyObject] does with the outcome of its (possibly retried)
    first patch: the [if err == nil ... else ...] chain. *)
Definition classifyPatchResult (ref : ObjectRef) (x : UnstructuredObject)
    (hook : bool) (remoteObject : option UnstructuredObject)
    (r : option UnstructuredObject) (err : option error) : M unit :=
  match err with
  | None => handleResult r hook
  | Some e =>
      if IsNoMatchError e then HandleError ref e
      else if IsConflict e then retryApplyWithConflicts x hook remoteObject e
      else if IsInternalError e then HandleError ref e
      else retryApplyWithReplace x hook remoteObject e
  end.

(** The dry-run dummy name: the object to patch and the remote object
    whose name is restored afterwards. *)
Definition dummyName (x : UnstructuredObject) (replaced : bool)
    (remoteObject : option UnstructuredObject)
  : M (UnstructuredObject * option UnstructuredObject) :=
  match remoteObject with
  | Some remote =>
      if DryRun (o a) && replaced then
        let x := Clone x in
        let* suffix := utils_RandomString 8 in
        ret (SetK8sName x (GetK8sName x +:+ "-" +:+ suffix), Some remote)
      else ret (x, None)
  | None => ret (x, None)
  end.

Definition undoDummyName (r : option UnstructuredObject)
    (usesDummyName : option UnstructuredObject) : option UnstructuredObject :=
  match r, usesDummyName with
  | Some r', Some remote =>
      let tmpName := GetK8sName r' in
      let realName := GetK8sName remote in
      let r' := ReplaceKeys pkgs r' tmpName realName in
      let r' := ReplaceValues pkgs r' tmpName realName in
      Some r'
  | _, _ => r
  end.

(** The first patch with its retry: the three statements from
    [a.k.PatchObject(x, options)] to the end of [if retry]. *)
Definition firstPatch (x : UnstructuredObject) (options : PatchOptions.t)
  : M (option UnstructuredObject * list ApiWarning * option error) :=
  let* (r, apiWarnings, err) := k_PatchObject x options in
  let* (retry, err) := handleNewCRDs r err in
  if retry then k_PatchObject x options else ret (r, apiWarnings, err).

Definition ApplyObject (x : UnstructuredObject) (replaced : bool) (hook : bool)
  : M unit :=
  let ref := GetK8sRef x in
  emit (LogDebugf MsgApplyingObjectDebug) ;;
  let x := FixObjectForPatch (k a) x in
  let remoteObject := GetRemoteObject (ru a) ref in
  let* (x, usesDummyName) := dummyName x replaced remoteObject in
  let options := {| PatchOptions.ForceDryRun := DryRun (o a);
                    PatchOptions.ForceApply := false |} in
  let* (r, apiWarnings, err) := firstPatch x options in
  let r := undoDummyName r usesDummyName in
  handleApiWarnings ref apiWarnings ;;
  classifyPatchResult ref x hook remoteObject r err.

(** The object that [ApplyObject] hands to its first patch: the normalized
    object, under its dummy name where that applies. *)
Definition patchedObject (x : UnstructuredObject) (replaced : bool) (s : ApplyState)
  : UnstructuredObject :=
  match dummyName (FixObjectForPatch (k a) x) replaced
                  (GetRemoteObject (ru a) (GetK8sRef x)) s with
  | (Ret (xp, _), _) => xp
  | _ => FixObjectForPatch (k a) x
  end.

(** *** The readiness waiter *)

(** [time.Second * time.Duration(d.Seconds())]: whole seconds. *)
Definition wholeSeconds (d : Z) : Z := Second * Z.quot d Second.

Definition disappearedError (ref : ObjectRef) : error :=
  fmt_Errorf (refString pkgs ref +:+ " disappeared while waiting for it to become ready").

Definition timedOutError (ref : ObjectRef) : error :=
  fmt_Errorf ("timed out while waiting for " +:+ refString pkgs ref).

(** The progress log at the end of an iteration: the new [didLog] and
    [lastLogTime]. *)
Definition waitLog (ref : ObjectRef) (elapsed lastLogTime : Z) (didLog : bool)
  : M (bool * Z) :=
  if negb didLog then
    emit (PctxInfof (MsgWaiting ref elapsed)) ;;
    let* t := time_Now in
    ret (true, t)
  else
    let* t := time_Now in
    if 10 * Second <=? t - lastLogTime then
      emit (PctxInfof (MsgStillWaiting ref elapsed)) ;;
      let* t' := time_Now in
      ret (didLog, t')
    else ret (didLog, lastLogTime).

(** The body of [for true]: one unit of fuel per iteration. *)
Fixpoint waitLoop (fuel : nat) (ref : ObjectRef) (timeout startTime lastLogTime : Z)
    (didLog : bool) : M bool :=
  match fuel with
  | O => outOfFuel
  | S fuel' =>
      let* t := time_Now in
      let elapsed := wholeSeconds (t - startTime) in
      let* (o, apiWarnings, err) := k_GetSingleObject ref in
      handleApiWarnings ref apiWarnings ;;
      match err with
      | Some e =>
          if IsNotFound e then
            when didLog (emit (PctxWarningf (MsgDisappeared ref elapsed))) ;;
            HandleError ref (disappearedError ref) ;;
            ret false
          else
            HandleError ref e ;;
            ret false
      | None =>
          let v := ValidateObject pkgs o in
          if Ready v then
            when didLog (emit (PctxInfof (MsgFinishedWaiting ref elapsed))) ;;
            ret true
          else if negb (Nat.eqb (length (Errors v)) 0) then
            when didLog (emit (PctxWarningf (MsgCancelledErrors ref elapsed))) ;;
            forM_ (Errors v) (fun e => HandleError ref (fmt_Errorf e)) ;;
            ret false
          else
            let* t := time_Now in
            if (0 <? timeout) && (timeout <=? t - startTime) then
              let err := timedOutError ref in
              emit (PctxWarningf (MsgTimedOut ref elapsed)) ;;
              HandleError ref err ;;
              ret false
            else
              emit (PctxSetStatus (MsgWaiting ref elapsed)) ;;
              let* (didLog, lastLogTime) := waitLog ref elapsed lastLogTime didLog in
              time_Sleep (500 * Millisecond) ;;
              waitLoop fuel' ref timeout startTime lastLogTime didLog
      end
  end.

Definition WaitReadiness (fuel : nat) (ref : ObjectRef) (timeout : Z) : M bool :=
  if DryRun (o a) then ret true
  else
    let timeout := if timeout =? 0 then WaitObjectTimeout (o a) else timeout in
    emit (PctxDebugf (MsgWaitingFor ref)) ;;
    let* lastLogTime := time_Now in
    let didLog := false in
    let* startTime := time_Now in
    waitLoop fuel ref timeout startTime lastLogTime didLog.

(** *** The hook engine *)

Definition hasString (l : list string) (x : string) : bool :=
  existsb (String.eqb x) l.

(** Modelled from the spec: [HooksUtil.DetermineHooks] (hooks_utils.go is
    not under src/): the hooks among the item's objects that declare one of
    the given phases, in their order of appearance. *)
Definition DetermineHooks (d : DeploymentItem.t) (hooks : list string) : list hook :=
  filter (fun h => existsb (hasString hooks) (hookPhases h) = true)
         (omap (GetHook pkgs) (DeploymentItem.Objects d)).

(** Modelled from the spec: the order of the hooks of a phase set
    (hooks_utils.go is not under src/): ascending weight, ties in the
    order of appearance; an insertion sort. *)
Fixpoint insertByWeight (h : hook) (l : list hook) : list hook :=
  match l with
  | [] => [h]
  | h' :: l' =>
      if hookWeight h <=? hookWeight h' then h :: l else h' :: insertByWeight h l'
  end.

Definition sortHooks (l : list hook) : list hook := foldr insertByWeight [] l.

(** Modelled from the spec: running one hook (hooks_utils.go is not under
    src/): the hook goes through [ApplyObject] with the hook flag set, and
    its deletion policies decide the deletion before the run
    (before-hook-creation) and after it (hook-succeeded, hook-failed). *)
Definition runHook (h : hook) : M unit :=
  let ref := GetK8sRef (hookObject h) in
  let* replaced :=
    (if hasString (hookDeletePolicies h) "before-hook-creation"
     then DeleteObject ref true else ret false) in
  ApplyObject (hookObject h) replaced true ;;
  let* failed := HadError ref in
  let policy := if failed then "hook-failed" else "hook-succeeded" in
  (if hasString (hookDeletePolicies h) policy
   then (DeleteObject ref true ;; ret tt) else ret tt) ;;
  emit PctxIncrement.

(** Modelled from the spec: [HooksUtil.RunHooks] (hooks_utils.go is not
    under src/): the hooks run one after the other, ordered by weight. *)
Definition RunHooks (hooks : list hook) : M unit :=
  forM_ (sortHooks hooks) runHook.

(** *** One deployment item *)

Definition toDeleteRefs (d : DeploymentItem.t) : list ObjectRef :=
  flat_map
    (fun x =>
       map (fun gvk => {| GVK := gvk;
                          Name := DeleteObjectItemConfig.Name x;
                          Namespace := DeleteObjectItemConfig.Namespace x |})
           (GetGVKs (k a) (DeleteObjectItemConfig.Group x)
                    (DeleteObjectItemConfig.Version x)
                    (DeleteObjectItemConfig.Kind x)))
    (DeploymentItemConfig.DeleteObjects (DeploymentItem.Config d)).

Definition isNil {A} (p : option A) : bool :=
  match p with None => true | Some _ => false end.

(** [initialDeploy] starts true and is cleared by every object that the
    remote cache knows. *)
Definition initialDeploy (d : DeploymentItem.t) : bool :=
  forallb (fun o => isNil (GetRemoteObject (ru a) (GetK8sRef o)))
          (DeploymentItem.Objects d).

Definition applyObjectsOf (d : DeploymentItem.t) : list UnstructuredObject :=
  filter (fun o => GetHook pkgs o = None) (DeploymentItem.Objects d).

(** The two assignments of each branch, in the order of the source; both
    variables start nil. *)
Definition selectHooks (d : DeploymentItem.t) (initialDeploy : bool)
  : list hook * list hook :=
  let preHooks : list hook := [] in
  let postHooks : list hook := [] in
  if initialDeploy then
    let preHooks := DetermineHooks d ["pre-deploy-initial"; "pre-deploy"] in
    let postHooks := DetermineHooks d ["post-deploy-initial"; "post-deploy"] in
    (preHooks, postHooks)
  else
    let postHooks := DetermineHooks d ["pre-deploy-upgrade"; "pre-deploy"] in
    let postHooks := DetermineHooks d ["post-deploy-upgrade"; "post-deploy"] in
    (preHooks, postHooks).

Definition deleteLoop (toDelete : list ObjectRef) : M unit :=
  forM_ (indexed toDelete)
        (fun ir =>
           emit (PctxSetStatus
                   (MsgDeletingObject ir.2 (ir.1 + 1) (length toDelete))) ;;
           DeleteObject ir.2 false ;;
           emit PctxIncrement).

(** What the worker carries from the first part of [applyDeploymentItem]
    into its loop: the objects to apply with their indices, the hooks to
    run afterwards and [startTime]. *)
Record ItemPlan := mkPlan {
  planObjects : list (nat * UnstructuredObject);
  planPostHooks : list hook;
  planStartTime : Z
}.

(** From the entry of [applyDeploymentItem] to the head of its object
    loop; [None] is the early return of a skipped item. *)
Definition itemPrelude (d : DeploymentItem.t) : M (option ItemPlan) :=
  let toDelete := toDeleteRefs d in
  let initialDeploy := initialDeploy d in
  let applyObjects := applyObjectsOf d in
  let '(preHooks, postHooks) := selectHooks d initialDeploy in
  let total := (length applyObjects + length preHooks + length postHooks)%nat in
  emit (PctxSetTotal total) ;;
  if negb (DeploymentItem.CheckInclusionForDeploy d) then
    emit (PctxInfofAndStatus MsgSkipped) ;;
    emit PctxFinish ;;
    ret None
  else
    when (negb (Nat.eqb (length toDelete) 0))
         (emit (PctxInfof (MsgDeletingN (length toDelete))) ;;
          deleteLoop toDelete) ;;
    RunHooks preHooks ;;
    when (negb (Nat.eqb (length applyObjects) 0))
         (emit (PctxInfof (MsgApplyingN (length applyObjects)))) ;;
    let* startTime := time_Now in
    ret (Some {| planObjects := indexed applyObjects;
                 planPostHooks := postHooks;
                 planStartTime := startTime |}).

Definition wantsReadiness (d : DeploymentItem.t) (obj : UnstructuredObject) : bool :=
  match DeploymentItemConfig.WaitReadiness (DeploymentItem.Config d) with
  | Some b => b
  | None => false
  end
  || DeploymentItem.WaitReadiness d
  || ParseBoolOrFalse pkgs (GetK8sAnnotation obj "kluctl.io/wait-readiness").

(** One iteration of the object loop after its abort check; [n] is
    [len(applyObjects)].  Returns the new [startTime] and [didLog]. *)
Definition applyOne (fuel : nat) (d : DeploymentItem.t) (n : nat)
    (startTime : Z) (didLog : bool) (i : nat) (obj : UnstructuredObject)
  : M (Z * bool) :=
  let ref := GetK8sRef obj in
  emit (PctxSetStatus (MsgApplyingObject ref (i + 1) n)) ;;
  ApplyObject obj false false ;;
  emit PctxIncrement ;;
  let* t := time_Now in
  let* (startTime, didLog) :=
    (if (10 * Second <=? t - startTime) || (didLog && Nat.eqb (i + 1) n) then
       emit (PctxInfof (MsgAppliedOf (i + 1) n)) ;;
       let* t' := time_Now in
       ret (t', true)
     else ret (startTime, didLog)) in
  let waitReadiness := wantsReadiness d obj in
  (if negb (NoWait (o a)) && waitReadiness
   then (WaitReadiness fuel (GetK8sRef obj) 0 ;; ret tt) else ret tt) ;;
  ret (startTime, didLog).

(** [for i, o := range applyObjects]: the abort check comes first in
    every iteration. *)
Fixpoint applyObjectsLoop (fuel : nat) (d : DeploymentItem.t) (n : nat)
    (l : list (nat * UnstructuredObject)) (startTime : Z) (didLog : bool) : M unit :=
  match l with
  | [] => ret tt
  | (i, obj) :: l' =>
      let* abort := gets abortSignal in
      if abort then ret tt
      else
        let* (startTime, didLog) := applyOne fuel d n startTime didLog i obj in
        applyObjectsLoop fuel d n l' startTime didLog
  end.

Definition finalStatus (s : ApplyState) : Message :=
  MsgFinalStatus (size (AppliedObjects s)) (size (appliedHookObjects s))
                 (size (deletedObjects s)) (size (deletedHookObjects s))
                 (ErrorCount (dew s)) (WarningCount (dew s)).

(** From the end of the object loop to the return. *)
Definition itemEpilogue (postHooks : list hook) : M unit :=
  RunHooks postHooks ;;
  let* status := gets finalStatus in
  emit (PctxSetStatus status) ;;
  emit PctxFinish.

Definition applyDeploymentItem (fuel : nat) (d : DeploymentItem.t) : M unit :=
  let* plan := itemPrelude d in
  match plan with
  | None => ret tt
  | Some p =>
      applyObjectsLoop fuel d (length (planObjects p)) (planObjects p)
                       (planStartTime p) false ;;
      itemEpilogue (planPostHooks p)
  end.

(** *** The replace loop *)

(** The read of the remote object; the outer [None] is the return after a
    recorded error. *)
Definition fetchRemote (ref : ObjectRef) : M (option (option UnstructuredObject)) :=
  let* (o2, apiWarnings, err) := k_GetSingleObject ref in
  modify (with_dew (AddApiWarnings ref apiWarnings)) ;;
  match err with
  | Some e =>
      if negb (IsNotFound e) then HandleError ref e ;; ret None
      else ret (Some o2)
  | None => ret (Some o2)
  end.

Fixpoint replaceLoop (fuel : nat) (ref : ObjectRef)
    (firstVersion : option UnstructuredObject)
    (callback : UnstructuredObject -> option UnstructuredObject * option error)
    (firstCall : bool) : M unit :=
  match fuel with
  | O => outOfFuel
  | S fuel' =>
      let* fetched :=
        (if firstCall && negb (isNil firstVersion) then ret (Some firstVersion)
         else fetchRemote ref) in
      match fetched with
      | None => ret tt
      | Some None => handleResult None false
      | Some (Some remote) =>
          let remoteCopy := Clone remote in
          let '(modified, err) := callback remoteCopy in
          match err with
          | Some e => HandleError ref e
          | None =>
              let* modified := deref modified in
              if bool_decide (remote = modified) then
                handleResult (Some remote) false
              else
                let* (result, apiWarnings, err) :=
                  k_UpdateObject modified {| UpdateOptions.ForceDryRun := false |} in
                modify (with_dew (AddApiWarnings ref apiWarnings)) ;;
                match err with
                | Some e =>
                    if IsConflict e then
                      emit (LogWarningf (MsgConflictRetrying ref)) ;;
                      replaceLoop fuel' ref firstVersion callback false
                    else HandleError ref e
                | None => handleResult result false
                end
          end
      end
  end.

Definition ReplaceObject (fuel : nat) (ref : ObjectRef)
    (firstVersion : option UnstructuredObject)
    (callback : UnstructuredObject -> option UnstructuredObject * option error)
  : M unit :=
  replaceLoop fuel ref firstVersion callback true.
End Code.

(** ** The scheduler: [ApplyDeployments] and its goroutines *)

(** [ApplyDeployments] starts one goroutine per item and synchronises with
    them through a WaitGroup and a weighted semaphore.  It is modelled as a
    transition system: a state holds the shared [ApplyState], the position
    of the scheduler goroutine, the WaitGroup counter, the permits taken
    and, per dispatched item, the position of its worker.  A step is one
    synchronisation ([wg.Add] with [go], [wg.Wait] returning,
    [sem.Acquire], [sem.Release], [wg.Done]) or one piece of
    [applyDeploymentItem] run by a worker on the shared state: the part
    before the object loop, the abort check at the head of the loop, one
    iteration after its check, the part after the loop.  The check and the
    iteration are separate steps, so another worker can set the abort
    signal between them; within a piece the interleaving with other
    workers is not modelled. *)

(** Where the worker goroutine of one item stands. *)
Inductive WorkerState :=
| WSpawned                       (* [go func()] ran; [sem.Acquire] has not returned *)
| WAcquired                      (* holds a permit; about to call [applyDeploymentItem] *)
| WLoop (n : nat) (rest : list (nat * UnstructuredObject))
        (startTime : Z) (didLog : bool) (postHooks : list hook)
                                 (* at the head of the object loop *)
| WApplying (n : nat) (i : nat) (obj : UnstructuredObject)
            (rest : list (nat * UnstructuredObject))
            (startTime : Z) (didLog : bool) (postHooks : list hook)
                                 (* passed the abort check; about to apply [obj] *)
| WEpilogue (postHooks : list hook)   (* left the object loop *)
| WReturned                      (* [applyDeploymentItem] returned; permit still held *)
| WReleased                      (* [sem.Release] ran; [wg.Done] has not *)
| WDone.                         (* [wg.Done] ran *)

(** Where the scheduler goroutine stands. *)
Inductive SchedulerPc :=
| PcLoop                         (* at the head of [for _, d_ := range a.deployments] *)
| PcBarrier                      (* in the [wg.Wait()] of a barrier *)
| PcFinalWait                    (* in the [wg.Wait()] after the loop *)
| PcDone.

Record Sched := mkSched {
  shared : ApplyState;
  pc : SchedulerPc;
  pending : list DeploymentItem.t;                  (* items not yet ranged over *)
  workers : list (DeploymentItem.t * WorkerState);  (* one per dispatched item *)
  wg : nat;                                         (* the WaitGroup counter *)
  sem : nat;                                        (* permits taken *)
  crashed : bool                                    (* a goroutine panicked *)
}.

Inductive Label :=
| LDispatch (i : nat)            (* [wg.Add(1); go func()] for item [i] *)
| LBreak                         (* the scheduler saw [abortSignal] *)
| LLoopEnd
| LBarrierPassed
| LFinished
| LAcquire (i : nat)
| LRun (i : nat) (w : WorkerState)     (* worker [i] ran its code from state [w] *)
| LPanic (i : nat) (w : WorkerState)
| LRelease (i : nat)
| LWgDone (i : nat).

Definition semaphoreWeight : nat := 8.

Definition isBarrier (d : DeploymentItem.t) : bool :=
  match DeploymentItemConfig.Barrier (DeploymentItem.Config d) with
  | Some b => b
  | None => false
  end
  || DeploymentItem.Barrier d.

Definition setWorker (i : nat) (d : DeploymentItem.t) (w : WorkerState) (s : Sched)
  : list (DeploymentItem.t * WorkerState) :=
  <[i := (d, w)]> (workers s).

Section Scheduler.
Variable pkgs : Packages.
Variable a : ApplyUtil.

(** The code a worker runs next, as the pieces of [applyDeploymentItem];
    [None] where its next step is a synchronisation. *)
Definition workerCode (fuel : nat) (d : DeploymentItem.t) (w : WorkerState)
  : option (M WorkerState) :=
  match w with
  | WAcquired =>
      Some (let* plan := itemPrelude pkgs a d in
            match plan with
            | None => ret WReturned
            | Some p =>
                ret (WLoop (length (planObjects p)) (planObjects p)
                           (planStartTime p) false (planPostHooks p))
            end)
  | WLoop n [] startTime didLog postHooks => Some (ret (WEpilogue postHooks))
  | WLoop n ((i, obj) :: rest) startTime didLog postHooks =>
      Some (let* abort := gets abortSignal in
            if abort then ret (WEpilogue postHooks)
            else ret (WApplying n i obj rest startTime didLog postHooks))
  | WApplying n i obj rest startTime didLog postHooks =>
      Some (let* (startTime, didLog) :=
              applyOne pkgs a fuel d n startTime didLog i obj in
            ret (WLoop n rest startTime didLog postHooks))
  | WEpilogue postHooks =>
      Some (itemEpilogue pkgs a postHooks ;; ret WReturned)
  | WSpawned | WReturned | WReleased | WDone => None
  end.

(** The worker on its own: its code, piece after piece, for at most [gas]
    pieces. *)
Fixpoint runWorker (gas fuel : nat) (d : DeploymentItem.t) (w : WorkerState)
  : M WorkerState :=
  match gas with
  | O => ret w
  | S gas' =>
      match workerCode fuel d w with
      | None => ret w
      | Some m => let* w' := m in runWorker gas' fuel d w'
      end
  end.

Inductive step : Sched -> Label -> Sched -> Prop :=
| step_dispatch s d rest :
    crashed s = false -> pc s = PcLoop -> pending s = d :: rest ->
    abortSignal (shared s) = false ->
    step s (LDispatch (length (workers s)))
         {| shared := if isBarrier d
                      then with_output (LogInfof MsgWaitingOnBarrier) (shared s)
                      else shared s;
            pc := if isBarrier d then PcBarrier else PcLoop;
            pending := rest;
            workers := workers s ++ [(d, WSpawned)];
            wg := S (wg s); sem := sem s; crashed := false |}
| step_break s d rest :
    crashed s = false -> pc s = PcLoop -> pending s = d :: rest ->
    abortSignal (shared s) = true ->
    step s LBreak
         {| shared := shared s; pc := PcFinalWait; pending := pending s;
            workers := workers s; wg := wg s; sem := sem s; crashed := false |}
| step_loop_end s :
    crashed s = false -> pc s = PcLoop -> pending s = [] ->
    step s LLoopEnd
         {| shared := shared s; pc := PcFinalWait; pending := [];
            workers := workers s; wg := wg s; sem := sem s; crashed := false |}
| step_barrier_passed s :
    crashed s = false -> pc s = PcBarrier -> wg s = 0%nat ->
    step s LBarrierPassed
         {| shared := shared s; pc := PcLoop; pending := pending s;
            workers := workers s; wg := wg s; sem := sem s; crashed := false |}
| step_finished s :
    crashed s = false -> pc s = PcFinalWait -> wg s = 0%nat ->
    step s LFinished
         {| shared := shared s; pc := PcDone; pending := pending s;
            workers := workers s; wg := wg s; sem := sem s; crashed := false |}
| step_acquire s i d :
    crashed s = false -> workers s !! i = Some (d, WSpawned) ->
    (sem s < semaphoreWeight)%nat ->
    step s (LAcquire i)
         {| shared := shared s; pc := pc s; pending := pending s;
            workers := setWorker i d WAcquired s;
            wg := wg s; sem := S (sem s); crashed := false |}
| step_run s i d w fuel m w' st' :
    crashed s = false -> workers s !! i = Some (d, w) ->
    workerCode fuel d w = Some m -> m (shared s) = (Ret w', st') ->
    step s (LRun i w)
         {| shared := st'; pc := pc s; pending := pending s;
            workers := setWorker i d w' s;
            wg := wg s; sem := sem s; crashed := false |}
| step_panic s i d w fuel m st' :
    crashed s = false -> workers s !! i = Some (d, w) ->
    workerCode fuel d w = Some m -> m (shared s) = (Panic, st') ->
    step s (LPanic i w)
         {| shared := st'; pc := pc s; pending := pending s;
            workers := workers s; wg := wg s; sem := sem s; crashed := true |}
| step_release s i d :
    crashed s = false -> workers s !! i = Some (d, WReturned) ->
    step s (LRelease i)
         {| shared := shared s; pc := pc s; pending := pending s;
            workers := setWorker i d WReleased s;
            wg := wg s; sem := pred (sem s); crashed := false |}
| step_wg_done s i d :
    crashed s = false -> workers s !! i = Some (d, WReleased) ->
    step s (LWgDone i)
         {| shared := shared s; pc := pc s; pending := pending s;
            workers := setWorker i d WDone s;
            wg := pred (wg s); sem := sem s; crashed := false |}.

(** Runs: a run is extended at its end. *)
Inductive steps : Sched -> list Label -> Sched -> Prop :=
| steps_refl s : steps s [] s
| steps_snoc s tr s' l s'' : steps s tr s' -> step s' l s'' -> steps s (tr ++ [l]) s''.

(** [ApplyDeployments] starts here: nothing is dispatched yet. *)
Definition ApplyDeployments (st : ApplyState) : Sched :=
  {| shared := with_output (LogInfof MsgRunningServerSideApply) st;
     pc := PcLoop;
     pending := deployments a;
     workers := [];
     wg := 0; sem := 0; crashed := false |}.
End Scheduler.

(** ** Scripted collaborators for concrete runs *)

(** What a scripted gateway answers to its [n]-th call: an object with an
    optional error, or nothing scripted (the call succeeds and a patch or
    update returns the object it was given). *)
Inductive Answer :=
| Answers (r : option UnstructuredObject) (e : option error)
| Succeeds.

Definition scripted (script : list Answer) : K8sCluster :=
  {| PatchObject := fun n x _ =>
       match script !! n with
       | Some (Answers r e) => (r, [], e)
       | _ => (Some x, [], None)
       end;
     UpdateObject := fun n x _ =>
       match script !! n with
       | Some (Answers r e) => (r, [], e)
       | _ => (Some x, [], None)
       end;
     DeleteSingleObject := fun n _ _ =>
       match script !! n with
       | Some (Answers _ e) => ([], e)
       | _ => ([], None)
       end;
     GetSingleObject := fun n _ =>
       match script !! n with
       | Some (Answers r e) => (r, [], e)
       | _ => (None, [], Some (mkErr ErrNotFound None "not found"))
       end;
     RediscoverResources := fun n =>
       match script !! n with
       | Some (Answers _ e) => e
       | _ => None
       end;
     GetGVKs := fun g v k => [mkGVK g v k];
     FixObjectForPatch := fun x => x;
     callDuration := fun _ => 20 * Millisecond |}.

(** A hook engine that reads one phase from the annotation
    [kluctl.io/hook], and a validator that reads the field [ready]. *)
Definition scriptedPackages : Packages :=
  {| ResolveFieldManagerConflicts := fun x _ status =>
       (mkObj (objGVK x) (objNamespace x) (objName x) (objResourceVersion x)
              (objAnnotations x)
              (List.filter (fun f => negb (hasString (map fst status) f.1)) (objFields x)),
        map (fun c => mkLost c.1 c.2) status, None);
     ValidateObject := fun o =>
       match o with
       | Some x => mkValidate (String.eqb (lookupAnnotation (objFields x) "ready") "true") []
       | None => mkValidate false ["no object"]
       end;
     RandomString := fun _ _ => "abcdefgh";
     ReplaceKeys := fun x _ _ => x;
     ReplaceValues := fun x _ realName => SetK8sName x realName;
     ParseBoolOrFalse := fun s => String.eqb s "true";
     refString := fun ref => Namespace ref +:+ "/" +:+ Name ref;
     GetHook := fun x =>
       match GetK8sAnnotation x "kluctl.io/hook" with
       | "" => None
       | phase => Some (mkHook x [phase] 0 [])
       end |}.

Definition noOptions : ApplyUtilOptions :=
  {| ForceApply := false; ReplaceOnError := false; ForceReplaceOnError := false;
     DryRun := false; AbortOnError := false; WaitObjectTimeout := 0; NoWait := false |}.

Definition gvkDeployment : GroupVersionKind := mkGVK "apps" "v1" "Deployment".
Definition gvkJob : GroupVersionKind := mkGVK "batch" "v1" "Job".

Definition d1 : UnstructuredObject :=
  mkObj gvkDeployment "default" "d1" "" [] [("spec.replicas", "3")].

Definition d1Remote : UnstructuredObject :=
  mkObj gvkDeployment "default" "d1" "42" [] [("spec.replicas", "1")].

Definition migrateJob : UnstructuredObject :=
  mkObj gvkJob "default" "migrate" "" [("kluctl.io/hook", "pre-deploy")] [].

Definition remoteWith (l : list UnstructuredObject) : RemoteObjectUtils :=
  {| GetRemoteObject := fun ref =>
       List.find (fun x => bool_decide (GetK8sRef x = ref)) l |}.

Definition emptySink : DeploymentErrorsAndWarnings := mkDew [] [] [].
Definition freshState : ApplyState := NewApplyUtil emptySink 0.

Definition transportError : error := mkErr ErrOther None "connection reset".
Definition noMatchError : error := mkErr ErrNoMatch None "no matches for kind".
Definition notFoundError : error := mkErr ErrNotFound None "not found".
Definition internalError : error := mkErr ErrInternalError None "internal error".
Definition conflictError : error :=
  mkErr ErrConflict (Some [("spec.replicas", "conflict with kubectl")]) "conflict".

Definition itemOf (objs : list UnstructuredObject) : DeploymentItem.t :=
  DeploymentItem.mk (DeploymentItemConfig.mk [] None None) objs false false true.

(** An upgrade: the deployment exists remotely, and the item carries a
    pre-deploy hook. *)
Definition upgradeItem : DeploymentItem.t := itemOf [migrateJob; d1].

Definition aUpgrade : ApplyUtil :=
  mkApplyUtil [upgradeItem] (remoteWith [d1Remote]) (scripted []) noOptions.

(** The first patch fails in transport and the run replaces on error. *)
Definition aReplace : ApplyUtil :=
  mkApplyUtil [] (remoteWith [d1Remote])
              (scripted [Answers None (Some transportError)])
              {| ForceApply := false; ReplaceOnError := true;
                 ForceReplaceOnError := false; DryRun := false;
                 AbortOnError := false; WaitObjectTimeout := 0; NoWait := false |}.

(** A dry run. *)
Definition aDryRun : ApplyUtil :=
  mkApplyUtil [] (remoteWith [d1Remote]) (scripted [])
              {| ForceApply := false; ReplaceOnError := false;
                 ForceReplaceOnError := false; DryRun := true;
                 AbortOnError := false; WaitObjectTimeout := 0; NoWait := false |}.

(** A callback of [ReplaceObject] that sets the replicas. *)
Definition scaleUp (x : UnstructuredObject) : option UnstructuredObject * option error :=
  (Some (mkObj (objGVK x) (objNamespace x) (objName x) (objResourceVersion x)
               (objAnnotations x) [("spec.replicas", "3")]), None).

(** An item that is not included in the deployment and declares a
    deletion. *)
Definition oldDeployment : DeleteObjectItemConfig.t :=
  DeleteObjectItemConfig.mk "apps" "v1" "Deployment" "old" "default".

Definition oldDeploymentRef : ObjectRef :=
  {| GVK := gvkDeployment; Name := "old"; Namespace := "default" |}.

Definition skippedItem : DeploymentItem.t :=
  DeploymentItem.mk (DeploymentItemConfig.mk [oldDeployment] None None)
                    [d1] false false false.

Definition includedItem : DeploymentItem.t :=
  DeploymentItem.mk (DeploymentItemConfig.mk [oldDeployment] None None)
                    [d1] false false true.

Definition aPlain : ApplyUtil :=
  mkApplyUtil [skippedItem; includedItem] (remoteWith []) (scripted []) noOptions.

(** ** Relations between the state before and after a piece of code *)

Definition always {A} (R : relation ApplyState) (m : M A) : Prop :=
  forall s, R s (m s).2.

(** The abort flag is never cleared, and where it becomes set the run has
    [AbortOnError] and an error was recorded in between. *)
Definition abortMonotone (a : ApplyUtil) : relation ApplyState := fun s s' =>
  (ErrorCount (dew s) <= ErrorCount (dew s'))%nat
  /\ (abortSignal s = true -> abortSignal s' = true)
  /\ (abortSignal s = false -> abortSignal s' = true ->
      AbortOnError (o a) = true /\ (ErrorCount (dew s) < ErrorCount (dew s'))%nat).

(** The gateway calls made in between all satisfy [P]. *)
Definition callsExtend (P : GatewayCall -> Prop) : relation ApplyState := fun s s' =>
  exists l, calls s' = calls s ++ l /\ Forall P l.

(** A mutating call carries the dry-run flag of the run. *)
Definition dryRunFlagged (a : ApplyUtil) (c : GatewayCall) : Prop :=
  match c with
  | CallPatch _ opts => PatchOptions.ForceDryRun opts = DryRun (o a)
  | CallUpdate _ opts => UpdateOptions.ForceDryRun opts = DryRun (o a)
  | CallDelete _ opts => DeleteOptions.ForceDryRun opts = DryRun (o a)
  | CallGet _ | CallRediscover => True
  end.

Definition isPatchCall (c : GatewayCall) : Prop :=
  match c with CallPatch _ _ => True | _ => False end.

(** The [n]-th call of [cs] is a patch that the gateway answered with a
    CustomResourceDefinition and no error. *)
Definition crdApplied (kc : K8sCluster) (cs : list GatewayCall) (n : nat) : Prop :=
  exists x opts r ws,
    cs !! n = Some (CallPatch x opts)
    /\ PatchObject kc n x opts = (Some r, ws, None)
    /\ isCRD (GetK8sRef r) = true.

(** A disarmed latch is armed again only by a successful patch of a
    CustomResourceDefinition made in between. *)
Definition latchHeld (a : ApplyUtil) : relation ApplyState := fun s s' =>
  (exists l, calls s' = calls s ++ l)
  /\ (deployedNewCRD s = false -> deployedNewCRD s' = true ->
      exists n, (length (calls s) <= n)%nat /\ crdApplied (k a) (calls s') n).

(** The latch is as it was. *)
Definition sameLatch : relation ApplyState := fun s s' =>
  deployedNewCRD s' = deployedNewCRD s.

Definition notRediscover (c : GatewayCall) : Prop := c <> CallRediscover.

(** Rediscovery succeeds, and the retried patch as well. *)
Definition aRediscover : ApplyUtil :=
  mkApplyUtil [] (remoteWith []) (scripted [Answers None (Some noMatchError)]) noOptions.

(** Rediscovery fails. *)
Definition aRediscoverFails : ApplyUtil :=
  mkApplyUtil [] (remoteWith [])
              (scripted [Answers None (Some noMatchError);
                         Answers None (Some transportError)])
              noOptions.

(** A CustomResourceDefinition. *)
Definition gvkCRD : GroupVersionKind :=
  mkGVK "apiextensions.k8s.io" "v1" "CustomResourceDefinition".

Definition crd : UnstructuredObject := mkObj gvkCRD "" "foos.example.com" "" [] [].

Definition plainPatch : PatchOptions.t :=
  {| PatchOptions.ForceDryRun := false; PatchOptions.ForceApply := false |}.

(** The state with more warnings in its sink. *)
Definition addWarnings (ws : list (ObjectRef * error)) (s : ApplyState) : ApplyState :=
  with_dew (fun d => mkDew (dewErrors d) (dewWarnings d ++ ws) (dewApiWarnings d)) s.

(** The first patch is rejected with a field-manager conflict on
    [spec.replicas]. *)
Definition aConflict : ApplyUtil :=
  mkApplyUtil [] (remoteWith [d1Remote])
              (scripted [Answers None (Some conflictError)]) noOptions.

(** The first patch fails with an internal error; the run would replace
    on error. *)
Definition aInternal : ApplyUtil :=
  mkApplyUtil [] (remoteWith [d1Remote])
              (scripted [Answers None (Some internalError)])
              {| ForceApply := false; ReplaceOnError := true;
                 ForceReplaceOnError := true; DryRun := false;
                 AbortOnError := false; WaitObjectTimeout := 0; NoWait := false |}.

Definition forcedPatch : PatchOptions.t :=
  {| PatchOptions.ForceDryRun := false; PatchOptions.ForceApply := true |}.

(** [d1] without the field it lost. *)
Definition d1Resolved : UnstructuredObject :=
  mkObj gvkDeployment "default" "d1" "" [] [].

(** Gateways for the readiness waiter: the read fails in transport; the
    object is ready; the read returns no object; the object is pending. *)
Definition aGetFails : ApplyUtil :=
  mkApplyUtil [] (remoteWith []) (scripted [Answers None (Some transportError)]) noOptions.

Definition d1Ready : UnstructuredObject :=
  mkObj gvkDeployment "default" "d1" "43" [] [("ready", "true")].

Definition aReady : ApplyUtil :=
  mkApplyUtil [] (remoteWith []) (scripted [Answers (Some d1Ready) None]) noOptions.

Definition aNoObject : ApplyUtil :=
  mkApplyUtil [] (remoteWith []) (scripted [Answers None None]) noOptions.

Definition aPending : ApplyUtil :=
  mkApplyUtil [] (remoteWith [])
              (scripted [Answers (Some d1) None; Answers (Some d1) None;
                         Answers (Some d1) None])
              noOptions.

(** A gateway that always finds the object, in a state that the
    validator calls neither ready nor failed. *)
Definition alwaysPending (pkgs : Packages) (a : ApplyUtil) (ref : ObjectRef) : Prop :=
  forall n, exists obj ws,
    GetSingleObject (k a) n ref = (obj, ws, None)
    /\ Ready (ValidateObject pkgs obj) = false
    /\ Errors (ValidateObject pkgs obj) = [].

(** The gateway finds [d1] at every read, never ready. *)
Definition pendingForever : K8sCluster :=
  {| PatchObject := fun _ x _ => (Some x, [], None);
     UpdateObject := fun _ x _ => (Some x, [], None);
     DeleteSingleObject := fun _ _ _ => ([], None);
     GetSingleObject := fun _ _ => (Some d1, [], None);
     RediscoverResources := fun _ => None;
     GetGVKs := fun g v k => [mkGVK g v k];
     FixObjectForPatch := fun x => x;
     callDuration := fun _ => 20 * Millisecond |}.

Definition aPendingForever : ApplyUtil :=
  mkApplyUtil [] (remoteWith []) pendingForever noOptions.

(** Items for runs of the scheduler: one without objects, and a barrier. *)
Definition plainItem : DeploymentItem.t := itemOf [].

Definition barrierItem : DeploymentItem.t :=
  DeploymentItem.mk (DeploymentItemConfig.mk [] None (Some true)) [] false false true.

Definition aBarrierFirst : ApplyUtil :=
  mkApplyUtil [barrierItem; plainItem] (remoteWith []) (scripted []) noOptions.

Definition aWave : ApplyUtil :=
  mkApplyUtil [plainItem; barrierItem; plainItem] (remoteWith []) (scripted []) noOptions.

Definition abortedState : ApplyState := with_abortSignal true freshState.

(** ** Vocabulary for runs of the scheduler *)

Definition isApplying (w : WorkerState) : Prop :=
  match w with WApplying _ _ _ _ _ _ _ => True | _ => False end.

Definition isDone (w : WorkerState) : bool :=
  match w with WDone => true | _ => false end.

(** The workers whose [wg.Done] has not run. *)
Fixpoint active (ws : list (DeploymentItem.t * WorkerState)) : nat :=
  match ws with
  | [] => 0%nat
  | (_, w) :: ws' => ((if isDone w then 0 else 1) + active ws')%nat
  end.

(** The items before this index have been drained by every barrier among
    them: all dispatched items, except the barrier just dispatched while
    the scheduler waits in it. *)
Definition drainedBelow (s : Sched) : nat :=
  match pc s with
  | PcBarrier => pred (length (workers s))
  | _ => length (workers s)
  end.

Definition isDispatch (l : Label) : Prop :=
  match l with LDispatch _ => True | _ => False end.

(** What holds in every state of a run of [ApplyDeployments]: the
    dispatched items followed by the pending ones are the deployments; the
    WaitGroup counts the workers that are not done; and below
    [drainedBelow], every worker up to a barrier item is done. *)
Definition schedInv (a : ApplyUtil) (s : Sched) : Prop :=
  (workers s).*1 ++ pending s = deployments a
  /\ wg s = active (workers s)
  /\ (forall b i d, (b < drainedBelow s)%nat -> deployments a !! b = Some d ->
       isBarrier d = true -> (i <= b)%nat ->
       exists di, workers s !! i = Some (di, WDone)).

(** A scheduler state with the abort signal set while one worker is past
    its object loop. *)
Definition inFlight : Sched :=
  {| shared := abortedState; pc := PcFinalWait; pending := [];
     workers := [(plainItem, WEpilogue [])]; wg := 1; sem := 1; crashed := false |}.

(** ** The accessors *)

(** Modelled from the spec: [types.RefAndObject] (package [types] is not
    under src/), the pair that the accessor of the applied hook objects
    returns, with the two fields the code sets. *)
Module RefAndObject.
Record t := mk { Ref : ObjectRef; Object : UnstructuredObject }.
End RefAndObject.

(** [for ref := range a.deletedObjects]: Go ranges over a map in an
    unspecified order; the list below is in the order of [map_to_list],
    and what is proved of it holds for every order. *)
Definition GetDeletedObjectsList (s : ApplyState) : list ObjectRef :=
  (map_to_list (deletedObjects s)).*1.

Definition GetAppliedHookObjects (s : ApplyState) : list RefAndObject.t :=
  (fun p => {| RefAndObject.Ref := GetK8sRef p.2; RefAndObject.Object := p.2 |})
    <$> map_to_list (appliedHookObjects s).

(** ** Vocabulary for the ladder *)

(** The remote object whose name [ApplyObject] restores after a patch
    under a dummy name; [None] where no dummy name is used. *)
Definition usesDummyName (a : ApplyUtil) (x : UnstructuredObject) (replaced : bool)
  : option UnstructuredObject :=
  match GetRemoteObject (ru a) (GetK8sRef x) with
  | Some remote => if DryRun (o a) && replaced then Some remote else None
  | None => None
  end.

(** The state in which [ApplyObject] makes its first patch. *)
Definition enterApply (a : ApplyUtil) (x : UnstructuredObject) (replaced : bool)
    (s : ApplyState) : ApplyState :=
  let s1 := with_output (LogDebugf MsgApplyingObjectDebug) s in
  if isNil (usesDummyName a x replaced) then s1 else with_randoms S s1.

(** The options of the first patch. *)
Definition firstOptions (a : ApplyUtil) : PatchOptions.t :=
  {| PatchOptions.ForceDryRun := DryRun (o a); PatchOptions.ForceApply := false |}.

(** An error that [ApplyObject] hands to the replace path: none of the
    kinds it handles before. *)
Definition isOtherError (e : error) : bool :=
  negb (IsNoMatchError e) && negb (IsConflict e) && negb (IsInternalError e).

(** ** Scripted runs of the ladder *)

Definition withOptions (f : ApplyUtilOptions) (script : list Answer) : ApplyUtil :=
  mkApplyUtil [] (remoteWith [d1Remote]) (scripted script) f.

(** The first patch and the update fail in transport, and the deletion
    does not find the object. *)
Definition aLost : ApplyUtil :=
  withOptions {| ForceApply := false; ReplaceOnError := true;
                 ForceReplaceOnError := true; DryRun := false;
                 AbortOnError := true; WaitObjectTimeout := 0; NoWait := false |}
              [Answers None (Some transportError); Answers None (Some transportError);
               Answers None (Some notFoundError)].

(** A dry run that replaces by force. *)
Definition aDryForce : ApplyUtil :=
  withOptions {| ForceApply := false; ReplaceOnError := true;
                 ForceReplaceOnError := true; DryRun := true;
                 AbortOnError := false; WaitObjectTimeout := 0; NoWait := false |}
              [].

(** A dry run whose first patch fails in transport and that does not
    replace on error. *)
Definition aDryFails : ApplyUtil :=
  withOptions {| ForceApply := false; ReplaceOnError := false;
                 ForceReplaceOnError := false; DryRun := true;
                 AbortOnError := false; WaitObjectTimeout := 0; NoWait := false |}
              [Answers None (Some transportError)].

(** ** Errors and results *)

(** No error was recorded and no result was stored. *)
Definition quiet : relation ApplyState := fun s s' =>
  dewErrors (dew s') = dewErrors (dew s)
  /\ AppliedObjects s' = AppliedObjects s
  /\ appliedHookObjects s' = appliedHookObjects s.

(** No error was recorded, or exactly one was and no result was stored. *)
Definition errorOrResult : relation ApplyState := fun s s' =>
  dewErrors (dew s') = dewErrors (dew s)
  \/ ((exists ref e, dewErrors (dew s') = dewErrors (dew s) ++ [(ref, e)])
      /\ AppliedObjects s' = AppliedObjects s
      /\ appliedHookObjects s' = appliedHookObjects s).

(** ** What the run keeps of its results *)

(** The entries of the four maps stay. *)
Definition mapsGrow : relation ApplyState := fun s s' =>
  dom (AppliedObjects s) ⊆ dom (AppliedObjects s')
  /\ dom (appliedHookObjects s) ⊆ dom (appliedHookObjects s')
  /\ dom (deletedObjects s) ⊆ dom (deletedObjects s')
  /\ dom (deletedHookObjects s) ⊆ dom (deletedHookObjects s').

(** Every result is stored under its own reference, and every applied
    hook object has an entry among the applied objects. *)
Definition storeInv (s : ApplyState) : Prop :=
  (forall ref x, AppliedObjects s !! ref = Some x -> GetK8sRef x = ref)
  /\ (forall ref x, appliedHookObjects s !! ref = Some x ->
        GetK8sRef x = ref /\ is_Some (AppliedObjects s !! ref)).

Definition keeps (Inv : ApplyState -> Prop) : relation ApplyState := fun s s' =>
  Inv s -> Inv s'.

(** A run of one item with one object, to its end. *)
Definition aOne : ApplyUtil :=
  mkApplyUtil [itemOf [d1]] (remoteWith []) (scripted []) noOptions.

(** ** More vocabulary for runs of the scheduler *)

(** The items that a run dispatched, in the order of their dispatch. *)
Definition dispatched (tr : list Label) : list nat :=
  omap (fun l => match l with LDispatch i => Some i | _ => None end) tr.

(** A worker that holds a permit of the semaphore: between its
    [sem.Acquire] and its [sem.Release]. *)
Definition holdsPermit (w : WorkerState) : bool :=
  match w with
  | WSpawned | WReleased | WDone => false
  | WAcquired | WLoop _ _ _ _ _ | WApplying _ _ _ _ _ _ _ | WEpilogue _ | WReturned => true
  end.

Fixpoint permitsHeld (ws : list (DeploymentItem.t * WorkerState)) : nat :=
  match ws with
  | [] => 0%nat
  | (_, w) :: ws' => ((if holdsPermit w then 1 else 0) + permitsHeld ws')%nat
  end.

(** The semaphore counts the workers between acquire and release, and
    never more than its weight. *)
Definition semInv (s : Sched) : Prop :=
  sem s = permitsHeld (workers s) /\ (sem s <= semaphoreWeight)%nat.

(** Past its loop the scheduler has ranged over every item or has seen
    the abort signal, and once it has returned no worker is left. *)
Definition endInv (s : Sched) : Prop :=
  (pc s = PcFinalWait \/ pc s = PcDone ->
   pending s = [] \/ abortSignal (shared s) = true)
  /\ (pc s = PcDone -> wg s = 0%nat).

(** ** What the readiness waiter leaves alone *)

(** The results, the deletions and the latch are as before. *)
Definition sameStore : relation ApplyState := fun s s' =>
  AppliedObjects s' = AppliedObjects s
  /\ appliedHookObjects s' = appliedHookObjects s
  /\ deletedObjects s' = deletedObjects s
  /\ deletedHookObjects s' = deletedHookObjects s
  /\ deployedNewCRD s' = deployedNewCRD s.

(** Nothing but reads of [ref] went to the gateway, and nothing but
    errors of [ref] went to the sink. *)
Definition onlyReads (ref : ObjectRef) : relation ApplyState := fun s s' =>
  sameStore s s'
  /\ (exists n, calls s' = calls s ++ replicate n (CallGet ref))
  /\ (exists l, dewErrors (dew s') = dewErrors (dew s) ++ l
                /\ Forall (fun p => p.1 = ref) l)
  /\ dewWarnings (dew s') = dewWarnings (dew s).

(** ** Scripted runs of the replace loop *)

Definition realUpdate : UpdateOptions.t := {| UpdateOptions.ForceDryRun := false |}.

(** A callback that leaves the object as it is. *)
Definition keepAsIs (x : UnstructuredObject) : option UnstructuredObject * option error :=
  (Some x, None).

(** A callback that fails. *)
Definition refuses (x : UnstructuredObject) : option UnstructuredObject * option error :=
  (None, Some transportError).

Definition d1Scaled : UnstructuredObject :=
  mkObj gvkDeployment "default" "d1" "42" [] [("spec.replicas", "3")].

Definition d1Newer : UnstructuredObject :=
  mkObj gvkDeployment "default" "d1" "43" [] [("spec.replicas", "2")].

Definition d1NewerScaled : UnstructuredObject :=
  mkObj gvkDeployment "default" "d1" "43" [] [("spec.replicas", "3")].

Definition resourceVersionConflict : error :=
  mkErr ErrConflict None "the object has been modified".

(** The first update meets a conflict; the object is read again and the
    second update goes through. *)
Definition aConflictOnce : ApplyUtil :=
  mkApplyUtil [] (remoteWith []) 
              (scripted [Answers None (Some resourceVersionConflict);
                         Answers (Some d1Newer) None])
              noOptions.

(** Every read finds the object and every update meets a conflict. *)
Definition conflictsForever : K8sCluster :=
  {| PatchObject := fun _ x _ => (Some x, [], None);
     UpdateObject := fun _ _ _ => (None, [], Some resourceVersionConflict);
     DeleteSingleObject := fun _ _ _ => ([], None);
     GetSingleObject := fun _ _ => (Some d1Remote, [], None);
     RediscoverResources := fun _ => None;
     GetGVKs := fun g v k => [mkGVK g v k];
     FixObjectForPatch := fun x => x;
     callDuration := fun _ => 20 * Millisecond |}.

Definition aConflictsForever : ApplyUtil :=
  mkApplyUtil [] (remoteWith []) conflictsForever noOptions.

(** The callback changes the object. *)
Definition changes
    (callback : UnstructuredObject -> option UnstructuredObject * option error)
    (x : UnstructuredObject) : Prop :=
  exists m, callback (Clone x) = (Some m, None) /\ m <> x.

(** A gateway and a callback with which every round of the replace loop
    ends in a conflict: the callback changes the first version and every
    object that a read returns, every read finds an object, and every
    update meets a conflict. *)
Definition everyRoundConflicts (a : ApplyUtil) (ref : ObjectRef)
    (firstVersion : option UnstructuredObject)
    (callback : UnstructuredObject -> option UnstructuredObject * option error) : Prop :=
  (forall fv, firstVersion = Some fv -> changes callback fv)
  /\ (forall n, exists remote ws,
         GetSingleObject (k a) n ref = (Some remote, ws, None)
         /\ changes callback remote)
  /\ (forall n x, exists r ws e,
        UpdateObject (k a) n x {| UpdateOptions.ForceDryRun := false |} = (r, ws, Some e)
        /\ IsConflict e = true).

(** The object a round of the replace loop works on, and the state it
    starts from: the first version in the first round when there is one,
    and what the gateway returns otherwise. *)
Definition fetches (a : ApplyUtil) (ref : ObjectRef)
    (firstVersion : option UnstructuredObject) (firstCall : bool) (s : ApplyState)
    (remote : UnstructuredObject) (s1 : ApplyState) : Prop :=
  (if firstCall && negb (isNil firstVersion) then ret (Some firstVersion)
   else fetchRemote a ref) s = (Ret (Some (Some remote)), s1).

(** ** Nil results and the gateway *)

(** What the code relies on when it stores the result of a patch or of
    an update: an answer without an error carries an object. *)
Definition answersWithObject
    (answer : option UnstructuredObject * list ApiWarning * option error) : Prop :=
  answer.2 = None -> answer.1.1 <> None.

Definition gatewayContract (kc : K8sCluster) : Prop :=
  (forall n x opts, answersWithObject (PatchObject kc n x opts))
  /\ (forall n x opts, answersWithObject (UpdateObject kc n x opts)).

(** The code does not panic, and what it returns satisfies [Q]; it may
    run out of fuel only where [loops] is set. *)
Definition wp {A} (loops : bool) (Q : A -> Prop) (m : M A) : Prop :=
  forall s, match (m s).1 with
            | Ret x => Q x
            | Panic => False
            | OutOfFuel => loops = true
            end.

(** ** Counting the gateway calls *)

(** The code makes at most [n] gateway calls. *)
Definition atMost {A} (n : nat) (m : M A) : Prop :=
  forall s, exists l, calls (m s).2 = calls s ++ l /\ (length l <= n)%nat.

(** The longest path of the ladder: the first patch does not find the
    kind, the retried patch fails in transport, so does the update, and
    the object is deleted and patched once more. *)
Definition aLongest : ApplyUtil :=
  withOptions {| ForceApply := false; ReplaceOnError := true;
                 ForceReplaceOnError := true; DryRun := false;
                 AbortOnError := false; WaitObjectTimeout := 0; NoWait := false |}
              [Answers None (Some noMatchError); Succeeds;
               Answers None (Some transportError); Answers None (Some transportError)].

(** ** An item whose patches all succeed *)

Definition isIncrement (e : Output) : bool :=
  match e with PctxIncrement => true | _ => false end.

(** How often the progress counter was advanced. *)
Definition increments (s : ApplyState) : nat :=
  length (List.filter isIncrement (output s)).

(** The gateway accepts the patch of the object, whenever it comes and
    with whatever options, and returns an object that is no
    CustomResourceDefinition. *)
Definition acceptsPatchOf (a : ApplyUtil) (obj : UnstructuredObject) : Prop :=
  forall n opts, exists r ws,
    PatchObject (k a) n (FixObjectForPatch (k a) obj) opts = (Some r, ws, None)
    /\ isCRD (GetK8sRef r) = false.

(** An included item without deletions and without hooks. *)
Definition plainObjectsOnly (pkgs : Packages) (a : ApplyUtil) (d : DeploymentItem.t)
  : Prop :=
  DeploymentItem.CheckInclusionForDeploy d = true
  /\ toDeleteRefs a d = []
  /\ Forall (fun obj => GetHook pkgs obj = None) (DeploymentItem.Objects d).

(** The first patch of an object that was not deleted before. *)
Definition patchOf (a : ApplyUtil) (obj : UnstructuredObject) : GatewayCall :=
  CallPatch (FixObjectForPatch (k a) obj) (firstOptions a).

Definition d2 : UnstructuredObject :=
  mkObj gvkDeployment "default" "d2" "" [] [("spec.replicas", "1")].

Definition aTwoObjects : ApplyUtil :=
  mkApplyUtil [itemOf [d1; d2]] (remoteWith [])  (scripted [])
              {| ForceApply := false; ReplaceOnError := false;
                 ForceReplaceOnError := false; DryRun := false;
                 AbortOnError := true; WaitObjectTimeout := 0; NoWait := true |}.

(** ** The progress of an item *)

(** The output is only appended to. *)
Definition outputGrows : relation ApplyState := fun s s' =>
  exists out, output s' = output s ++ out.

(** How often a piece of output advances the progress counter. *)
Definition incrementsOf (out : list Output) : nat :=
  length (List.filter isIncrement out).

(** * Properties *)

Section Always.
Context (R : relation ApplyState) `{!PreOrder R}.

Lemma always_ret {A} (x : A) : always R (ret x).
Proof. intros s. reflexivity. Qed.

Lemma always_gets {A} (f : ApplyState -> A) : always R (gets f).
Proof. intros s. reflexivity. Qed.

Lemma always_panic {A} : always R (@panic A).
Proof. intros s. reflexivity. Qed.

Lemma always_outOfFuel {A} : always R (@outOfFuel A).
Proof. intros s. reflexivity. Qed.

Lemma always_deref {A} (p : option A) : always R (deref p).
Proof. destruct p; [apply always_ret | apply always_panic]. Qed.

Lemma always_bind {A B} (m : M A) (f : A -> M B) :
  always R m -> (forall x, always R (f x)) -> always R (bind m f).
Proof.
  intros Hm Hf s. unfold bind. specialize (Hm s).
  destruct (m s) as [[x| |] s1]; simpl in *; try assumption.
  etransitivity; [exact Hm | apply Hf].
Qed.

Lemma always_when (b : bool) (m : M unit) : always R m -> always R (when b m).
Proof. destruct b; simpl; [auto | intros _; apply always_ret]. Qed.

Lemma always_forM_ {A} (l : list A) (f : A -> M unit) :
  (forall x, always R (f x)) -> always R (forM_ l f).
Proof.
  intros Hf. induction l as [|x l IH]; simpl.
  - apply always_ret.
  - apply always_bind; auto.
Qed.
End Always.

Create HintDb always discriminated.

(** One layer of the code is peeled off: a bind, a branch, a loop over a
    list. *)
Ltac always_step :=
  lazymatch goal with
  | |- always _ (ret _) => apply always_ret; typeclasses eauto
  | |- always _ (gets _) => apply always_gets; typeclasses eauto
  | |- always _ panic => apply always_panic; typeclasses eauto
  | |- always _ outOfFuel => apply always_outOfFuel; typeclasses eauto
  | |- always _ (deref _) => apply always_deref; typeclasses eauto
  | |- always _ (bind _ _) => apply always_bind; [ typeclasses eauto | | intros ]
  | |- always _ (when _ _) => apply always_when; [ typeclasses eauto | ]
  | |- always _ (forM_ _ _) => apply always_forM_; [ typeclasses eauto | intros ]
  | |- always _ (match ?x with _ => _ end) => destruct x
  end.

Ltac always_auto := repeat first [ solve [ eauto 2 with always ] | always_step ].

(** ** The abort flag *)

Section AbortFlag.
Variable pkgs : Packages.
Variable a : ApplyUtil.

#[local] Instance abortMonotone_preorder : PreOrder (abortMonotone a).
Proof.
  split.
  - intros s. unfold abortMonotone. repeat split; auto; congruence.
  - intros s1 s2 s3 (Hc1 & Hk1 & Hs1) (Hc2 & Hk2 & Hs2).
    unfold abortMonotone. split; [lia|]. split; [auto|].
    intros H1 H3. destruct (abortSignal s2) eqn:H2.
    + destruct (Hs1 H1 eq_refl). split; [auto | lia].
    + destruct (Hs2 eq_refl H3). split; [auto | lia].
Qed.

(** Code that neither touches the flag nor removes errors. *)
Lemma abort_frame {A} (m : M A) :
  (forall s, abortSignal (m s).2 = abortSignal s
             /\ (ErrorCount (dew s) <= ErrorCount (dew (m s).2))%nat) ->
  always (abortMonotone a) m.
Proof.
  intros H s. destruct (H s) as [Hab Hc]. unfold abortMonotone.
  rewrite Hab. split; [exact Hc|]. split; [auto|]. intros; congruence.
Qed.

Ltac abort_prim :=
  apply abort_frame; intros ?; split;
  [reflexivity | unfold ErrorCount; cbn; try rewrite length_app; lia].

Lemma abort_emit e : always (abortMonotone a) (emit e).
Proof. abort_prim. Qed.

Lemma abort_sleep d : always (abortMonotone a) (time_Sleep d).
Proof. abort_prim. Qed.

Lemma abort_now : always (abortMonotone a) time_Now.
Proof. abort_prim. Qed.

Lemma abort_patch x opts : always (abortMonotone a) (k_PatchObject a x opts).
Proof. abort_prim. Qed.

Lemma abort_update x opts : always (abortMonotone a) (k_UpdateObject a x opts).
Proof. abort_prim. Qed.

Lemma abort_delete ref opts : always (abortMonotone a) (k_DeleteSingleObject a ref opts).
Proof. abort_prim. Qed.

Lemma abort_get ref : always (abortMonotone a) (k_GetSingleObject a ref).
Proof. abort_prim. Qed.

Lemma abort_rediscover : always (abortMonotone a) (k_RediscoverResources a).
Proof. abort_prim. Qed.

Lemma abort_random n : always (abortMonotone a) (utils_RandomString pkgs n).
Proof. abort_prim. Qed.

Lemma abort_modify_maps f :
  (forall s, abortSignal (f s) = abortSignal s /\ dew (f s) = dew s) ->
  always (abortMonotone a) (modify f).
Proof.
  intros H. apply abort_frame. intros s. cbn. destruct (H s) as [-> ->]. auto.
Qed.

Lemma abort_apiWarnings ref ws : always (abortMonotone a) (handleApiWarnings ref ws).
Proof. abort_prim. Qed.

Lemma abort_addApiWarnings ref ws :
  always (abortMonotone a) (modify (with_dew (AddApiWarnings ref ws))).
Proof. abort_prim. Qed.

Lemma abort_addWarning ref w :
  always (abortMonotone a) (modify (with_dew (AddWarning ref w))).
Proof. abort_prim. Qed.

Lemma abort_handleResult r hook : always (abortMonotone a) (handleResult r hook).
Proof.
  unfold handleResult.
  always_auto; apply abort_modify_maps; intros; split; reflexivity.
Qed.

Lemma HandleError_state ref e s :
  HandleError a ref e s =
  (Ret tt, with_dew (AddError ref e)
             (if AbortOnError (o a) then with_abortSignal true s else s)).
Proof. unfold HandleError. destruct (AbortOnError (o a)); reflexivity. Qed.

Lemma abort_HandleError ref e : always (abortMonotone a) (HandleError a ref e).
Proof.
  intros s. rewrite HandleError_state. unfold abortMonotone, ErrorCount.
  destruct (AbortOnError (o a)) eqn:Hopt; cbn; rewrite length_app; cbn.
  - split; [lia|]. split; [auto|]. intros; split; [auto | lia].
  - split; [lia|]. split; [auto|]. intros H1 H2; congruence.
Qed.

Hint Resolve abort_emit abort_sleep abort_now abort_patch abort_update abort_delete
  abort_get abort_rediscover abort_random abort_apiWarnings abort_addApiWarnings
  abort_addWarning abort_handleResult abort_HandleError : always.

Lemma abort_DeleteObject ref hook : always (abortMonotone a) (DeleteObject a ref hook).
Proof.
  unfold DeleteObject. always_auto; apply abort_modify_maps; intros; split; reflexivity.
Qed.
Hint Resolve abort_DeleteObject : always.

Lemma abort_retryApplyForceReplace x hook e :
  always (abortMonotone a) (retryApplyForceReplace a x hook e).
Proof. unfold retryApplyForceReplace. always_auto. Qed.
Hint Resolve abort_retryApplyForceReplace : always.

Lemma abort_retryApplyWithReplace x hook remote e :
  always (abortMonotone a) (retryApplyWithReplace a x hook remote e).
Proof. unfold retryApplyWithReplace. always_auto. Qed.

Lemma abort_retryApplyWithConflicts x hook remote e :
  always (abortMonotone a) (retryApplyWithConflicts pkgs a x hook remote e).
Proof. unfold retryApplyWithConflicts. always_auto. Qed.
Hint Resolve abort_retryApplyWithReplace abort_retryApplyWithConflicts : always.

Lemma abort_handleNewCRDs r err : always (abortMonotone a) (handleNewCRDs a r err).
Proof.
  unfold handleNewCRDs. always_auto; apply abort_modify_maps; intros; split; reflexivity.
Qed.
Hint Resolve abort_handleNewCRDs : always.

Lemma abort_ApplyObject x replaced hook :
  always (abortMonotone a) (ApplyObject pkgs a x replaced hook).
Proof.
  unfold ApplyObject, firstPatch, classifyPatchResult, dummyName. always_auto.
Qed.
Hint Resolve abort_ApplyObject : always.

Lemma abort_waitLoop fuel ref timeout startTime lastLogTime didLog :
  always (abortMonotone a)
         (waitLoop pkgs a fuel ref timeout startTime lastLogTime didLog).
Proof.
  revert startTime lastLogTime didLog.
  induction fuel as [|fuel IH]; intros; simpl; [apply always_outOfFuel; typeclasses eauto|].
  unfold waitLog. always_auto.
Qed.
Hint Resolve abort_waitLoop : always.

Lemma abort_WaitReadiness fuel ref timeout :
  always (abortMonotone a) (WaitReadiness pkgs a fuel ref timeout).
Proof. unfold WaitReadiness. always_auto. Qed.
Hint Resolve abort_WaitReadiness : always.

Lemma abort_RunHooks hooks : always (abortMonotone a) (RunHooks pkgs a hooks).
Proof. unfold RunHooks, runHook, HadError. always_auto. Qed.
Hint Resolve abort_RunHooks : always.

Lemma abort_itemPrelude d : always (abortMonotone a) (itemPrelude pkgs a d).
Proof. unfold itemPrelude, deleteLoop. always_auto. Qed.

Lemma abort_applyOne fuel d n startTime didLog i obj :
  always (abortMonotone a) (applyOne pkgs a fuel d n startTime didLog i obj).
Proof. unfold applyOne. always_auto. Qed.

Lemma abort_itemEpilogue postHooks :
  always (abortMonotone a) (itemEpilogue pkgs a postHooks).
Proof. unfold itemEpilogue. always_auto. Qed.
Hint Resolve abort_itemPrelude abort_applyOne abort_itemEpilogue : always.

Lemma abort_applyObjectsLoop fuel d n l startTime didLog :
  always (abortMonotone a) (applyObjectsLoop pkgs a fuel d n l startTime didLog).
Proof.
  revert startTime didLog.
  induction l as [|[i obj] l IH]; intros; simpl; always_auto.
Qed.
Hint Resolve abort_applyObjectsLoop : always.

Lemma abort_applyDeploymentItem fuel d :
  always (abortMonotone a) (applyDeploymentItem pkgs a fuel d).
Proof. unfold applyDeploymentItem. always_auto. Qed.

Lemma abort_replaceLoop fuel ref firstVersion callback firstCall :
  always (abortMonotone a) (replaceLoop a fuel ref firstVersion callback firstCall).
Proof.
  revert firstCall.
  induction fuel as [|fuel IH]; intros; simpl; [apply always_outOfFuel; typeclasses eauto|].
  unfold fetchRemote. always_auto.
Qed.

Lemma abort_ReplaceObject fuel ref firstVersion callback :
  always (abortMonotone a) (ReplaceObject a fuel ref firstVersion callback).
Proof. apply abort_replaceLoop. Qed.
End AbortFlag.

(** ** Runs of the scheduler *)

Section SchedulerRuns.
Variable pkgs : Packages.
Variable a : ApplyUtil.

Lemma steps_cons s l s1 tr s2 :
  step pkgs a s l s1 -> steps pkgs a s1 tr s2 -> steps pkgs a s (l :: tr) s2.
Proof.
  intros Hstep Hsteps. induction Hsteps as [s1|s1 tr s2 l' s3 Hsteps IH Hlast].
  - apply (steps_snoc pkgs a s [] s l s1); [constructor | exact Hstep].
  - rewrite app_comm_cons. eapply steps_snoc; [apply IH; exact Hstep | exact Hlast].
Qed.

Lemma steps_app s tr1 s1 tr2 s2 :
  steps pkgs a s tr1 s1 -> steps pkgs a s1 tr2 s2 -> steps pkgs a s (tr1 ++ tr2) s2.
Proof.
  intros H1 H2. induction H2 as [s1|s1 tr2 s2 l s3 H2 IH Hlast].
  - rewrite app_nil_r. exact H1.
  - rewrite app_assoc. eapply steps_snoc; [apply IH; exact H1 | exact Hlast].
Qed.

(** What a worker's code can lead to. *)
Lemma workerCode_next fuel d w m st w' st' :
  workerCode pkgs a fuel d w = Some m -> m st = (Ret w', st') ->
  isDone w = false /\ isDone w' = false
  /\ (abortSignal st = true -> ~ isApplying w').
Proof.
  intros Hcode Hrun. destruct w; simpl in Hcode; try discriminate.
  - injection Hcode as <-. unfold bind in Hrun.
    destruct (itemPrelude pkgs a d st) as [[[p|]| |] s1]; try discriminate;
      injection Hrun as <- <-; simpl; auto.
  - destruct rest as [|[i obj] rest]; injection Hcode as <-.
    + injection Hrun as <- <-. simpl; auto.
    + unfold bind, gets in Hrun. destruct (abortSignal st) eqn:Hab;
        injection Hrun as <- <-; simpl; repeat split; auto; congruence.
  - injection Hcode as <-. unfold bind in Hrun.
    destruct (applyOne pkgs a fuel d n startTime didLog i obj st) as [[[t b]| |] s1];
      try discriminate.
    injection Hrun as <- <-. simpl; auto.
  - injection Hcode as <-. unfold bind in Hrun.
    destruct (itemEpilogue pkgs a postHooks st) as [[[]| |] s1]; try discriminate.
    injection Hrun as <- <-. simpl; auto.
Qed.

#[local] Existing Instance abortMonotone_preorder.

Lemma workerCode_abort fuel d w m :
  workerCode pkgs a fuel d w = Some m -> always (abortMonotone a) m.
Proof.
  intros Hcode. destruct w; simpl in Hcode; try discriminate.
  - injection Hcode as <-. pose proof (abort_itemPrelude pkgs a d). always_auto.
  - destruct rest as [|[i obj] rest]; injection Hcode as <-; always_auto.
  - injection Hcode as <-.
    pose proof (abort_applyOne pkgs a fuel d n startTime didLog i obj). always_auto.
  - injection Hcode as <-. pose proof (abort_itemEpilogue pkgs a postHooks). always_auto.
Qed.

Lemma step_abortMonotone s l s' :
  step pkgs a s l s' -> abortMonotone a (shared s) (shared s').
Proof.
  intros Hstep. inversion Hstep; subst; simpl; try reflexivity.
  - destruct (isBarrier d); [|reflexivity].
    unfold abortMonotone; simpl. repeat split; auto; congruence.
  - match goal with
    | Hc : workerCode _ _ _ _ _ = Some ?m, Hr : ?m _ = _ |- _ =>
        pose proof (workerCode_abort _ _ _ _ Hc (shared s)) as HR;
        rewrite Hr in HR; exact HR
    end.
  - match goal with
    | Hc : workerCode _ _ _ _ _ = Some ?m, Hr : ?m _ = _ |- _ =>
        pose proof (workerCode_abort _ _ _ _ Hc (shared s)) as HR;
        rewrite Hr in HR; exact HR
    end.
Qed.

Lemma steps_abortMonotone s tr s' :
  steps pkgs a s tr s' -> abortMonotone a (shared s) (shared s').
Proof.
  induction 1 as [s|s tr s' l s'' _ IH Hstep]; [reflexivity|].
  etransitivity; [exact IH | eapply step_abortMonotone; exact Hstep].
Qed.

(** Once the flag is set: nothing is dispatched any more, and a worker
    applies an object only if it had passed its abort check before. *)
Lemma after_abort s tr s' :
  abortSignal (shared s) = true -> steps pkgs a s tr s' ->
  abortSignal (shared s') = true
  /\ Forall (fun l => ~ isDispatch l) tr
  /\ (forall i d w, workers s' !! i = Some (d, w) -> isApplying w ->
       workers s !! i = Some (d, w))
  /\ (forall i w, In (LRun i w) tr -> isApplying w ->
       exists d, workers s !! i = Some (d, w)).
Proof.
  intros Hab Hsteps.
  induction Hsteps as [s|s tr s' l s'' Hsteps IH Hstep].
  - repeat split; auto. intros i w [].
  - destruct (IH Hab) as (Hab' & Hnd & Hws & Hrun).
    assert (Hab'' : abortSignal (shared s'') = true).
    { destruct (step_abortMonotone _ _ _ Hstep) as (_ & Hk & _). auto. }
    assert (Hset : forall i d w', ~ isApplying w' ->
              forall j d0 w0, <[i := (d, w')]> (workers s') !! j = Some (d0, w0) ->
                isApplying w0 -> workers s !! j = Some (d0, w0)).
    { intros i d w' Hw' j d0 w0 Hj Happ.
      apply list_lookup_insert_Some in Hj as [(-> & Heq & _)|(_ & Hj)].
      - injection Heq as <- <-. contradiction.
      - eauto. }
    split; [exact Hab''|]. split; [|split].
    + apply Forall_app. split; [exact Hnd|]. constructor; [|constructor].
      inversion Hstep; subst; simpl; auto. congruence.
    + inversion Hstep; subst; simpl; unfold setWorker; auto.
      * congruence.
      * apply Hset; simpl; auto.
      * match goal with
        | Hc : workerCode _ _ _ _ _ = Some _, Hr : _ = (Ret _, _) |- _ =>
            destruct (workerCode_next _ _ _ _ _ _ _ Hc Hr) as (_ & _ & Hna)
        end.
        apply Hset; auto.
      * apply Hset; simpl; auto.
      * apply Hset; simpl; auto.
    + intros i w Hin Happ. apply in_app_or in Hin as [Hin|[Heq|[]]]; [eauto|].
      subst l. inversion Hstep; subst. eauto.
Qed.

(** *** Counting the workers that are not done *)

Lemma active_app ws ws' : active (ws ++ ws') = (active ws + active ws')%nat.
Proof. induction ws as [|[d w] ws IH]; simpl; [reflexivity | rewrite IH; lia]. Qed.

Lemma active_insert ws i d w d' w' :
  ws !! i = Some (d, w) ->
  (active (<[i := (d', w')]> ws) + (if isDone w then 0 else 1)
   = active ws + (if isDone w' then 0 else 1))%nat.
Proof.
  revert i. induction ws as [|[d0 w0] ws IH]; intros [|i] H; simpl in *; try discriminate.
  - injection H as -> ->. lia.
  - specialize (IH i H). lia.
Qed.

Lemma active_zero ws i d w :
  active ws = 0%nat -> ws !! i = Some (d, w) -> w = WDone.
Proof.
  revert i. induction ws as [|[d0 w0] ws IH]; intros [|i] H0 H; simpl in *; try discriminate.
  - injection H as -> ->. destruct w; simpl in H0; try lia. reflexivity.
  - apply (IH i); [lia | exact H].
Qed.

Lemma fst_setWorker (ws : list (DeploymentItem.t * WorkerState)) i d w w' :
  ws !! i = Some (d, w) -> (<[i := (d, w')]> ws).*1 = ws.*1.
Proof.
  intros H. rewrite list_fmap_insert. simpl. apply list_insert_id.
  rewrite list_lookup_fmap, H. reflexivity.
Qed.

(** *** The invariant of the scheduler *)

Lemma schedInv_setWorker s i d w w' st sm c :
  schedInv a s -> workers s !! i = Some (d, w) -> isDone w = false ->
  schedInv a (mkSched st (pc s) (pending s) (<[i := (d, w')]> (workers s))
                      (if isDone w' then pred (wg s) else wg s) sm c).
Proof.
  intros (Hitems & Hwg & Hdr) Hi Hw. unfold schedInv, drainedBelow in *; simpl.
  split; [rewrite (fst_setWorker _ _ _ _ _ Hi); exact Hitems|].
  split.
  - pose proof (active_insert _ _ _ _ d w' Hi) as Ha. rewrite Hw in Ha.
    destruct (isDone w'); lia.
  - rewrite length_insert. intros b i0 d0 Hb Hd0 Hbar Hle.
    destruct (Hdr b i0 d0 Hb Hd0 Hbar Hle) as [di Hdi].
    exists di. destruct (decide (i = i0)) as [->|Hne].
    + rewrite Hi in Hdi. injection Hdi as -> ->. discriminate.
    + rewrite list_lookup_insert_ne; auto.
Qed.

Lemma schedInv_init st : schedInv a (ApplyDeployments a st).
Proof.
  unfold schedInv, ApplyDeployments, drainedBelow; simpl.
  repeat split; auto. intros; lia.
Qed.

Lemma schedInv_step s l s' : schedInv a s -> step pkgs a s l s' -> schedInv a s'.
Proof.
  intros Hinv Hstep. inversion Hstep; subst.
  - (* dispatch *)
    destruct Hinv as (Hitems & Hwg & Hdr).
    match goal with Hp : pending s = _ |- _ => rewrite Hp in Hitems end.
    match goal with Hp : pc s = _ |- _ => unfold drainedBelow in Hdr; rewrite Hp in Hdr end.
    unfold schedInv, drainedBelow; simpl. split; [|split].
    + rewrite fmap_app. simpl. rewrite <- app_assoc. exact Hitems.
    + rewrite active_app. simpl. lia.
    + intros b i0 d0 Hb Hd0 Hbar Hle.
      assert (Hlt : (b < length (workers s))%nat).
      { destruct (isBarrier d) eqn:Hd; simpl in Hb; rewrite length_app in Hb;
          simpl in Hb; [lia|].
        destruct (decide (b = length (workers s))) as [->|]; [|lia].
        rewrite <- Hitems in Hd0.
        rewrite lookup_app_r in Hd0 by (rewrite length_fmap; lia).
        rewrite length_fmap, Nat.sub_diag in Hd0. simpl in Hd0.
        injection Hd0 as <-. congruence. }
      destruct (Hdr b i0 d0 Hlt Hd0 Hbar Hle) as [di Hdi].
      exists di. rewrite lookup_app_l; [exact Hdi|]. lia.
  - (* break *)
    destruct Hinv as (Hitems & Hwg & Hdr). unfold schedInv, drainedBelow in *; simpl.
    match goal with Hp : pc s = _ |- _ => rewrite Hp in Hdr end. auto.
  - (* the loop ends *)
    destruct Hinv as (Hitems & Hwg & Hdr). unfold schedInv, drainedBelow in *; simpl.
    match goal with Hp : pc s = _ |- _ => rewrite Hp in Hdr end.
    match goal with Hp : pending s = _ |- _ => rewrite Hp in Hitems end. auto.
  - (* the barrier is passed *)
    destruct Hinv as (Hitems & Hwg & Hdr). unfold schedInv, drainedBelow; simpl.
    split; [exact Hitems|]. split; [exact Hwg|].
    intros b i0 d0 Hb _ _ Hle.
    destruct (lookup_lt_is_Some_2 (workers s) i0) as [[di w] Hi]; [lia|].
    exists di. rewrite Hi. f_equal. f_equal.
    eapply active_zero; [|exact Hi]. congruence.
  - (* finished *)
    destruct Hinv as (Hitems & Hwg & Hdr). unfold schedInv, drainedBelow in *; simpl.
    match goal with Hp : pc s = _ |- _ => rewrite Hp in Hdr end. auto.
  - (* acquire *)
    unfold setWorker.
    match goal with Hi : workers s !! _ = Some _ |- _ =>
      exact (schedInv_setWorker s _ _ _ WAcquired _ _ _ Hinv Hi eq_refl) end.
  - (* run *)
    unfold setWorker.
    match goal with
    | Hc : workerCode _ _ _ _ _ = Some _, Hr : _ = (Ret _, _) |- _ =>
        destruct (workerCode_next _ _ _ _ _ _ _ Hc Hr) as (Hw & Hw' & _)
    end.
    match goal with Hi : workers s !! _ = Some _ |- _ =>
      pose proof (schedInv_setWorker s _ _ _ w' st' (sem s) false Hinv Hi Hw) as Hn end.
    rewrite Hw' in Hn. exact Hn.
  - (* panic *)
    destruct Hinv as (Hitems & Hwg & Hdr). unfold schedInv, drainedBelow in *; simpl. auto.
  - (* release *)
    unfold setWorker.
    match goal with Hi : workers s !! _ = Some _ |- _ =>
      exact (schedInv_setWorker s _ _ _ WReleased _ _ _ Hinv Hi eq_refl) end.
  - (* wg.Done *)
    unfold setWorker.
    match goal with Hi : workers s !! _ = Some _ |- _ =>
      exact (schedInv_setWorker s _ _ _ WDone _ _ _ Hinv Hi eq_refl) end.
Qed.

Lemma schedInv_steps s tr s' : schedInv a s -> steps pkgs a s tr s' -> schedInv a s'.
Proof.
  intros Hinv Hsteps.
  induction Hsteps as [s|s tr s' l s'' Hsteps IH Hstep]; [exact Hinv|].
  eapply schedInv_step; [apply IH; exact Hinv | exact Hstep].
Qed.

(** *** A wave of items in flight together *)

Lemma dispatch_wave pre : forall s rest,
  crashed s = false -> pc s = PcLoop -> pending s = pre ++ rest ->
  abortSignal (shared s) = false -> Forall (fun d => isBarrier d = false) pre ->
  exists tr,
    steps pkgs a s tr
          (mkSched (shared s) PcLoop rest
                   (workers s ++ ((fun d => (d, WSpawned)) <$> pre))
                   (wg s + length pre) (sem s) false).
Proof.
  induction pre as [|d pre IH]; intros s rest Hc Hpc Hpend Hab Hnb.
  - exists []. simpl in *. rewrite app_nil_r, Nat.add_0_r.
    destruct s; simpl in *; subst. constructor.
  - inversion Hnb as [|? ? Hd Hnb']; subst.
    pose proof (step_dispatch pkgs a s d (pre ++ rest) Hc Hpc Hpend Hab) as Hstep.
    rewrite Hd in Hstep.
    destruct (IH (mkSched (shared s) PcLoop (pre ++ rest)
                          (workers s ++ [(d, WSpawned)]) (S (wg s)) (sem s) false)
                 rest eq_refl eq_refl eq_refl Hab Hnb') as [tr Htr].
    simpl in Htr. exists (LDispatch (length (workers s)) :: tr).
    eapply steps_cons; [exact Hstep|].
    rewrite <- app_assoc in Htr. simpl in Htr.
    replace (wg s + length (d :: pre))%nat with (S (wg s) + length pre)%nat
      by (simpl; lia).
    exact Htr.
Qed.

Lemma barrier_in_flight_with_wave s wave b post i di :
  crashed s = false -> pc s = PcLoop -> pending s = wave ++ b :: post ->
  abortSignal (shared s) = false ->
  Forall (fun d => isBarrier d = false) wave -> isBarrier b = true ->
  wave !! i = Some di -> (sem s + 2 <= semaphoreWeight)%nat ->
  exists tr s',
    steps pkgs a s tr s'
    /\ pc s' = PcBarrier
    /\ workers s' !! (length (workers s) + i)%nat = Some (di, WAcquired)
    /\ workers s' !! (length (workers s) + length wave)%nat = Some (b, WAcquired).
Proof.
  intros Hc Hpc Hpend Hab Hnb Hb Hi Hsem.
  assert (Hlt : (i < length wave)%nat) by (eapply lookup_lt_Some; eauto).
  destruct (dispatch_wave wave s (b :: post) Hc Hpc Hpend Hab Hnb) as [tr1 H1].
  set (ws1 := workers s ++ ((fun d => (d, WSpawned)) <$> wave)) in *.
  assert (Hlen1 : length ws1 = (length (workers s) + length wave)%nat).
  { unfold ws1. rewrite length_app, length_fmap. reflexivity. }
  set (s1 := mkSched (shared s) PcLoop (b :: post) ws1
                     (wg s + length wave) (sem s) false) in *.
  pose proof (step_dispatch pkgs a s1 b post eq_refl eq_refl eq_refl Hab) as H2.
  rewrite Hb in H2. simpl in H2.
  set (ws := ws1 ++ [(b, WSpawned)]) in *.
  set (st2 := with_output (LogInfof MsgWaitingOnBarrier) (shared s)) in *.
  set (s2 := mkSched st2 PcBarrier post ws (S (wg s + length wave)) (sem s) false) in *.
  assert (Hwi : workers s2 !! (length (workers s) + i)%nat = Some (di, WSpawned)).
  { simpl. unfold ws. rewrite lookup_app_l by lia. unfold ws1.
    rewrite lookup_app_r by lia.
    replace (length (workers s) + i - length (workers s))%nat with i by lia.
    rewrite list_lookup_fmap, Hi. reflexivity. }
  assert (Hsem2 : (sem s2 < semaphoreWeight)%nat) by (simpl; lia).
  pose proof (step_acquire pkgs a s2 _ di eq_refl Hwi Hsem2) as H3.
  simpl in H3. unfold setWorker in H3. simpl in H3.
  set (s3 := mkSched st2 PcBarrier post
                     (<[(length (workers s) + i)%nat := (di, WAcquired)]> ws)
                     (S (wg s + length wave)) (S (sem s)) false) in *.
  assert (Hwb : workers s3 !! (length (workers s) + length wave)%nat
                = Some (b, WSpawned)).
  { simpl. rewrite list_lookup_insert_ne by lia. unfold ws.
    rewrite lookup_app_r by lia. rewrite Hlen1, Nat.sub_diag. reflexivity. }
  assert (Hsem3 : (sem s3 < semaphoreWeight)%nat) by (simpl; lia).
  pose proof (step_acquire pkgs a s3 _ b eq_refl Hwb Hsem3) as H4.
  simpl in H4. unfold setWorker in H4. simpl in H4.
  eexists _, _. split; [|split; [|split]].
  - eapply steps_snoc; [eapply steps_snoc; [eapply steps_snoc; [exact H1|exact H2]
                                           |exact H3]|exact H4].
  - reflexivity.
  - simpl. rewrite list_lookup_insert_ne by lia.
    apply list_lookup_insert_eq. unfold ws. rewrite length_app, Hlen1. simpl. lia.
  - simpl. apply list_lookup_insert_eq. rewrite length_insert.
    unfold ws. rewrite length_app, Hlen1. simpl. lia.
Qed.
End SchedulerRuns.

(** ** The gateway calls a piece of code makes *)

#[local] Instance callsExtend_preorder P : PreOrder (callsExtend P).
Proof.
  split.
  - intros s. exists []. rewrite app_nil_r. auto.
  - intros s1 s2 s3 (l1 & H1 & F1) (l2 & H2 & F2). exists (l1 ++ l2).
    rewrite H2, H1, app_assoc. split; [reflexivity | apply Forall_app; auto].
Qed.

Lemma calls_frame P {A} (m : M A) :
  (forall s, calls (m s).2 = calls s) -> always (callsExtend P) m.
Proof. intros H s. exists []. rewrite H, app_nil_r. auto. Qed.

Lemma calls_one P {A} (m : M A) c :
  (forall s, calls (m s).2 = calls s ++ [c]) -> P c -> always (callsExtend P) m.
Proof. intros H Hc s. exists [c]. rewrite H. auto. Qed.

Section CallsOfTheLadder.
Variable pkgs : Packages.
Variable a : ApplyUtil.
Variable P : GatewayCall -> Prop.
Hypothesis P_patch : forall x force,
  P (CallPatch x {| PatchOptions.ForceDryRun := DryRun (o a);
                    PatchOptions.ForceApply := force |}).
Hypothesis P_update : forall x,
  P (CallUpdate x {| UpdateOptions.ForceDryRun := DryRun (o a) |}).
Hypothesis P_delete : forall ref,
  P (CallDelete ref {| DeleteOptions.ForceDryRun := DryRun (o a) |}).
Hypothesis P_get : forall ref, P (CallGet ref).
Hypothesis P_rediscover : P CallRediscover.

Ltac calls_prim := apply calls_frame; intros ?; reflexivity.

Lemma calls_emit e : always (callsExtend P) (emit e).
Proof. calls_prim. Qed.

Lemma calls_sleep d : always (callsExtend P) (time_Sleep d).
Proof. calls_prim. Qed.

Lemma calls_random n : always (callsExtend P) (utils_RandomString pkgs n).
Proof. calls_prim. Qed.

Lemma calls_dew f : always (callsExtend P) (modify (with_dew f)).
Proof. calls_prim. Qed.

Lemma calls_apiWarnings ref ws : always (callsExtend P) (handleApiWarnings ref ws).
Proof. calls_prim. Qed.

Lemma calls_latch b : always (callsExtend P) (modify (with_deployedNewCRD b)).
Proof. calls_prim. Qed.

Lemma calls_handleResult r hook : always (callsExtend P) (handleResult r hook).
Proof. unfold handleResult. always_auto; calls_prim. Qed.

Lemma calls_HandleError ref e : always (callsExtend P) (HandleError a ref e).
Proof.
  apply calls_frame. intros s. rewrite HandleError_state.
  destruct (AbortOnError (o a)); reflexivity.
Qed.

Lemma calls_patch x force :
  always (callsExtend P)
         (k_PatchObject a x {| PatchOptions.ForceDryRun := DryRun (o a);
                               PatchOptions.ForceApply := force |}).
Proof. eapply calls_one; [intros s; reflexivity | apply P_patch]. Qed.

Lemma calls_update x :
  always (callsExtend P)
         (k_UpdateObject a x {| UpdateOptions.ForceDryRun := DryRun (o a) |}).
Proof. eapply calls_one; [intros s; reflexivity | apply P_update]. Qed.

Lemma calls_delete ref :
  always (callsExtend P)
         (k_DeleteSingleObject a ref {| DeleteOptions.ForceDryRun := DryRun (o a) |}).
Proof. eapply calls_one; [intros s; reflexivity | apply P_delete]. Qed.

Lemma calls_get ref : always (callsExtend P) (k_GetSingleObject a ref).
Proof. eapply calls_one; [intros s; reflexivity | apply P_get]. Qed.

Lemma calls_rediscover : always (callsExtend P) (k_RediscoverResources a).
Proof. eapply calls_one; [intros s; reflexivity | apply P_rediscover]. Qed.

Hint Resolve calls_emit calls_sleep calls_random calls_dew calls_apiWarnings calls_latch
  calls_handleResult calls_HandleError calls_patch calls_update calls_delete calls_get
  calls_rediscover : always.

Lemma calls_DeleteObject ref hook : always (callsExtend P) (DeleteObject a ref hook).
Proof. unfold DeleteObject. always_auto; calls_prim. Qed.
Hint Resolve calls_DeleteObject : always.

Lemma calls_retryApplyForceReplace x hook e :
  always (callsExtend P) (retryApplyForceReplace a x hook e).
Proof. unfold retryApplyForceReplace. always_auto. Qed.
Hint Resolve calls_retryApplyForceReplace : always.

Lemma calls_retryApplyWithReplace x hook remote e :
  always (callsExtend P) (retryApplyWithReplace a x hook remote e).
Proof. unfold retryApplyWithReplace. always_auto. Qed.

Lemma calls_retryApplyWithConflicts x hook remote e :
  always (callsExtend P) (retryApplyWithConflicts pkgs a x hook remote e).
Proof. unfold retryApplyWithConflicts. always_auto. Qed.
Hint Resolve calls_retryApplyWithReplace calls_retryApplyWithConflicts : always.

Lemma calls_classifyPatchResult ref x hook remote r err :
  always (callsExtend P) (classifyPatchResult pkgs a ref x hook remote r err).
Proof. unfold classifyPatchResult. always_auto. Qed.

Lemma calls_ApplyObject x replaced hook :
  always (callsExtend P) (ApplyObject pkgs a x replaced hook).
Proof.
  unfold ApplyObject, firstPatch, classifyPatchResult, dummyName, handleNewCRDs.
  always_auto.
Qed.
Hint Resolve calls_ApplyObject : always.

Lemma calls_waitLoop fuel ref timeout startTime lastLogTime didLog :
  always (callsExtend P) (waitLoop pkgs a fuel ref timeout startTime lastLogTime didLog).
Proof.
  revert startTime lastLogTime didLog.
  induction fuel as [|fuel IH]; intros; simpl; [apply always_outOfFuel; typeclasses eauto|].
  unfold waitLog, time_Now. always_auto.
Qed.
Hint Resolve calls_waitLoop : always.

Lemma calls_WaitReadiness fuel ref timeout :
  always (callsExtend P) (WaitReadiness pkgs a fuel ref timeout).
Proof. unfold WaitReadiness, time_Now. always_auto. Qed.
Hint Resolve calls_WaitReadiness : always.

Lemma calls_RunHooks hooks : always (callsExtend P) (RunHooks pkgs a hooks).
Proof. unfold RunHooks, runHook, HadError. always_auto. Qed.
Hint Resolve calls_RunHooks : always.

Lemma calls_deleteLoop refs : always (callsExtend P) (deleteLoop a refs).
Proof. unfold deleteLoop. always_auto. Qed.
Hint Resolve calls_deleteLoop : always.

Lemma calls_itemPrelude d : always (callsExtend P) (itemPrelude pkgs a d).
Proof. unfold itemPrelude, time_Now. always_auto. Qed.

Lemma calls_applyOne fuel d n startTime didLog i obj :
  always (callsExtend P) (applyOne pkgs a fuel d n startTime didLog i obj).
Proof. unfold applyOne, time_Now. always_auto. Qed.

Lemma calls_itemEpilogue postHooks :
  always (callsExtend P) (itemEpilogue pkgs a postHooks).
Proof. unfold itemEpilogue. always_auto. Qed.
Hint Resolve calls_itemPrelude calls_applyOne calls_itemEpilogue : always.

Lemma calls_applyObjectsLoop fuel d n l startTime didLog :
  always (callsExtend P) (applyObjectsLoop pkgs a fuel d n l startTime didLog).
Proof.
  revert startTime didLog.
  induction l as [|[i obj] l IH]; intros; simpl; always_auto.
Qed.
Hint Resolve calls_applyObjectsLoop : always.

Lemma calls_applyDeploymentItem fuel d :
  always (callsExtend P) (applyDeploymentItem pkgs a fuel d).
Proof. unfold applyDeploymentItem. always_auto. Qed.
End CallsOfTheLadder.

(** ** The rediscovery latch *)

Section Latch.
Variable pkgs : Packages.
Variable a : ApplyUtil.

Lemma crdApplied_app cs l n : crdApplied (k a) cs n -> crdApplied (k a) (cs ++ l) n.
Proof.
  intros (x & opts & r & ws & Hn & Hp & Hc). exists x, opts, r, ws.
  split; [|auto]. apply lookup_app_l_Some. exact Hn.
Qed.

#[local] Instance latchHeld_preorder : PreOrder (latchHeld a).
Proof.
  split.
  - intros s. split; [exists []; rewrite app_nil_r; auto | congruence].
  - intros s1 s2 s3 ((l1 & H1) & L1) ((l2 & H2) & L2). split.
    + exists (l1 ++ l2). rewrite H2, H1, app_assoc. reflexivity.
    + intros Hf Ht. destruct (deployedNewCRD s2) eqn:H.
      * destruct (L1 Hf eq_refl) as (n & Hn & Hcrd). exists n. split; [exact Hn|].
        rewrite H2. apply crdApplied_app. exact Hcrd.
      * destruct (L2 eq_refl Ht) as (n & Hn & Hcrd). exists n. split; [|exact Hcrd].
        rewrite H1, length_app in Hn. lia.
Qed.

(** Code that leaves the latch alone. *)
Lemma latch_frame {A} (m : M A) :
  (forall s, deployedNewCRD (m s).2 = deployedNewCRD s
             /\ exists l, calls (m s).2 = calls s ++ l) ->
  always (latchHeld a) m.
Proof.
  intros H s. destruct (H s) as [Hl Hc]. split; [exact Hc | congruence].
Qed.

Ltac latch_prim :=
  apply latch_frame; intros ?; split;
  [reflexivity | first [ exists []; cbn; rewrite app_nil_r; reflexivity
                       | eexists; reflexivity ] ].

Lemma latch_emit e : always (latchHeld a) (emit e).
Proof. latch_prim. Qed.

Lemma latch_sleep d : always (latchHeld a) (time_Sleep d).
Proof. latch_prim. Qed.

Lemma latch_random n : always (latchHeld a) (utils_RandomString pkgs n).
Proof. latch_prim. Qed.

Lemma latch_dew f : always (latchHeld a) (modify (with_dew f)).
Proof. latch_prim. Qed.

Lemma latch_apiWarnings ref ws : always (latchHeld a) (handleApiWarnings ref ws).
Proof. latch_prim. Qed.

Lemma latch_deleted f : always (latchHeld a) (modify (with_deletedObjects f)).
Proof. latch_prim. Qed.

Lemma latch_deletedHooks f : always (latchHeld a) (modify (with_deletedHookObjects f)).
Proof. latch_prim. Qed.

Lemma latch_handleResult r hook : always (latchHeld a) (handleResult r hook).
Proof. unfold handleResult. always_auto; latch_prim. Qed.

Lemma latch_HandleError ref e : always (latchHeld a) (HandleError a ref e).
Proof.
  apply latch_frame. intros s. rewrite HandleError_state.
  destruct (AbortOnError (o a)); (split; [reflexivity|]);
    exists []; cbn; rewrite app_nil_r; reflexivity.
Qed.

Lemma latch_patch x opts : always (latchHeld a) (k_PatchObject a x opts).
Proof. latch_prim. Qed.

Lemma latch_update x opts : always (latchHeld a) (k_UpdateObject a x opts).
Proof. latch_prim. Qed.

Lemma latch_delete ref opts : always (latchHeld a) (k_DeleteSingleObject a ref opts).
Proof. latch_prim. Qed.

Lemma latch_get ref : always (latchHeld a) (k_GetSingleObject a ref).
Proof. latch_prim. Qed.

Hint Resolve latch_emit latch_sleep latch_random latch_dew latch_apiWarnings
  latch_deleted latch_deletedHooks latch_handleResult latch_HandleError latch_patch
  latch_update latch_delete latch_get : always.

(** The first patch: the only place where the latch changes. *)
Lemma latch_firstPatch x opts : always (latchHeld a) (firstPatch a x opts).
Proof.
  intros s. unfold firstPatch, bind, k_PatchObject.
  destruct (PatchObject (k a) (length (calls s)) x opts) as [[r ws] err] eqn:Hp.
  destruct err as [e|]; simpl.
  - destruct (IsNoMatchError e); simpl.
    + unfold bind, gets; simpl. destruct (deployedNewCRD s) eqn:Hl; simpl.
      * destruct (RediscoverResources (k a) (length (calls s ++ [CallPatch x opts])));
          simpl; (split; [simpl; eexists; rewrite <- ?app_assoc; reflexivity
                         | simpl; congruence]).
      * split; [simpl; eexists; reflexivity | simpl; congruence].
    + split; [simpl; eexists; reflexivity | simpl; congruence].
  - destruct r as [x'|]; simpl.
    + unfold bind, ret; simpl. destruct (isCRD (GetK8sRef x')) eqn:Hcrd; simpl.
      * split; [simpl; eexists; rewrite <- ?app_assoc; reflexivity|].
        intros _ _. exists (length (calls s)). split; [lia|].
        exists x, opts, x', ws. split; [|split; [exact Hp | exact Hcrd]].
        simpl. rewrite <- app_assoc. rewrite lookup_app_r by lia.
        rewrite Nat.sub_diag. reflexivity.
      * split; [simpl; eexists; reflexivity | simpl; congruence].
    + split; [simpl; eexists; reflexivity | simpl; congruence].
Qed.
Hint Resolve latch_firstPatch : always.

Lemma latch_DeleteObject ref hook : always (latchHeld a) (DeleteObject a ref hook).
Proof. unfold DeleteObject. always_auto. Qed.
Hint Resolve latch_DeleteObject : always.

Lemma latch_ApplyObject x replaced hook :
  always (latchHeld a) (ApplyObject pkgs a x replaced hook).
Proof.
  unfold ApplyObject, classifyPatchResult, dummyName, retryApplyWithConflicts,
    retryApplyWithReplace, retryApplyForceReplace.
  always_auto.
Qed.
Hint Resolve latch_ApplyObject : always.

Lemma latch_waitLoop fuel ref timeout startTime lastLogTime didLog :
  always (latchHeld a) (waitLoop pkgs a fuel ref timeout startTime lastLogTime didLog).
Proof.
  revert startTime lastLogTime didLog.
  induction fuel as [|fuel IH]; intros; simpl; [apply always_outOfFuel; typeclasses eauto|].
  unfold waitLog, time_Now. always_auto.
Qed.
Hint Resolve latch_waitLoop : always.

Lemma latch_WaitReadiness fuel ref timeout :
  always (latchHeld a) (WaitReadiness pkgs a fuel ref timeout).
Proof. unfold WaitReadiness, time_Now. always_auto. Qed.
Hint Resolve latch_WaitReadiness : always.

Lemma latch_RunHooks hooks : always (latchHeld a) (RunHooks pkgs a hooks).
Proof. unfold RunHooks, runHook, HadError. always_auto. Qed.
Hint Resolve latch_RunHooks : always.

Lemma latch_applyObjectsLoop fuel d n l startTime didLog :
  always (latchHeld a) (applyObjectsLoop pkgs a fuel d n l startTime didLog).
Proof.
  revert startTime didLog.
  induction l as [|[i obj] l IH]; intros; simpl; unfold applyOne, time_Now; always_auto.
Qed.
Hint Resolve latch_applyObjectsLoop : always.

Lemma latch_applyDeploymentItem fuel d :
  always (latchHeld a) (applyDeploymentItem pkgs a fuel d).
Proof.
  unfold applyDeploymentItem, itemPrelude, itemEpilogue, deleteLoop, time_Now.
  always_auto.
Qed.

Lemma latch_ReplaceObject fuel ref firstVersion callback :
  always (latchHeld a) (ReplaceObject a fuel ref firstVersion callback).
Proof.
  unfold ReplaceObject. generalize true as firstCall.
  induction fuel as [|fuel IH]; intros; simpl; [apply always_outOfFuel; typeclasses eauto|].
  unfold fetchRemote. always_auto.
Qed.
End Latch.

(** ** Hook selection *)

Lemma selectHooks_upgrade pkgs d :
  selectHooks pkgs d false
  = ([], DetermineHooks pkgs d ["post-deploy-upgrade"; "post-deploy"]).
Proof. reflexivity. Qed.

Lemma selectHooks_initial pkgs d :
  selectHooks pkgs d true
  = (DetermineHooks pkgs d ["pre-deploy-initial"; "pre-deploy"],
     DetermineHooks pkgs d ["post-deploy-initial"; "post-deploy"]).
Proof. reflexivity. Qed.

(** C1: for an item that is not an initial deploy, applyDeploymentItem
    should select the hooks of the phases pre-deploy-upgrade and pre-deploy
    as its pre-hooks and run them before the apply objects.  The code
    assigns the result of that selection to [postHooks], which the next
    statement overwrites; [preHooks] stays nil.  On the upgrade of an item
    with one pre-deploy hook and one deployment, the hook is selected by
    [DetermineHooks] for the upgrade phases, yet the pre-hook list is empty
    for every item, and the only gateway call of the item is the patch of
    the deployment: the hook is never applied. *)
Theorem C1_upgrade_pre_hooks_are_dropped :
  initialDeploy aUpgrade upgradeItem = false
  /\ DetermineHooks scriptedPackages upgradeItem ["pre-deploy-upgrade"; "pre-deploy"]
     = [mkHook migrateJob ["pre-deploy"] 0 []]
  /\ (forall pkgs d, (selectHooks pkgs d false).1 = [])
  /\ calls (applyDeploymentItem scriptedPackages aUpgrade 0 upgradeItem freshState).2
     = [CallPatch d1 {| PatchOptions.ForceDryRun := false;
                        PatchOptions.ForceApply := false |}].
Proof.
  split; [reflexivity|]. split; [reflexivity|]. split; [reflexivity|].
  vm_compute. reflexivity.
Qed.

(** ** The replace path *)

(** Whatever the remote resource version, the replace path hands [x]
    itself to [UpdateObject]. *)
Lemma retryApplyWithReplace_updates_x a x hook remote e s :
  ReplaceOnError (o a) = true ->
  exists rest,
    calls (retryApplyWithReplace a x hook (Some remote) e s).2
    = calls s ++ CallUpdate x {| UpdateOptions.ForceDryRun := DryRun (o a) |} :: rest.
Proof.
  intros Hopt. unfold retryApplyWithReplace. rewrite Hopt. simpl negb. cbv iota.
  unfold bind at 1. simpl.
  unfold bind at 1. unfold k_UpdateObject at 1.
  set (s1 := with_call (k a) _ _).
  destruct (UpdateObject (k a) _ x _) as [[r ws] err].
  match goal with
  | |- context [ calls (?m s1).2 ] =>
      assert (Hm : always (callsExtend (fun _ => True)) m)
  end.
  { pose proof (calls_retryApplyForceReplace a (fun _ => True)
                  (fun _ _ => I) (fun _ => I)) as Hf.
    pose proof (calls_handleResult (fun _ => True)) as Hr.
    pose proof (calls_apiWarnings (fun _ => True)) as Hw.
    always_auto. }
  destruct (Hm s1) as (rest & Hrest & _). exists rest.
  rewrite Hrest. unfold s1. simpl. rewrite <- app_assoc. reflexivity.
Qed.

(** C2: in the replace path the object handed to the gateway's Update
    should be the clone of x stamped with the remote resourceVersion.  The
    code builds that clone ([x2]) and then calls [UpdateObject(x, o)]: with
    ReplaceOnError set, the remote deployment at resourceVersion 42 and a
    first patch that fails in transport, the update carries the desired
    object as it is, without a resourceVersion, which is not the stamped
    clone. *)
Theorem C2_update_receives_the_unstamped_object :
  calls (ApplyObject scriptedPackages aReplace d1 false false freshState).2
  = [CallPatch d1 {| PatchOptions.ForceDryRun := false; PatchOptions.ForceApply := false |};
     CallUpdate d1 {| UpdateOptions.ForceDryRun := false |}]
  /\ GetK8sResourceVersion d1 = ""
  /\ GetK8sResourceVersion d1Remote = "42"
  /\ d1 <> SetK8sResourceVersion (Clone d1) (GetK8sResourceVersion d1Remote).
Proof.
  split; [vm_compute; reflexivity|]. split; [reflexivity|]. split; [reflexivity|].
  discriminate.
Qed.

(** ** Dry runs *)

Lemma dryRun_ApplyObject pkgs a x replaced hook :
  always (callsExtend (dryRunFlagged a)) (ApplyObject pkgs a x replaced hook).
Proof. apply calls_ApplyObject; intros; exact eq_refl || exact I. Qed.

Lemma dryRun_DeleteObject a ref hook :
  always (callsExtend (dryRunFlagged a)) (DeleteObject a ref hook).
Proof. apply calls_DeleteObject; intros; exact eq_refl || exact I. Qed.

Lemma dryRun_applyDeploymentItem pkgs a fuel d :
  always (callsExtend (dryRunFlagged a)) (applyDeploymentItem pkgs a fuel d).
Proof. apply calls_applyDeploymentItem; intros; exact eq_refl || exact I. Qed.

Lemma WaitReadiness_dry_run pkgs a fuel ref timeout s :
  DryRun (o a) = true -> WaitReadiness pkgs a fuel ref timeout s = (Ret true, s).
Proof. intros H. unfold WaitReadiness. rewrite H. reflexivity. Qed.

(** C3: with DryRun every mutating gateway call should carry
    ForceDryRun=true, those of ReplaceObject included.  The calls of
    ApplyObject, DeleteObject and applyDeploymentItem do carry the run's
    flag, and WaitReadiness returns true at once; but ReplaceObject builds
    its update options empty: in a dry run, replacing the replicas of the
    remote deployment sends an update with ForceDryRun=false. *)
Theorem C3_ReplaceObject_updates_for_real_in_a_dry_run :
  DryRun (o aDryRun) = true
  /\ calls (ReplaceObject aDryRun 1 (GetK8sRef d1) (Some d1Remote) scaleUp freshState).2
     = [CallUpdate (mkObj gvkDeployment "default" "d1" "42" [] [("spec.replicas", "3")])
                   {| UpdateOptions.ForceDryRun := false |}]
  /\ (forall fuel ref timeout s,
        WaitReadiness scriptedPackages aDryRun fuel ref timeout s = (Ret true, s))
  /\ (forall pkgs x replaced hook,
        always (callsExtend (dryRunFlagged aDryRun)) (ApplyObject pkgs aDryRun x replaced hook))
  /\ (forall ref hook,
        always (callsExtend (dryRunFlagged aDryRun)) (DeleteObject aDryRun ref hook))
  /\ (forall pkgs fuel d,
        always (callsExtend (dryRunFlagged aDryRun))
               (applyDeploymentItem pkgs aDryRun fuel d)).
Proof.
  split; [reflexivity|]. split; [vm_compute; reflexivity|].
  split; [intros; apply WaitReadiness_dry_run; reflexivity|].
  split; [intros; apply dryRun_ApplyObject|].
  split; [intros; apply dryRun_DeleteObject | intros; apply dryRun_applyDeploymentItem].
Qed.

(** ** Nil results *)

Lemma handleResult_nil hook s : handleResult None hook s = (Panic, s).
Proof. reflexivity. Qed.

(** With no first version and an object that the gateway does not find,
    the replace loop dereferences nil. *)
Lemma ReplaceObject_not_found_panics a fuel ref callback s obj ws e :
  GetSingleObject (k a) (length (calls s)) ref = (obj, ws, Some e) ->
  IsNotFound e = true -> obj = None ->
  (ReplaceObject a (S fuel) ref None callback s).1 = Panic.
Proof.
  intros Hget Hnf ->. unfold ReplaceObject. simpl.
  unfold bind at 1. unfold fetchRemote, bind at 1, k_GetSingleObject.
  rewrite Hget. simpl. rewrite Hnf. reflexivity.
Qed.

(** C10: handleResult should never be invoked with a nil object, in
    particular not by ReplaceObject when firstVersion is nil and the
    gateway reports NotFound.  The code tests [remote == nil] and then
    calls [handleResult(remote, false)]: the call dereferences nil and
    the goroutine panics after its one read of the gateway. *)
Theorem C10_ReplaceObject_passes_nil_to_handleResult :
  GetSingleObject (k aPlain) 0 (GetK8sRef d1) = (None, [], Some notFoundError)
  /\ (ReplaceObject aPlain 1 (GetK8sRef d1) None scaleUp freshState).1 = Panic
  /\ calls (ReplaceObject aPlain 1 (GetK8sRef d1) None scaleUp freshState).2
     = [CallGet (GetK8sRef d1)]
  /\ (forall hook s, handleResult None hook s = (Panic, s)).
Proof.
  split; [reflexivity|]. split; [vm_compute; reflexivity|].
  split; [vm_compute; reflexivity | intros; reflexivity].
Qed.

(** ** Laws of the monad *)

Lemma bind_Ret {A B} (m : M A) (f : A -> M B) s x s1 :
  m s = (Ret x, s1) -> bind m f s = f x s1.
Proof. intros H. unfold bind. rewrite H. reflexivity. Qed.

Lemma bind_assoc {A B C} (m : M A) (f : A -> M B) (g : B -> M C) s :
  bind (bind m f) g s = bind m (fun x => bind (f x) g) s.
Proof. unfold bind. destruct (m s) as [[x| |] s1]; reflexivity. Qed.

Lemma bind_ext_at {A B} (m : M A) (f g : A -> M B) s :
  (forall x s1, f x s1 = g x s1) -> bind m f s = bind m g s.
Proof. intros H. unfold bind. destruct (m s) as [[x| |] s1]; auto. Qed.

Lemma bind_ret_r {A} (m : M A) s : bind m ret s = m s.
Proof. unfold bind. destruct (m s) as [[x| |] s1]; reflexivity. Qed.

(** ** The worker of the scheduler runs [applyDeploymentItem] *)

Section WorkerRunsTheItem.
Variable pkgs : Packages.
Variable a : ApplyUtil.

Lemma runWorker_S gas fuel d w :
  runWorker pkgs a (S gas) fuel d w
  = match workerCode pkgs a fuel d w with
    | None => ret w
    | Some m => let* w' := m in runWorker pkgs a gas fuel d w'
    end.
Proof. reflexivity. Qed.

Lemma runWorker_returned gas fuel d s :
  runWorker pkgs a gas fuel d WReturned s = (Ret WReturned, s).
Proof. destruct gas; reflexivity. Qed.

Lemma runWorker_epilogue gas fuel d postHooks s :
  runWorker pkgs a (S gas) fuel d (WEpilogue postHooks) s
  = (itemEpilogue pkgs a postHooks ;; ret WReturned) s.
Proof.
  rewrite runWorker_S. cbn [workerCode]. rewrite bind_assoc.
  apply bind_ext_at. intros [] s1.
  rewrite (bind_Ret (ret WReturned) _ _ _ _ eq_refl). apply runWorker_returned.
Qed.

Lemma runWorker_loop fuel d n postHooks l : forall gas startTime didLog s,
  (2 * length l + 2 <= gas)%nat ->
  runWorker pkgs a gas fuel d (WLoop n l startTime didLog postHooks) s
  = (applyObjectsLoop pkgs a fuel d n l startTime didLog ;;
     itemEpilogue pkgs a postHooks ;; ret WReturned) s.
Proof.
  induction l as [|[i obj] l IH]; intros gas startTime didLog s Hgas.
  - destruct gas as [|[|gas]]; simpl in Hgas; try lia.
    rewrite runWorker_S. cbn [workerCode].
    rewrite (bind_Ret (ret (WEpilogue postHooks)) _ _ _ _ eq_refl).
    rewrite runWorker_epilogue. reflexivity.
  - destruct gas as [|[|gas]]; simpl in Hgas; try lia.
    rewrite runWorker_S. cbn [workerCode applyObjectsLoop].
    rewrite !bind_assoc. apply bind_ext_at. intros abort s1. destruct abort.
    + rewrite (bind_Ret (ret (WEpilogue postHooks)) _ _ _ _ eq_refl).
      rewrite runWorker_epilogue. reflexivity.
    + rewrite (bind_Ret (ret (WApplying n i obj l startTime didLog postHooks))
                        _ _ _ _ eq_refl).
      rewrite runWorker_S. cbn [workerCode]. rewrite !bind_assoc.
      apply bind_ext_at. intros [startTime' didLog'] s2.
      rewrite (bind_Ret (ret (WLoop n l startTime' didLog' postHooks)) _ _ _ _ eq_refl).
      apply IH. lia.
Qed.

(** The plan that the first part of an item returns lists the apply objects
    of the item. *)
Lemma itemPrelude_plan d s :
  match (itemPrelude pkgs a d s).1 with
  | Ret (Some p) => length (planObjects p) = length (applyObjectsOf pkgs d)
  | _ => True
  end.
Proof.
  unfold itemPrelude. destruct (selectHooks pkgs d (initialDeploy a d)) as [pre post].
  unfold bind at 1. simpl. destruct (negb _); [exact I|].
  repeat (unfold bind at 1;
          match goal with
          | |- context [ match ?m ?st with _ => _ end ] =>
              destruct (m st) as [[?| |] ?]; simpl; try exact I
          end).
  unfold indexed. rewrite length_imap. reflexivity.
Qed.

(** The pieces that a worker runs, one after the other, are
    [applyDeploymentItem]. *)
Lemma runWorker_applyDeploymentItem gas fuel d s :
  (2 * length (applyObjectsOf pkgs d) + 3 <= gas)%nat ->
  runWorker pkgs a gas fuel d WAcquired s
  = (applyDeploymentItem pkgs a fuel d ;; ret WReturned) s.
Proof.
  intros Hgas. destruct gas as [|gas]; [lia|].
  rewrite runWorker_S. cbn [workerCode]. unfold applyDeploymentItem.
  rewrite !bind_assoc.
  pose proof (itemPrelude_plan d s) as Hplan.
  unfold bind at 1 3. destruct (itemPrelude pkgs a d s) as [[[p|]| |] s1]; try reflexivity.
  - simpl in Hplan.
    rewrite (bind_Ret (ret (WLoop _ _ _ _ _)) _ _ _ _ eq_refl).
    rewrite runWorker_loop by lia. rewrite !bind_assoc. reflexivity.
  - rewrite (bind_Ret (ret WReturned) _ _ _ _ eq_refl).
    rewrite (bind_Ret (ret tt) _ _ _ _ eq_refl). apply runWorker_returned.
Qed.
End WorkerRunsTheItem.

(** ** Deletions of an item *)

Lemma DeleteObject_call a ref hook s :
  exists b,
    (DeleteObject a ref hook s).1 = Ret b
    /\ calls (DeleteObject a ref hook s).2
       = calls s ++ [CallDelete ref {| DeleteOptions.ForceDryRun := DryRun (o a) |}].
Proof.
  unfold DeleteObject, bind, k_DeleteSingleObject.
  destruct (DeleteSingleObject (k a) _ ref _) as [ws [e|]]; simpl.
  - exists false. destruct (IsNotFound e); simpl; [split; reflexivity|].
    unfold bind. rewrite HandleError_state.
    destruct (AbortOnError (o a)); split; reflexivity.
  - exists true. destruct hook; split; reflexivity.
Qed.

Lemma deleteLoop_calls a n (l : list (nat * ObjectRef)) : forall s,
  let m := forM_ l (fun ir =>
                      emit (PctxSetStatus (MsgDeletingObject ir.2 (ir.1 + 1) n)) ;;
                      DeleteObject a ir.2 false ;;
                      emit PctxIncrement) in
  (m s).1 = Ret tt
  /\ calls (m s).2
     = calls s ++ map (fun ir => CallDelete ir.2
                          {| DeleteOptions.ForceDryRun := DryRun (o a) |}) l.
Proof.
  induction l as [|ir l IH]; intros s; simpl.
  - split; [reflexivity | rewrite app_nil_r; reflexivity].
  - set (s1 := with_output (PctxSetStatus (MsgDeletingObject ir.2 (ir.1 + 1) n)) s).
    destruct (DeleteObject_call a ir.2 false s1) as (b & Hb & Hc).
    destruct (DeleteObject a ir.2 false s1) as [ob s2] eqn:Hd. simpl in Hb, Hc. subst ob.
    rewrite bind_assoc. erewrite (bind_Ret (emit _)) by reflexivity. fold s1.
    rewrite bind_assoc. erewrite (bind_Ret (DeleteObject _ _ _)) by exact Hd.
    erewrite (bind_Ret (emit _)) by reflexivity.
    destruct (IH (with_output PctxIncrement s2)) as [IH1 IH2].
    split; [exact IH1|]. rewrite IH2. simpl calls. rewrite Hc, <- app_assoc.
    reflexivity.
Qed.

Lemma imap_snd {A B} (f : A -> B) (l : list A) : forall g : nat -> A -> nat * A,
  (forall i x, (g i x).2 = x) -> map (fun ir => f ir.2) (imap g l) = map f l.
Proof.
  induction l as [|x l IH]; intros g Hg; simpl; [reflexivity|].
  rewrite Hg. f_equal. apply IH. intros i y. apply Hg.
Qed.

Lemma indexed_snd {A B} (f : A -> B) (l : list A) :
  map (fun ir => f ir.2) (indexed l) = map f l.
Proof. apply imap_snd. reflexivity. Qed.

(** C6, read literally: an item that is not included would have
    performed its declared deletions before being marked Skipped.  The
    item below is not included and declares the deletion of one
    deployment, which GetGVKs expands to one reference; running it
    makes no gateway call at all and records no deletion. *)
Lemma C6_skipped_item_deletes_nothing :
  toDeleteRefs aPlain skippedItem = [oldDeploymentRef]
  /\ calls (applyDeploymentItem scriptedPackages aPlain 0 skippedItem freshState).2 = []
  /\ deletedObjects (applyDeploymentItem scriptedPackages aPlain 0 skippedItem freshState).2
     = ∅
  /\ output (applyDeploymentItem scriptedPackages aPlain 0 skippedItem freshState).2
     = [PctxSetTotal 1; PctxInfofAndStatus MsgSkipped; PctxFinish].
Proof. repeat split; vm_compute; reflexivity. Qed.

(** C6 (amended): the references to delete are computed first, but
    CheckInclusionForDeploy is consulted before any of them is deleted.
    An item that is not included returns after setting the total and being
    marked Skipped, with no gateway call and no deletion recorded.  An
    included item begins its gateway calls with one DeleteSingleObject per
    expanded reference, in order, each with the dry-run flag of the run;
    the calls of the pre-hooks, of the objects and of the post-hooks come
    after them. *)
Theorem C6_deletions_follow_the_inclusion_check pkgs a fuel d s :
  (DeploymentItem.CheckInclusionForDeploy d = false ->
     (applyDeploymentItem pkgs a fuel d s).1 = Ret tt
     /\ calls (applyDeploymentItem pkgs a fuel d s).2 = calls s
     /\ deletedObjects (applyDeploymentItem pkgs a fuel d s).2 = deletedObjects s
     /\ exists total,
          output (applyDeploymentItem pkgs a fuel d s).2
          = output s ++ [PctxSetTotal total; PctxInfofAndStatus MsgSkipped; PctxFinish])
  /\ (DeploymentItem.CheckInclusionForDeploy d = true ->
      exists rest,
        calls (applyDeploymentItem pkgs a fuel d s).2
        = calls s
          ++ map (fun ref => CallDelete ref
                     {| DeleteOptions.ForceDryRun := DryRun (o a) |})
                 (toDeleteRefs a d)
          ++ rest).
Proof.
  split; intros Hincl; unfold applyDeploymentItem, itemPrelude;
    destruct (selectHooks pkgs d (initialDeploy a d)) as [preHooks postHooks];
    rewrite Hincl; simpl negb; cbv iota.
  - repeat split; try reflexivity. eexists. simpl. rewrite <- !app_assoc. reflexivity.
  - rewrite !bind_assoc. unfold emit at 1.
    erewrite bind_Ret by reflexivity. rewrite bind_assoc.
    set (s1 := with_output _ s).
    set (refs := toDeleteRefs a d).
    pose proof (deleteLoop_calls a (length refs) (indexed refs)
                  (with_output (PctxInfof (MsgDeletingN (length refs))) s1)) as [Hr Hc].
    cbv zeta in Hr, Hc.
    rewrite (indexed_snd (fun ref => CallDelete ref
               {| DeleteOptions.ForceDryRun := DryRun (o a) |})) in Hc.
    match goal with
    | |- context [ bind (when ?b ?m) ?K s1 ] =>
        assert (Hfirst : exists s2, when b m s1 = (Ret tt, s2)
                  /\ calls s2 = calls s ++ map (fun ref => CallDelete ref
                          {| DeleteOptions.ForceDryRun := DryRun (o a) |}) refs);
        [| assert (Hrest : always (callsExtend (fun _ => True)) (K tt)) ]
    end.
    + destruct refs as [|ref refs'] eqn:Hrefs.
      * exists s1. split; [reflexivity|]. simpl. rewrite app_nil_r. reflexivity.
      * rewrite <- Hrefs in *. replace (negb (length refs =? 0)%nat) with true
          by (rewrite Hrefs; reflexivity).
        simpl when. rewrite (bind_Ret (emit _) _ _ tt _ eq_refl). unfold deleteLoop.
        match type of Hr with (?t).1 = _ => destruct t as [ob s2] eqn:Hd end.
        simpl in Hr, Hc. subst ob. exists s2. split; [reflexivity | exact Hc].
    + pose proof (calls_RunHooks pkgs a (fun _ => True)
                    (fun _ _ => I) (fun _ => I) (fun _ => I)) as H1.
      pose proof (calls_emit (fun _ => True)) as H2.
      pose proof (calls_applyObjectsLoop pkgs a (fun _ => True)
                    (fun _ _ => I) (fun _ => I) (fun _ => I) (fun _ => I) I) as H3.
      pose proof (calls_itemEpilogue pkgs a (fun _ => True)
                    (fun _ _ => I) (fun _ => I) (fun _ => I)) as H4.
      unfold time_Now. always_auto.
    + destruct Hfirst as (s2 & Hs2 & Hcalls).
      erewrite bind_Ret by exact Hs2.
      destruct (Hrest s2) as (rest & Hrest' & _). exists rest.
      rewrite Hrest', Hcalls. rewrite <- app_assoc. reflexivity.
Qed.

Lemma C6_deletions_follow_the_inclusion_check_witness :
  calls (applyDeploymentItem scriptedPackages aPlain 0 skippedItem freshState).2
  = calls freshState
  /\ exists rest,
       calls (applyDeploymentItem scriptedPackages aPlain 0 includedItem freshState).2
       = calls freshState
         ++ map (fun ref => CallDelete ref
                    {| DeleteOptions.ForceDryRun := DryRun (o aPlain) |})
                (toDeleteRefs aPlain includedItem)
         ++ rest.
Proof.
  split.
  - apply (C6_deletions_follow_the_inclusion_check
             scriptedPackages aPlain 0 skippedItem freshState).
    reflexivity.
  - apply (C6_deletions_follow_the_inclusion_check
             scriptedPackages aPlain 0 includedItem freshState).
    reflexivity.
Defined.

(** ** The first patch and the latch *)

Section FirstPatch.
Variable pkgs : Packages.
Variable a : ApplyUtil.

#[local] Instance sameLatch_preorder : PreOrder sameLatch.
Proof.
  split; [intros s; reflexivity|].
  intros s1 s2 s3 H1 H2. unfold sameLatch in *. congruence.
Qed.

Ltac same_latch :=
  repeat first
    [ always_step
    | solve [ intros ?; reflexivity ]
    | solve [ intros ?; rewrite HandleError_state;
              destruct (AbortOnError _); reflexivity ] ].

Lemma sameLatch_classifyPatchResult ref x hook remote r err :
  always sameLatch (classifyPatchResult pkgs a ref x hook remote r err).
Proof.
  unfold classifyPatchResult, retryApplyWithConflicts, retryApplyWithReplace,
    retryApplyForceReplace, DeleteObject, handleResult, handleApiWarnings.
  same_latch.
Qed.

Lemma firstPatch_noMatch_armed x opts s r ws e :
  PatchObject (k a) (length (calls s)) x opts = (r, ws, Some e) ->
  IsNoMatchError e = true -> deployedNewCRD s = true ->
  firstPatch a x opts s
  = let s1 := with_call (k a) CallRediscover
                (with_deployedNewCRD false (with_call (k a) (CallPatch x opts) s)) in
    match RediscoverResources (k a) (S (length (calls s))) with
    | None => (Ret (PatchObject (k a) (S (S (length (calls s)))) x opts),
               with_call (k a) (CallPatch x opts) s1)
    | Some e' => (Ret (r, ws, Some e'), s1)
    end.
Proof.
  intros Hp Hnm Hl. unfold firstPatch, bind, k_PatchObject. rewrite Hp. simpl.
  rewrite Hnm. unfold bind, gets. simpl. rewrite Hl. simpl.
  rewrite !length_app. simpl. rewrite !Nat.add_1_r.
  destruct (RediscoverResources (k a) (S (length (calls s)))); simpl;
    rewrite ?length_app; simpl; rewrite ?Nat.add_1_r; reflexivity.
Qed.

Lemma firstPatch_noMatch_disarmed x opts s r ws e :
  PatchObject (k a) (length (calls s)) x opts = (r, ws, Some e) ->
  IsNoMatchError e = true -> deployedNewCRD s = false ->
  firstPatch a x opts s = (Ret (r, ws, Some e), with_call (k a) (CallPatch x opts) s).
Proof.
  intros Hp Hnm Hl. unfold firstPatch, bind, k_PatchObject. rewrite Hp. simpl.
  rewrite Hnm. unfold bind, gets. simpl. rewrite Hl. reflexivity.
Qed.

Lemma firstPatch_other_error x opts s r ws e :
  PatchObject (k a) (length (calls s)) x opts = (r, ws, Some e) ->
  IsNoMatchError e = false ->
  firstPatch a x opts s = (Ret (r, ws, Some e), with_call (k a) (CallPatch x opts) s).
Proof.
  intros Hp Hnm. unfold firstPatch, bind, k_PatchObject. rewrite Hp. simpl.
  rewrite Hnm. reflexivity.
Qed.

Lemma firstPatch_plain x opts s r ws :
  PatchObject (k a) (length (calls s)) x opts = (Some r, ws, None) ->
  isCRD (GetK8sRef r) = false ->
  firstPatch a x opts s = (Ret (Some r, ws, None), with_call (k a) (CallPatch x opts) s).
Proof.
  intros Hp Hcrd. unfold firstPatch, bind, k_PatchObject. rewrite Hp.
  unfold handleNewCRDs, deref, bind, ret. rewrite Hcrd. reflexivity.
Qed.

Lemma firstPatch_crd x opts s r ws :
  PatchObject (k a) (length (calls s)) x opts = (Some r, ws, None) ->
  isCRD (GetK8sRef r) = true ->
  firstPatch a x opts s
  = (Ret (PatchObject (k a) (S (length (calls s))) x opts),
     with_call (k a) (CallPatch x opts)
       (with_deployedNewCRD true (with_call (k a) (CallPatch x opts) s))).
Proof.
  intros Hp Hcrd. unfold firstPatch, bind, k_PatchObject. rewrite Hp.
  unfold handleNewCRDs, deref, bind, ret, modify. rewrite Hcrd.
  cbn [calls with_call with_deployedNewCRD].
  rewrite length_app. simpl length. rewrite Nat.add_1_r. reflexivity.
Qed.

(** [ApplyObject] from its first patch on. *)
Lemma ApplyObject_unfold x replaced hook s :
  exists dn s0,
    calls s0 = calls s /\ deployedNewCRD s0 = deployedNewCRD s
    /\ dew s0 = dew s /\ abortSignal s0 = abortSignal s
    /\ AppliedObjects s0 = AppliedObjects s
    /\ ApplyObject pkgs a x replaced hook s
       = (let* (r, apiWarnings, err) :=
            firstPatch a (patchedObject pkgs a x replaced s)
                       {| PatchOptions.ForceDryRun := DryRun (o a);
                          PatchOptions.ForceApply := false |} in
          handleApiWarnings (GetK8sRef x) apiWarnings ;;
          classifyPatchResult pkgs a (GetK8sRef x) (patchedObject pkgs a x replaced s)
                              hook (GetRemoteObject (ru a) (GetK8sRef x))
                              (undoDummyName pkgs r dn) err) s0.
Proof.
  unfold ApplyObject, patchedObject, dummyName.
  destruct (GetRemoteObject (ru a) (GetK8sRef x)) as [remote|];
    [destruct (DryRun (o a) && replaced)|]; simpl;
    eexists _, _; repeat (split; [|try reflexivity]); reflexivity.
Qed.

(** What follows the first patch leaves the latch alone and does not
    rediscover. *)
Lemma after_firstPatch ref x hook remote r ws err :
  always sameLatch (handleApiWarnings ref ws ;;
                    classifyPatchResult pkgs a ref x hook remote r err)
  /\ always (callsExtend notRediscover)
            (handleApiWarnings ref ws ;;
             classifyPatchResult pkgs a ref x hook remote r err).
Proof.
  split.
  - pose proof (sameLatch_classifyPatchResult ref x hook remote r err).
    unfold handleApiWarnings. same_latch. assumption.
  - pose proof (calls_classifyPatchResult pkgs a notRediscover) as Hc.
    pose proof (calls_apiWarnings notRediscover ref ws) as Hw.
    apply always_bind; [typeclasses eauto | exact Hw | intros _].
    apply Hc; intros; discriminate.
Qed.

Lemma ApplyObject_noMatch_armed x replaced hook s r ws e :
  let xp := patchedObject pkgs a x replaced s in
  let opts := {| PatchOptions.ForceDryRun := DryRun (o a);
                 PatchOptions.ForceApply := false |} in
  PatchObject (k a) (length (calls s)) xp opts = (r, ws, Some e) ->
  IsNoMatchError e = true -> deployedNewCRD s = true ->
  deployedNewCRD (ApplyObject pkgs a x replaced hook s).2 = false
  /\ exists rest,
       Forall notRediscover rest
       /\ calls (ApplyObject pkgs a x replaced hook s).2
          = calls s ++ CallPatch xp opts :: CallRediscover
              :: match RediscoverResources (k a) (S (length (calls s))) with
                 | None => CallPatch xp opts :: rest
                 | Some _ => rest
                 end.
Proof.
  intros xp opts Hp Hnm Harmed.
  destruct (ApplyObject_unfold x replaced hook s) as (dn & s0 & Hc & Hl & _ & _ & _ & Heq).
  rewrite Heq. fold xp opts.
  pose proof (firstPatch_noMatch_armed xp opts s0 r ws e) as Hfp.
  rewrite Hc, Hl in Hfp. specialize (Hfp Hp Hnm Harmed). cbv zeta in Hfp.
  destruct (RediscoverResources (k a) (S (length (calls s)))) as [e'|].
  - rewrite (bind_Ret _ _ _ _ _ Hfp).
    destruct (after_firstPatch (GetK8sRef x) xp hook
                (GetRemoteObject (ru a) (GetK8sRef x)) (undoDummyName pkgs r dn) ws (Some e'))
      as [Hsame Hcalls].
    match goal with |- context [ (?m ?st).2 ] =>
      specialize (Hsame st); destruct (Hcalls st) as (rest & Hrest & Hnr) end.
    split; [rewrite Hsame; reflexivity|].
    exists rest. split; [exact Hnr|]. rewrite Hrest. simpl. rewrite Hc.
    rewrite <- !app_assoc. reflexivity.
  - rewrite (bind_Ret _ _ _ _ _ Hfp).
    destruct (PatchObject (k a) (S (S (length (calls s)))) xp opts) as [[r2 ws2] err2].
    destruct (after_firstPatch (GetK8sRef x) xp hook
                (GetRemoteObject (ru a) (GetK8sRef x)) (undoDummyName pkgs r2 dn) ws2 err2)
      as [Hsame Hcalls].
    match goal with |- context [ (?m ?st).2 ] =>
      specialize (Hsame st); destruct (Hcalls st) as (rest & Hrest & Hnr) end.
    split; [rewrite Hsame; reflexivity|].
    exists rest. split; [exact Hnr|]. rewrite Hrest. simpl. rewrite Hc.
    rewrite <- !app_assoc. reflexivity.
Qed.

Lemma ApplyObject_noMatch_disarmed x replaced hook s r ws e :
  let xp := patchedObject pkgs a x replaced s in
  let opts := {| PatchOptions.ForceDryRun := DryRun (o a);
                 PatchOptions.ForceApply := false |} in
  PatchObject (k a) (length (calls s)) xp opts = (r, ws, Some e) ->
  IsNoMatchError e = true -> deployedNewCRD s = false ->
  (ApplyObject pkgs a x replaced hook s).1 = Ret tt
  /\ calls (ApplyObject pkgs a x replaced hook s).2 = calls s ++ [CallPatch xp opts]
  /\ dewErrors (dew (ApplyObject pkgs a x replaced hook s).2)
     = dewErrors (dew s) ++ [(GetK8sRef x, e)]
  /\ deployedNewCRD (ApplyObject pkgs a x replaced hook s).2 = false.
Proof.
  intros xp opts Hp Hnm Hoff.
  destruct (ApplyObject_unfold x replaced hook s) as (dn & s0 & Hc & Hl & Hd & _ & _ & Heq).
  rewrite Heq. fold xp opts.
  pose proof (firstPatch_noMatch_disarmed xp opts s0 r ws e) as Hfp.
  rewrite Hc, Hl in Hfp. specialize (Hfp Hp Hnm Hoff).
  rewrite (bind_Ret _ _ _ _ _ Hfp).
  unfold handleApiWarnings, classifyPatchResult. rewrite Hnm.
  erewrite bind_Ret by reflexivity. rewrite HandleError_state.
  destruct (AbortOnError (o a)); simpl; rewrite Hc, Hd, Hl; auto.
Qed.
(** A first patch that a CustomResourceDefinition answers without error
    arms the latch, whatever it was, and is made once more. *)
Lemma ApplyObject_crd_arms x replaced hook s r ws :
  let xp := patchedObject pkgs a x replaced s in
  let opts := {| PatchOptions.ForceDryRun := DryRun (o a);
                 PatchOptions.ForceApply := false |} in
  PatchObject (k a) (length (calls s)) xp opts = (Some r, ws, None) ->
  isCRD (GetK8sRef r) = true ->
  deployedNewCRD (ApplyObject pkgs a x replaced hook s).2 = true
  /\ exists rest,
       Forall notRediscover rest
       /\ calls (ApplyObject pkgs a x replaced hook s).2
          = calls s ++ CallPatch xp opts :: CallPatch xp opts :: rest.
Proof.
  intros xp opts Hp Hcrd.
  destruct (ApplyObject_unfold x replaced hook s) as (dn & s0 & Hc & Hl & _ & _ & _ & Heq).
  rewrite Heq. fold xp opts.
  pose proof (firstPatch_crd xp opts s0 r ws) as Hfp.
  rewrite Hc in Hfp. specialize (Hfp Hp Hcrd).
  rewrite (bind_Ret _ _ _ _ _ Hfp).
  destruct (PatchObject (k a) (S (length (calls s))) xp opts) as [[r2 ws2] err2].
  destruct (after_firstPatch (GetK8sRef x) xp hook
              (GetRemoteObject (ru a) (GetK8sRef x)) (undoDummyName pkgs r2 dn) ws2 err2)
    as [Hsame Hcalls].
  match goal with |- context [ (?m ?st).2 ] =>
    specialize (Hsame st); destruct (Hcalls st) as (rest & Hrest & Hnr) end.
  split; [rewrite Hsame; reflexivity|].
  exists rest. split; [exact Hnr|]. rewrite Hrest. simpl. rewrite Hc.
  rewrite <- !app_assoc. reflexivity.
Qed.

(** Every other answer to the first patch, an error that is no NoMatch or
    a result that is no CustomResourceDefinition, leaves the latch as it
    was. *)
Lemma ApplyObject_latch_kept x replaced hook s r ws err :
  let xp := patchedObject pkgs a x replaced s in
  let opts := {| PatchOptions.ForceDryRun := DryRun (o a);
                 PatchOptions.ForceApply := false |} in
  PatchObject (k a) (length (calls s)) xp opts = (r, ws, err) ->
  match err with
  | Some e => IsNoMatchError e = false
  | None => forall r', r = Some r' -> isCRD (GetK8sRef r') = false
  end ->
  deployedNewCRD (ApplyObject pkgs a x replaced hook s).2 = deployedNewCRD s.
Proof.
  intros xp opts Hp Hkind.
  destruct (ApplyObject_unfold x replaced hook s) as (dn & s0 & Hc & Hl & _ & _ & _ & Heq).
  rewrite Heq. fold xp opts. rewrite <- Hc in Hp.
  assert (Hrest : forall answer,
            firstPatch a xp opts s0 = (Ret answer, with_call (k a) (CallPatch xp opts) s0) ->
            deployedNewCRD
              ((let* (r0, apiWarnings, err0) := firstPatch a xp opts in
                handleApiWarnings (GetK8sRef x) apiWarnings ;;
                classifyPatchResult pkgs a (GetK8sRef x) xp hook
                  (GetRemoteObject (ru a) (GetK8sRef x)) (undoDummyName pkgs r0 dn) err0)
                 s0).2
            = deployedNewCRD s).
  { intros [[r0 ws0] err0] Hfp. rewrite (bind_Ret _ _ _ _ _ Hfp).
    destruct (after_firstPatch (GetK8sRef x) xp hook
                (GetRemoteObject (ru a) (GetK8sRef x)) (undoDummyName pkgs r0 dn) ws0 err0)
      as [Hsame _].
    match goal with |- context [ (?m ?st).2 ] => specialize (Hsame st) end.
    rewrite Hsame. simpl. exact Hl. }
  destruct err as [e|].
  - apply (Hrest (r, ws, Some e)). eapply firstPatch_other_error; eassumption.
  - destruct r as [r'|].
    + apply (Hrest (Some r', ws, None)). eapply firstPatch_plain; [eassumption|].
      apply Hkind. reflexivity.
    + unfold bind at 1. unfold firstPatch, bind, k_PatchObject. rewrite Hp.
      simpl. exact Hl.
Qed.
End FirstPatch.

(** C4: the latch deployedNewCRD is true at construction.  When the first
    patch of ApplyObject fails with NoMatch and the latch is true, the latch
    is cleared and RediscoverResources is called once; if it succeeds the
    same patch is made once more and its result is the one that is
    classified, and if it fails its error takes the place of the patch
    error and no patch is retried.  Nothing that follows in ApplyObject
    rediscovers again, and the latch is false when ApplyObject ends.  A
    NoMatch while the latch is false makes the one patch call, records that
    error and rediscovers nothing.  Across ApplyObject, DeleteObject,
    WaitReadiness, applyDeploymentItem and ReplaceObject, a latch that was
    false is true afterwards only if, in between, a patch was answered
    without error by a CustomResourceDefinition.  And such a patch does set
    it: when the first patch of ApplyObject is answered without error by a
    CustomResourceDefinition, the latch is set to true and the same patch
    is made once more, and the latch is true when ApplyObject ends,
    whatever it was before.  Every other answer to the first patch (an
    error that is no NoMatch, a result that is no CustomResourceDefinition)
    leaves the latch as it was. *)
Theorem C4_rediscovery_latch pkgs a :
  (forall d t, deployedNewCRD (NewApplyUtil d t) = true)
  /\ (forall x opts s r ws e,
        PatchObject (k a) (length (calls s)) x opts = (r, ws, Some e) ->
        IsNoMatchError e = true -> deployedNewCRD s = true ->
        firstPatch a x opts s
        = let s1 := with_call (k a) CallRediscover
                      (with_deployedNewCRD false
                         (with_call (k a) (CallPatch x opts) s)) in
          match RediscoverResources (k a) (S (length (calls s))) with
          | None => (Ret (PatchObject (k a) (S (S (length (calls s)))) x opts),
                     with_call (k a) (CallPatch x opts) s1)
          | Some e' => (Ret (r, ws, Some e'), s1)
          end)
  /\ (forall x replaced hook s r ws e,
        let xp := patchedObject pkgs a x replaced s in
        let opts := {| PatchOptions.ForceDryRun := DryRun (o a);
                       PatchOptions.ForceApply := false |} in
        PatchObject (k a) (length (calls s)) xp opts = (r, ws, Some e) ->
        IsNoMatchError e = true -> deployedNewCRD s = true ->
        deployedNewCRD (ApplyObject pkgs a x replaced hook s).2 = false
        /\ exists rest,
             Forall notRediscover rest
             /\ calls (ApplyObject pkgs a x replaced hook s).2
                = calls s ++ CallPatch xp opts :: CallRediscover
                    :: match RediscoverResources (k a) (S (length (calls s))) with
                       | None => CallPatch xp opts :: rest
                       | Some _ => rest
                       end)
  /\ (forall x replaced hook s r ws e,
        let xp := patchedObject pkgs a x replaced s in
        let opts := {| PatchOptions.ForceDryRun := DryRun (o a);
                       PatchOptions.ForceApply := false |} in
        PatchObject (k a) (length (calls s)) xp opts = (r, ws, Some e) ->
        IsNoMatchError e = true -> deployedNewCRD s = false ->
        (ApplyObject pkgs a x replaced hook s).1 = Ret tt
        /\ calls (ApplyObject pkgs a x replaced hook s).2 = calls s ++ [CallPatch xp opts]
        /\ dewErrors (dew (ApplyObject pkgs a x replaced hook s).2)
           = dewErrors (dew s) ++ [(GetK8sRef x, e)]
        /\ deployedNewCRD (ApplyObject pkgs a x replaced hook s).2 = false)
  /\ (forall x replaced hook, always (latchHeld a) (ApplyObject pkgs a x replaced hook))
  /\ (forall ref hook, always (latchHeld a) (DeleteObject a ref hook))
  /\ (forall fuel ref timeout, always (latchHeld a) (WaitReadiness pkgs a fuel ref timeout))
  /\ (forall fuel d, always (latchHeld a) (applyDeploymentItem pkgs a fuel d))
  /\ (forall fuel ref firstVersion callback,
        always (latchHeld a) (ReplaceObject a fuel ref firstVersion callback))
  /\ (forall x opts s r ws,
        PatchObject (k a) (length (calls s)) x opts = (Some r, ws, None) ->
        isCRD (GetK8sRef r) = true ->
        firstPatch a x opts s
        = (Ret (PatchObject (k a) (S (length (calls s))) x opts),
           with_call (k a) (CallPatch x opts)
             (with_deployedNewCRD true (with_call (k a) (CallPatch x opts) s))))
  /\ (forall x replaced hook s r ws,
        let xp := patchedObject pkgs a x replaced s in
        let opts := {| PatchOptions.ForceDryRun := DryRun (o a);
                       PatchOptions.ForceApply := false |} in
        PatchObject (k a) (length (calls s)) xp opts = (Some r, ws, None) ->
        isCRD (GetK8sRef r) = true ->
        deployedNewCRD (ApplyObject pkgs a x replaced hook s).2 = true
        /\ exists rest,
             Forall notRediscover rest
             /\ calls (ApplyObject pkgs a x replaced hook s).2
                = calls s ++ CallPatch xp opts :: CallPatch xp opts :: rest)
  /\ (forall x replaced hook s r ws err,
        let xp := patchedObject pkgs a x replaced s in
        let opts := {| PatchOptions.ForceDryRun := DryRun (o a);
                       PatchOptions.ForceApply := false |} in
        PatchObject (k a) (length (calls s)) xp opts = (r, ws, err) ->
        match err with
        | Some e => IsNoMatchError e = false
        | None => forall r', r = Some r' -> isCRD (GetK8sRef r') = false
        end ->
        deployedNewCRD (ApplyObject pkgs a x replaced hook s).2 = deployedNewCRD s).
Proof.
  split; [reflexivity|].
  split; [intros; eapply firstPatch_noMatch_armed; eassumption|].
  split; [intros; eapply ApplyObject_noMatch_armed; eassumption|].
  split; [intros; eapply ApplyObject_noMatch_disarmed; eassumption|].
  split; [intros; apply latch_ApplyObject|].
  split; [intros; apply latch_DeleteObject|].
  split; [intros; apply latch_WaitReadiness|].
  split; [intros; apply latch_applyDeploymentItem|].
  split; [intros; apply latch_ReplaceObject|].
  split; [intros; eapply firstPatch_crd; eassumption|].
  split; [intros; eapply ApplyObject_crd_arms; eassumption|].
  intros; eapply ApplyObject_latch_kept; eassumption.
Qed.

Lemma C4_rediscovery_latch_witness :
  (firstPatch aRediscover d1 plainPatch freshState).1 = Ret (Some d1, [], None)
  /\ (firstPatch aRediscoverFails d1 plainPatch freshState).1
     = Ret (None, [], Some transportError)
  /\ deployedNewCRD (ApplyObject scriptedPackages aRediscover d1 false false freshState).2
     = false
  /\ dewErrors (dew (ApplyObject scriptedPackages aRediscover d1 false false
                       (with_deployedNewCRD false freshState)).2)
     = [(GetK8sRef d1, noMatchError)]
  /\ deployedNewCRD (ApplyObject scriptedPackages aPlain crd false false
                       (with_deployedNewCRD false freshState)).2
     = true
  /\ deployedNewCRD (ApplyObject scriptedPackages aPlain d1 false false
                       (with_deployedNewCRD false freshState)).2
     = false.
Proof.
  destruct (C4_rediscovery_latch scriptedPackages aRediscover)
    as (_ & Hfirst & Harmed & Hdisarmed & _).
  destruct (C4_rediscovery_latch scriptedPackages aRediscoverFails)
    as (_ & Hfails & _).
  destruct (C4_rediscovery_latch scriptedPackages aPlain)
    as (_ & _ & _ & _ & _ & _ & _ & _ & _ & _ & Hrearm & Hkept).
  split; [|split; [|split; [|split; [|split]]]].
  - rewrite (Hfirst d1 plainPatch freshState None [] noMatchError);
      reflexivity.
  - rewrite (Hfails d1 plainPatch freshState None [] noMatchError);
      reflexivity.
  - apply (Harmed d1 false false freshState None [] noMatchError); reflexivity.
  - apply (Hdisarmed d1 false false (with_deployedNewCRD false freshState)
             None [] noMatchError); reflexivity.
  - apply (Hrearm crd false false (with_deployedNewCRD false freshState) crd []);
      reflexivity.
  - apply (Hkept d1 false false (with_deployedNewCRD false freshState)
             (Some d1) [] None); [reflexivity|].
    intros r' [= <-]. reflexivity.
Defined.

(** ** The conflict path *)

Section ConflictPath.
Variable pkgs : Packages.
Variable a : ApplyUtil.

Lemma conflict_is_no_other_kind e :
  IsConflict e = true -> IsNoMatchError e = false /\ IsInternalError e = false.
Proof.
  unfold IsConflict, IsNoMatchError, IsInternalError.
  destruct (errKind e); simpl; intros H; try discriminate; split; reflexivity.
Qed.

Lemma internal_is_no_other_kind e :
  IsInternalError e = true -> IsNoMatchError e = false /\ IsConflict e = false.
Proof.
  unfold IsConflict, IsNoMatchError, IsInternalError.
  destruct (errKind e); simpl; intros H; try discriminate; split; reflexivity.
Qed.

Lemma lostOwnership_warnings ref (l : list LostOwnership) : forall s,
  forM_ l (fun lo => modify (with_dew (AddWarning ref (lostOwnershipWarning lo)))) s
  = (Ret tt, addWarnings (map (fun lo => (ref, lostOwnershipWarning lo)) l) s).
Proof.
  induction l as [|lo l IH]; intros s; simpl.
  - unfold ret, addWarnings, with_dew. destruct s as [[] ]; simpl.
    rewrite app_nil_r. reflexivity.
  - erewrite bind_Ret by reflexivity. rewrite IH.
    unfold addWarnings, with_dew, AddWarning.
    destruct s as [[] ]; simpl. rewrite <- app_assoc. reflexivity.
Qed.

Lemma conflict_without_remote ref x hook r e s :
  IsConflict e = true ->
  classifyPatchResult pkgs a ref x hook None r (Some e) s
  = HandleError a (GetK8sRef x) e s.
Proof.
  intros Hc. destruct (conflict_is_no_other_kind e Hc) as [Hnm _].
  unfold classifyPatchResult. rewrite Hnm, Hc. reflexivity.
Qed.

Lemma conflict_unresolved ref x hook remote r e e' s :
  IsConflict e = true -> conflictCandidate pkgs a x remote e = inl e' ->
  classifyPatchResult pkgs a ref x hook (Some remote) r (Some e) s
  = HandleError a (GetK8sRef x) e' s.
Proof.
  intros Hc Hcand. destruct (conflict_is_no_other_kind e Hc) as [Hnm _].
  unfold classifyPatchResult. rewrite Hnm, Hc.
  unfold retryApplyWithConflicts. rewrite Hcand. reflexivity.
Qed.

Lemma conflict_repatched ref x hook remote r e x2 lost s :
  IsConflict e = true -> conflictCandidate pkgs a x remote e = inr (x2, lost) ->
  let forced := {| PatchOptions.ForceDryRun := DryRun (o a);
                   PatchOptions.ForceApply := true |} in
  let s' := (classifyPatchResult pkgs a ref x hook (Some remote) r (Some e) s).2 in
  calls s' = calls s ++ [CallPatch x2 forced]
  /\ dewWarnings (dew s')
     = dewWarnings (dew s) ++ map (fun lo => (GetK8sRef x, lostOwnershipWarning lo)) lost
  /\ match PatchObject (k a) (length (calls s)) x2 forced with
     | (_, _, Some e2) =>
         dewErrors (dew s') = dewErrors (dew s) ++ [(GetK8sRef x, e2)]
         /\ AppliedObjects s' = AppliedObjects s
     | (Some r2, _, None) =>
         dewErrors (dew s') = dewErrors (dew s)
         /\ AppliedObjects s' = <[GetK8sRef r2 := r2]> (AppliedObjects s)
     | (None, _, None) => dewErrors (dew s') = dewErrors (dew s)
     end.
Proof.
  intros Hc Hcand forced s'. destruct (conflict_is_no_other_kind e Hc) as [Hnm _].
  subst s'. unfold classifyPatchResult. rewrite Hnm, Hc.
  unfold retryApplyWithConflicts. rewrite Hcand.
  rewrite (bind_Ret _ _ _ _ _ (lostOwnership_warnings _ _ _)).
  fold forced. rewrite (bind_Ret (k_PatchObject a x2 forced) _ _ _ _ eq_refl).
  change (length (calls (addWarnings _ s))) with (length (calls s)).
  unfold handleApiWarnings.
  destruct (PatchObject (k a) (length (calls s)) x2 forced) as [[r2 ws2] [e2|]].
  - rewrite (bind_Ret (modify _) _ _ _ _ eq_refl).
    rewrite HandleError_state. destruct (AbortOnError (o a)), r2; simpl; auto.
  - rewrite (bind_Ret (modify _) _ _ _ _ eq_refl).
    destruct r2 as [r2|]; simpl; [|auto]. destruct hook; simpl; auto.
Qed.

Lemma conflict_never_replaces ref x hook remote r e :
  IsConflict e = true ->
  always (callsExtend isPatchCall)
         (classifyPatchResult pkgs a ref x hook remote r (Some e)).
Proof.
  intros Hc. destruct (conflict_is_no_other_kind e Hc) as [Hnm _].
  unfold classifyPatchResult. rewrite Hnm, Hc.
  apply calls_retryApplyWithConflicts. intros; exact I.
Qed.

Lemma internal_error_is_recorded ref x hook remote r e s :
  IsInternalError e = true ->
  classifyPatchResult pkgs a ref x hook remote r (Some e) s = HandleError a ref e s.
Proof.
  intros Hi. destruct (internal_is_no_other_kind e Hi) as [Hnm Hc].
  unfold classifyPatchResult. rewrite Hnm, Hc, Hi. reflexivity.
Qed.

Lemma ApplyObject_conflict_or_internal x replaced hook s r ws e :
  let xp := patchedObject pkgs a x replaced s in
  let opts := {| PatchOptions.ForceDryRun := DryRun (o a);
                 PatchOptions.ForceApply := false |} in
  PatchObject (k a) (length (calls s)) xp opts = (r, ws, Some e) ->
  IsConflict e = true \/ IsInternalError e = true ->
  exists rest,
    calls (ApplyObject pkgs a x replaced hook s).2 = calls s ++ CallPatch xp opts :: rest
    /\ Forall isPatchCall rest.
Proof.
  intros xp opts Hp Hkind.
  assert (Hnm : IsNoMatchError e = false).
  { destruct Hkind as [H|H];
      [apply (conflict_is_no_other_kind e H) | apply (internal_is_no_other_kind e H)]. }
  destruct (ApplyObject_unfold pkgs a x replaced hook s)
    as (dn & s0 & Hc & _ & _ & _ & _ & Heq).
  rewrite Heq. fold xp opts.
  pose proof (firstPatch_other_error a xp opts s0 r ws e) as Hfp.
  rewrite Hc in Hfp. specialize (Hfp Hp Hnm).
  rewrite (bind_Ret _ _ _ _ _ Hfp).
  match goal with |- context [ (?m ?st).2 ] =>
    assert (Hm : always (callsExtend isPatchCall) m) end.
  { apply always_bind; [typeclasses eauto | apply calls_apiWarnings | intros _].
    destruct Hkind as [H|H]; [apply conflict_never_replaces; exact H|].
    intros st. rewrite (internal_error_is_recorded _ _ _ _ _ _ _ H).
    apply calls_HandleError. }
  match goal with |- context [ (?m ?st).2 ] =>
    destruct (Hm st) as (rest & Hrest & Hall) end.
  exists rest. split; [|exact Hall]. rewrite Hrest. simpl. rewrite Hc.
  rewrite <- app_assoc. reflexivity.
Qed.
End ConflictPath.



(** ** The readiness waiter *)

Section Waiting.
Variable pkgs : Packages.
Variable a : ApplyUtil.

Lemma WaitReadiness_starts fuel ref timeout s :
  DryRun (o a) = false ->
  WaitReadiness pkgs a fuel ref timeout s
  = waitLoop pkgs a fuel ref
             (if timeout =? 0 then WaitObjectTimeout (o a) else timeout)
             (now s) (now s) false
             (with_output (PctxDebugf (MsgWaitingFor ref)) s).
Proof. intros H. unfold WaitReadiness. rewrite H. reflexivity. Qed.

(** One iteration, after the read of the gateway. *)
Lemma waitLoop_S fuel ref timeout startTime lastLogTime didLog s :
  waitLoop pkgs a (S fuel) ref timeout startTime lastLogTime didLog s
  = let elapsed := wholeSeconds (now s - startTime) in
    let '(o, apiWarnings, err) := GetSingleObject (k a) (length (calls s)) ref in
    let s1 := with_dew (AddApiWarnings ref apiWarnings)
                       (with_call (k a) (CallGet ref) s) in
    match err with
    | Some e =>
        if IsNotFound e then
          (when didLog (emit (PctxWarningf (MsgDisappeared ref elapsed))) ;;
           HandleError a ref (disappearedError pkgs ref) ;;
           ret false) s1
        else (HandleError a ref e ;; ret false) s1
    | None =>
        let v := ValidateObject pkgs o in
        if Ready v then
          (when didLog (emit (PctxInfof (MsgFinishedWaiting ref elapsed))) ;;
           ret true) s1
        else if negb (Nat.eqb (length (Errors v)) 0) then
          (when didLog (emit (PctxWarningf (MsgCancelledErrors ref elapsed))) ;;
           forM_ (Errors v) (fun e => HandleError a ref (fmt_Errorf e)) ;;
           ret false) s1
        else if (0 <? timeout) && (timeout <=? now s1 - startTime) then
          (emit (PctxWarningf (MsgTimedOut ref elapsed)) ;;
           HandleError a ref (timedOutError pkgs ref) ;;
           ret false) s1
        else
          (emit (PctxSetStatus (MsgWaiting ref elapsed)) ;;
           let* (didLog, lastLogTime) := waitLog ref elapsed lastLogTime didLog in
           time_Sleep (500 * Millisecond) ;;
           waitLoop pkgs a fuel ref timeout startTime lastLogTime didLog) s1
    end.
Proof.
  simpl. unfold bind at 1. unfold time_Now at 1, gets.
  unfold bind at 1. unfold k_GetSingleObject at 1.
  destruct (GetSingleObject (k a) (length (calls s)) ref) as [[o ws] err].
  unfold bind at 1. unfold handleApiWarnings at 1, modify.
  destruct err as [e|]; [destruct (IsNotFound e); reflexivity|].
  destruct (Ready (ValidateObject pkgs o)); [reflexivity|].
  destruct (negb _); [reflexivity|].
  unfold bind at 1. unfold time_Now at 1, gets.
  destruct ((0 <? timeout) && _); reflexivity.
Qed.

Lemma record_errors ref (l : list string) : forall s,
  (forM_ l (fun e => HandleError a ref (fmt_Errorf e)) s).1 = Ret tt
  /\ dewErrors (dew (forM_ l (fun e => HandleError a ref (fmt_Errorf e)) s).2)
     = dewErrors (dew s) ++ map (fun e => (ref, fmt_Errorf e)) l.
Proof.
  induction l as [|e l IH]; intros s; simpl.
  - split; [reflexivity | rewrite app_nil_r; reflexivity].
  - rewrite (bind_Ret _ _ _ _ _ (HandleError_state a ref (fmt_Errorf e) s)).
    destruct (IH (with_dew (AddError ref (fmt_Errorf e))
                    (if AbortOnError (o a) then with_abortSignal true s else s)))
      as [IH1 IH2].
    split; [exact IH1|]. rewrite IH2.
    destruct (AbortOnError (o a)); simpl; rewrite <- app_assoc; reflexivity.
Qed.

Lemma when_emit_frame (b : bool) e {A} (m : M A) s :
  exists s1, (when b (emit e) ;; m) s = m s1
             /\ dew s1 = dew s /\ calls s1 = calls s /\ now s1 = now s
             /\ abortSignal s1 = abortSignal s.
Proof. destruct b; eexists; (split; [reflexivity|]); auto. Qed.

Lemma wait_not_found fuel ref timeout startTime lastLogTime didLog s obj ws e :
  GetSingleObject (k a) (length (calls s)) ref = (obj, ws, Some e) ->
  IsNotFound e = true ->
  let r := waitLoop pkgs a (S fuel) ref timeout startTime lastLogTime didLog s in
  r.1 = Ret false
  /\ dewErrors (dew r.2) = dewErrors (dew s) ++ [(ref, disappearedError pkgs ref)].
Proof.
  intros Hget Hnf r. subst r. rewrite waitLoop_S, Hget. cbv zeta. rewrite Hnf.
  match goal with |- context [ (when ?b (emit ?e) ;; ?m) ?st ] =>
    destruct (when_emit_frame b e m st) as (s1 & -> & Hd & _) end.
  rewrite (bind_Ret _ _ _ _ _ (HandleError_state a _ _ s1)).
  destruct (AbortOnError (o a)); simpl; rewrite Hd; auto.
Qed.

Lemma wait_get_error fuel ref timeout startTime lastLogTime didLog s obj ws e :
  GetSingleObject (k a) (length (calls s)) ref = (obj, ws, Some e) ->
  IsNotFound e = false ->
  let r := waitLoop pkgs a (S fuel) ref timeout startTime lastLogTime didLog s in
  r.1 = Ret false /\ dewErrors (dew r.2) = dewErrors (dew s) ++ [(ref, e)].
Proof.
  intros Hget Hnf r. subst r. rewrite waitLoop_S, Hget. cbv zeta. rewrite Hnf.
  rewrite (bind_Ret _ _ _ _ _ (HandleError_state a _ _ _)).
  destruct (AbortOnError (o a)); simpl; auto.
Qed.

Lemma wait_ready fuel ref timeout startTime lastLogTime didLog s obj ws :
  GetSingleObject (k a) (length (calls s)) ref = (obj, ws, None) ->
  Ready (ValidateObject pkgs obj) = true ->
  let r := waitLoop pkgs a (S fuel) ref timeout startTime lastLogTime didLog s in
  r.1 = Ret true /\ dewErrors (dew r.2) = dewErrors (dew s).
Proof.
  intros Hget Hr r. subst r. rewrite waitLoop_S, Hget. cbv zeta. rewrite Hr.
  destruct didLog; simpl; auto.
Qed.

Lemma wait_validation_errors fuel ref timeout startTime lastLogTime didLog s obj ws :
  GetSingleObject (k a) (length (calls s)) ref = (obj, ws, None) ->
  Ready (ValidateObject pkgs obj) = false ->
  Errors (ValidateObject pkgs obj) <> [] ->
  let r := waitLoop pkgs a (S fuel) ref timeout startTime lastLogTime didLog s in
  r.1 = Ret false
  /\ dewErrors (dew r.2)
     = dewErrors (dew s)
       ++ map (fun e => (ref, fmt_Errorf e)) (Errors (ValidateObject pkgs obj)).
Proof.
  intros Hget Hr He r. subst r. rewrite waitLoop_S, Hget. cbv zeta. rewrite Hr.
  destruct (Errors (ValidateObject pkgs obj)) as [|e0 l] eqn:Herrs; [congruence|].
  simpl negb. cbv iota.
  match goal with |- context [ (when ?b (emit ?e) ;; ?m) ?st ] =>
    destruct (when_emit_frame b e m st) as (s1 & -> & Hd & _) end.
  destruct (record_errors ref (e0 :: l) s1) as [H1 H2].
  destruct (forM_ (e0 :: l) _ s1) as [ob s2] eqn:Hf. simpl in H1, H2. subst ob.
  rewrite (bind_Ret _ _ _ _ _ Hf). simpl. rewrite H2, Hd. auto.
Qed.

Lemma wait_timed_out fuel ref timeout startTime lastLogTime didLog s obj ws :
  GetSingleObject (k a) (length (calls s)) ref = (obj, ws, None) ->
  Ready (ValidateObject pkgs obj) = false ->
  Errors (ValidateObject pkgs obj) = [] ->
  0 < timeout ->
  timeout <= now s + callDuration (k a) (length (calls s)) - startTime ->
  let r := waitLoop pkgs a (S fuel) ref timeout startTime lastLogTime didLog s in
  r.1 = Ret false
  /\ dewErrors (dew r.2) = dewErrors (dew s) ++ [(ref, timedOutError pkgs ref)].
Proof.
  intros Hget Hr He Hpos Hle r. subst r. rewrite waitLoop_S, Hget. cbv zeta.
  rewrite Hr, He. simpl negb. cbv iota.
  replace (0 <? timeout) with true by (symmetry; apply Z.ltb_lt; exact Hpos).
  replace (timeout <=? _) with true by (symmetry; apply Z.leb_le; simpl; exact Hle).
  simpl andb. cbv iota.
  rewrite (bind_Ret (emit _) _ _ _ _ eq_refl).
  rewrite (bind_Ret _ _ _ _ _ (HandleError_state a _ _ _)).
  destruct (AbortOnError (o a)); simpl; auto.
Qed.

(** A poll that finds the object pending before the timeout returns
    nothing: the loop goes on, half a second later, with the next read. *)
Lemma wait_pending fuel ref timeout startTime lastLogTime didLog s obj ws :
  GetSingleObject (k a) (length (calls s)) ref = (obj, ws, None) ->
  Ready (ValidateObject pkgs obj) = false ->
  Errors (ValidateObject pkgs obj) = [] ->
  (0 <? timeout)
  && (timeout <=? now s + callDuration (k a) (length (calls s)) - startTime) = false ->
  exists lastLogTime' didLog' s',
    waitLoop pkgs a (S fuel) ref timeout startTime lastLogTime didLog s
    = waitLoop pkgs a fuel ref timeout startTime lastLogTime' didLog' s'
    /\ calls s' = calls s ++ [CallGet ref]
    /\ dewErrors (dew s') = dewErrors (dew s)
    /\ now s' = now s + callDuration (k a) (length (calls s)) + 500 * Millisecond.
Proof.
  intros Hget Hr He Hcond. rewrite waitLoop_S, Hget. cbv zeta. rewrite Hr, He.
  simpl negb. cbv iota. simpl now. rewrite Hcond.
  rewrite (bind_Ret (emit _) _ _ _ _ eq_refl). unfold waitLog.
  destruct didLog; simpl negb; cbv iota.
  - rewrite bind_assoc. rewrite (bind_Ret time_Now _ _ _ _ eq_refl).
    destruct (10 * Second <=? _);
      eexists _, _, _; (split; [reflexivity|]); repeat split; auto.
  - eexists _, _, _; (split; [reflexivity|]); repeat split; auto.
Qed.

(** An iteration returns, or the loop goes on half a second later with the
    timeout not reached. *)
Lemma wait_progress fuel ref timeout startTime lastLogTime didLog s :
  (exists b, (waitLoop pkgs a (S fuel) ref timeout startTime lastLogTime didLog s).1
             = Ret b)
  \/ (exists lastLogTime' didLog' s',
        waitLoop pkgs a (S fuel) ref timeout startTime lastLogTime didLog s
        = waitLoop pkgs a fuel ref timeout startTime lastLogTime' didLog' s'
        /\ now s' = now s + callDuration (k a) (length (calls s)) + 500 * Millisecond
        /\ (0 <? timeout)
           && (timeout <=? now s + callDuration (k a) (length (calls s)) - startTime)
           = false).
Proof.
  destruct (GetSingleObject (k a) (length (calls s)) ref) as [[obj ws] [e|]] eqn:Hget.
  - left. destruct (IsNotFound e) eqn:Hnf.
    + exists false. eapply wait_not_found; eassumption.
    + exists false. eapply wait_get_error; eassumption.
  - destruct (Ready (ValidateObject pkgs obj)) eqn:Hr.
    { left. exists true. eapply wait_ready; eassumption. }
    destruct (Errors (ValidateObject pkgs obj)) as [|e0 l] eqn:He.
    2:{ left. exists false. eapply wait_validation_errors; try eassumption.
        rewrite He. discriminate. }
    rewrite waitLoop_S, Hget. cbv zeta. rewrite Hr, He. simpl negb. cbv iota.
    simpl now.
    destruct ((0 <? timeout)
              && (timeout <=? now s + callDuration (k a) (length (calls s)) - startTime))
      eqn:Hcond.
    + left. exists false.
      rewrite (bind_Ret (emit _) _ _ _ _ eq_refl).
      rewrite (bind_Ret _ _ _ _ _ (HandleError_state a _ _ _)). reflexivity.
    + right. rewrite (bind_Ret (emit _) _ _ _ _ eq_refl). unfold waitLog.
      destruct didLog; simpl negb; cbv iota.
      * rewrite bind_assoc. rewrite (bind_Ret time_Now _ _ _ _ eq_refl).
        destruct (10 * Second <=? _);
          eexists _, _, _; (split; [reflexivity|]); split; auto.
      * eexists _, _, _; (split; [reflexivity|]); split; auto.
Qed.

Lemma wait_terminates ref timeout startTime :
  0 < timeout -> (forall n, 0 <= callDuration (k a) n) ->
  forall fuel s lastLogTime didLog,
    timeout <= now s - startTime + Z.of_nat fuel * (500 * Millisecond) ->
    exists b, (waitLoop pkgs a (S fuel) ref timeout startTime lastLogTime didLog s).1
              = Ret b.
Proof.
  intros Hpos Hdur. induction fuel as [|fuel IH]; intros s lastLogTime didLog Hle.
  - destruct (wait_progress 0 ref timeout startTime lastLogTime didLog s)
      as [Hret|(l' & d' & s' & Heq & Hnow & Hcond)]; [exact Hret|].
    exfalso. apply andb_false_iff in Hcond as [H|H].
    + apply Z.ltb_ge in H. lia.
    + apply Z.leb_gt in H. specialize (Hdur (length (calls s))). lia.
  - destruct (wait_progress (S fuel) ref timeout startTime lastLogTime didLog s)
      as [Hret|(l' & d' & s' & Heq & Hnow & Hcond)]; [exact Hret|].
    rewrite Heq. apply IH. rewrite Hnow. specialize (Hdur (length (calls s))).
    rewrite Nat2Z.inj_succ in Hle. unfold Millisecond in *. lia.
Qed.

Lemma WaitReadiness_terminates ref timeout fuel s :
  DryRun (o a) = false ->
  let effective := if timeout =? 0 then WaitObjectTimeout (o a) else timeout in
  0 < effective -> (forall n, 0 <= callDuration (k a) n) ->
  effective <= Z.of_nat fuel * (500 * Millisecond) ->
  exists b, (WaitReadiness pkgs a (S fuel) ref timeout s).1 = Ret b.
Proof.
  intros Hdry effective Hpos Hdur Hle. rewrite WaitReadiness_starts by exact Hdry.
  apply wait_terminates; auto. simpl now. fold effective. lia.
Qed.
(** An object that stays pending ends the wait with the timeout error. *)
Lemma wait_pending_times_out ref timeout startTime :
  0 < timeout -> (forall n, 0 <= callDuration (k a) n) -> alwaysPending pkgs a ref ->
  forall fuel s lastLogTime didLog,
    timeout <= now s - startTime + Z.of_nat fuel * (500 * Millisecond) ->
    let r := waitLoop pkgs a (S fuel) ref timeout startTime lastLogTime didLog s in
    r.1 = Ret false
    /\ dewErrors (dew r.2) = dewErrors (dew s) ++ [(ref, timedOutError pkgs ref)].
Proof.
  intros Hpos Hdur Hpend.
  induction fuel as [|fuel IH]; intros s lastLogTime didLog Hle; cbv zeta;
    destruct (Hpend (length (calls s))) as (obj & ws & Hget & Hr & He);
    destruct ((0 <? timeout)
              && (timeout <=? now s + callDuration (k a) (length (calls s)) - startTime))
      eqn:Hcond.
  - apply andb_true_iff in Hcond as [H1 H2].
    apply Z.ltb_lt in H1. apply Z.leb_le in H2.
    exact (wait_timed_out 0 ref timeout startTime lastLogTime didLog s obj ws
             Hget Hr He H1 H2).
  - exfalso. apply andb_false_iff in Hcond as [H|H].
    + apply Z.ltb_ge in H. lia.
    + apply Z.leb_gt in H. specialize (Hdur (length (calls s))). lia.
  - apply andb_true_iff in Hcond as [H1 H2].
    apply Z.ltb_lt in H1. apply Z.leb_le in H2.
    exact (wait_timed_out (S fuel) ref timeout startTime lastLogTime didLog s obj ws
             Hget Hr He H1 H2).
  - destruct (wait_pending (S fuel) ref timeout startTime lastLogTime didLog s obj ws
                Hget Hr He Hcond) as (l' & d' & s' & Heq & _ & Hd & Hnow).
    rewrite Heq. destruct (IH s' l' d') as [H1 H2].
    { rewrite Hnow. specialize (Hdur (length (calls s))).
      rewrite Nat2Z.inj_succ in Hle. unfold Millisecond in *. lia. }
    split; [exact H1 | rewrite H2, Hd; reflexivity].
Qed.

Lemma WaitReadiness_pending_times_out ref timeout fuel s :
  DryRun (o a) = false ->
  let effective := if timeout =? 0 then WaitObjectTimeout (o a) else timeout in
  0 < effective -> (forall n, 0 <= callDuration (k a) n) ->
  alwaysPending pkgs a ref ->
  effective <= Z.of_nat fuel * (500 * Millisecond) ->
  let r := WaitReadiness pkgs a (S fuel) ref timeout s in
  r.1 = Ret false
  /\ dewErrors (dew r.2) = dewErrors (dew s) ++ [(ref, timedOutError pkgs ref)].
Proof.
  intros Hdry effective Hpos Hdur Hpend Hle. cbv zeta.
  rewrite WaitReadiness_starts by exact Hdry. fold effective.
  destruct (wait_pending_times_out ref effective (now s) Hpos Hdur Hpend fuel
              (with_output (PctxDebugf (MsgWaitingFor ref)) s) (now s) false) as [H1 H2].
  { simpl now. lia. }
  split; [exact H1 | rewrite H2; reflexivity].
Qed.
End Waiting.

(** C7: WaitReadiness in a dry run returns true with the state untouched.
    Otherwise it enters its loop with the run-wide WaitObjectTimeout in
    place of a zero timeout.  In every iteration: a NotFound of
    GetSingleObject records the "disappeared while waiting" error and
    returns false; another error of the read is recorded and returns false;
    a validator result that is ready returns true and records nothing; a
    result with errors records each of them and returns false; and, for an
    object that is neither ready nor in error, a positive timeout that the
    time since the start has reached records the timeout error and returns
    false.  With a positive effective timeout and calls that take no
    negative time the loop returns within timeout/500ms + 1 iterations.
    A poll that finds the object neither ready nor in error before the
    timeout returns nothing: the loop sleeps half a second and reads again,
    with no error recorded.  So an object that stays pending ends the wait,
    under a positive effective timeout, with false and the timeout error as
    the one error recorded. *)
Theorem C7_WaitReadiness pkgs a :
  (DryRun (o a) = true ->
   forall fuel ref timeout s, WaitReadiness pkgs a fuel ref timeout s = (Ret true, s))
  /\ (DryRun (o a) = false ->
      forall fuel ref timeout s,
        WaitReadiness pkgs a fuel ref timeout s
        = waitLoop pkgs a fuel ref
                   (if timeout =? 0 then WaitObjectTimeout (o a) else timeout)
                   (now s) (now s) false
                   (with_output (PctxDebugf (MsgWaitingFor ref)) s))
  /\ (forall fuel ref timeout startTime lastLogTime didLog s obj ws e,
        GetSingleObject (k a) (length (calls s)) ref = (obj, ws, Some e) ->
        IsNotFound e = true ->
        let r := waitLoop pkgs a (S fuel) ref timeout startTime lastLogTime didLog s in
        r.1 = Ret false
        /\ dewErrors (dew r.2) = dewErrors (dew s) ++ [(ref, disappearedError pkgs ref)])
  /\ (forall fuel ref timeout startTime lastLogTime didLog s obj ws e,
        GetSingleObject (k a) (length (calls s)) ref = (obj, ws, Some e) ->
        IsNotFound e = false ->
        let r := waitLoop pkgs a (S fuel) ref timeout startTime lastLogTime didLog s in
        r.1 = Ret false /\ dewErrors (dew r.2) = dewErrors (dew s) ++ [(ref, e)])
  /\ (forall fuel ref timeout startTime lastLogTime didLog s obj ws,
        GetSingleObject (k a) (length (calls s)) ref = (obj, ws, None) ->
        Ready (ValidateObject pkgs obj) = true ->
        let r := waitLoop pkgs a (S fuel) ref timeout startTime lastLogTime didLog s in
        r.1 = Ret true /\ dewErrors (dew r.2) = dewErrors (dew s))
  /\ (forall fuel ref timeout startTime lastLogTime didLog s obj ws,
        GetSingleObject (k a) (length (calls s)) ref = (obj, ws, None) ->
        Ready (ValidateObject pkgs obj) = false ->
        Errors (ValidateObject pkgs obj) <> [] ->
        let r := waitLoop pkgs a (S fuel) ref timeout startTime lastLogTime didLog s in
        r.1 = Ret false
        /\ dewErrors (dew r.2)
           = dewErrors (dew s)
             ++ map (fun e => (ref, fmt_Errorf e)) (Errors (ValidateObject pkgs obj)))
  /\ (forall fuel ref timeout startTime lastLogTime didLog s obj ws,
        GetSingleObject (k a) (length (calls s)) ref = (obj, ws, None) ->
        Ready (ValidateObject pkgs obj) = false ->
        Errors (ValidateObject pkgs obj) = [] ->
        0 < timeout ->
        timeout <= now s + callDuration (k a) (length (calls s)) - startTime ->
        let r := waitLoop pkgs a (S fuel) ref timeout startTime lastLogTime didLog s in
        r.1 = Ret false
        /\ dewErrors (dew r.2) = dewErrors (dew s) ++ [(ref, timedOutError pkgs ref)])
  /\ (forall ref timeout fuel s,
        DryRun (o a) = false ->
        let effective := if timeout =? 0 then WaitObjectTimeout (o a) else timeout in
        0 < effective -> (forall n, 0 <= callDuration (k a) n) ->
        effective <= Z.of_nat fuel * (500 * Millisecond) ->
        exists b, (WaitReadiness pkgs a (S fuel) ref timeout s).1 = Ret b)
  /\ (forall fuel ref timeout startTime lastLogTime didLog s obj ws,
        GetSingleObject (k a) (length (calls s)) ref = (obj, ws, None) ->
        Ready (ValidateObject pkgs obj) = false ->
        Errors (ValidateObject pkgs obj) = [] ->
        (0 <? timeout)
        && (timeout <=? now s + callDuration (k a) (length (calls s)) - startTime)
        = false ->
        exists lastLogTime' didLog' s',
          waitLoop pkgs a (S fuel) ref timeout startTime lastLogTime didLog s
          = waitLoop pkgs a fuel ref timeout startTime lastLogTime' didLog' s'
          /\ calls s' = calls s ++ [CallGet ref]
          /\ dewErrors (dew s') = dewErrors (dew s)
          /\ now s' = now s + callDuration (k a) (length (calls s)) + 500 * Millisecond)
  /\ (forall ref timeout fuel s,
        DryRun (o a) = false ->
        let effective := if timeout =? 0 then WaitObjectTimeout (o a) else timeout in
        0 < effective -> (forall n, 0 <= callDuration (k a) n) ->
        alwaysPending pkgs a ref ->
        effective <= Z.of_nat fuel * (500 * Millisecond) ->
        let r := WaitReadiness pkgs a (S fuel) ref timeout s in
        r.1 = Ret false
        /\ dewErrors (dew r.2) = dewErrors (dew s) ++ [(ref, timedOutError pkgs ref)]).
Proof.
  split; [intros; apply WaitReadiness_dry_run; assumption|].
  split; [intros; apply WaitReadiness_starts; assumption|].
  split; [intros; eapply wait_not_found; eassumption|].
  split; [intros; eapply wait_get_error; eassumption|].
  split; [intros; eapply wait_ready; eassumption|].
  split; [intros; eapply wait_validation_errors; eassumption|].
  split; [intros; eapply wait_timed_out; eassumption|].
  split; [intros; apply WaitReadiness_terminates; assumption|].
  split; [intros; eapply wait_pending; eassumption|].
  intros; apply WaitReadiness_pending_times_out; assumption.
Qed.

Lemma C7_WaitReadiness_witness :
  WaitReadiness scriptedPackages aDryRun 0 (GetK8sRef d1) 0 freshState
  = (Ret true, freshState)
  /\ (waitLoop scriptedPackages aPlain 1 (GetK8sRef d1) 0 0 0 false freshState).1
     = Ret false
  /\ (waitLoop scriptedPackages aGetFails 1 (GetK8sRef d1) 0 0 0 false freshState).1
     = Ret false
  /\ (waitLoop scriptedPackages aReady 1 (GetK8sRef d1) 0 0 0 false freshState).1
     = Ret true
  /\ (waitLoop scriptedPackages aNoObject 1 (GetK8sRef d1) 0 0 0 false freshState).1
     = Ret false
  /\ (waitLoop scriptedPackages aPending 1 (GetK8sRef d1) (10 * Millisecond) 0 0 false
                freshState).1
     = Ret false
  /\ (exists b, (WaitReadiness scriptedPackages aPending 3 (GetK8sRef d1)
                                (30 * Millisecond) freshState).1 = Ret b)
  /\ (exists lastLogTime' didLog' s',
        waitLoop scriptedPackages aPending 2 (GetK8sRef d1) Second 0 0 false freshState
        = waitLoop scriptedPackages aPending 1 (GetK8sRef d1) Second 0 lastLogTime'
                   didLog' s'
        /\ calls s' = [CallGet (GetK8sRef d1)]
        /\ dewErrors (dew s') = []
        /\ now s' = 520 * Millisecond)
  /\ (let r := WaitReadiness scriptedPackages aPendingForever 3 (GetK8sRef d1)
                             (600 * Millisecond) freshState in
      r.1 = Ret false
      /\ dewErrors (dew r.2)
         = [(GetK8sRef d1, timedOutError scriptedPackages (GetK8sRef d1))]).
Proof.
  destruct (C7_WaitReadiness scriptedPackages aDryRun) as (Hdry & _).
  destruct (C7_WaitReadiness scriptedPackages aPlain) as (_ & _ & Hnf & _).
  destruct (C7_WaitReadiness scriptedPackages aGetFails) as (_ & _ & _ & Herr & _).
  destruct (C7_WaitReadiness scriptedPackages aReady) as (_ & _ & _ & _ & Hready & _).
  destruct (C7_WaitReadiness scriptedPackages aNoObject)
    as (_ & _ & _ & _ & _ & Hinvalid & _).
  destruct (C7_WaitReadiness scriptedPackages aPending)
    as (_ & _ & _ & _ & _ & _ & Htimeout & Hends & Hgoes & _).
  destruct (C7_WaitReadiness scriptedPackages aPendingForever)
    as (_ & _ & _ & _ & _ & _ & _ & _ & _ & Hpending).
  split; [|split; [|split; [|split; [|split; [|split; [|split; [|split]]]]]]].
  - apply Hdry. reflexivity.
  - apply (Hnf 0%nat (GetK8sRef d1) 0 0 0 false freshState None [] notFoundError);
      reflexivity.
  - apply (Herr 0%nat (GetK8sRef d1) 0 0 0 false freshState None [] transportError);
      reflexivity.
  - apply (Hready 0%nat (GetK8sRef d1) 0 0 0 false freshState (Some d1Ready) []);
      reflexivity.
  - apply (Hinvalid 0%nat (GetK8sRef d1) 0 0 0 false freshState None []);
      [reflexivity | reflexivity | discriminate].
  - apply (Htimeout 0%nat (GetK8sRef d1) (10 * Millisecond) 0 0 false freshState
             (Some d1) []);
      [reflexivity | reflexivity | reflexivity | reflexivity | vm_compute; discriminate].
  - apply (Hends (GetK8sRef d1) (30 * Millisecond) 2%nat freshState);
      [reflexivity | reflexivity | intros n; vm_compute; discriminate
      | vm_compute; discriminate].
  - apply (Hgoes 1%nat (GetK8sRef d1) Second 0 0 false freshState (Some d1) []);
      reflexivity.
  - apply (Hpending (GetK8sRef d1) (600 * Millisecond) 2%nat freshState);
      [reflexivity | reflexivity | intros n; vm_compute; discriminate
      | intros n; exists (Some d1), []; repeat split; reflexivity
      | vm_compute; discriminate].
Defined.

(** ** The abort signal *)

Lemma HandleError_abort a ref e s :
  abortSignal (HandleError a ref e s).2 = abortSignal s || AbortOnError (o a)
  /\ dewErrors (dew (HandleError a ref e s).2) = dewErrors (dew s) ++ [(ref, e)].
Proof.
  rewrite HandleError_state. destruct (AbortOnError (o a)); simpl.
  - rewrite orb_true_r. auto.
  - rewrite orb_false_r. auto.
Qed.

Lemma applyObjectsLoop_aborted pkgs a fuel d n l startTime didLog s :
  abortSignal s = true ->
  applyObjectsLoop pkgs a fuel d n l startTime didLog s = (Ret tt, s).
Proof.
  intros H. destruct l as [|[i obj] l]; simpl; [reflexivity|].
  unfold bind, gets. rewrite H. reflexivity.
Qed.

Lemma applyDeploymentItem_aborted pkgs a fuel d s :
  abortSignal s = true ->
  applyDeploymentItem pkgs a fuel d s
  = (let* plan := itemPrelude pkgs a d in
     match plan with
     | None => ret tt
     | Some p => itemEpilogue pkgs a (planPostHooks p)
     end) s.
Proof.
  intros H. unfold applyDeploymentItem.
  destruct (abort_itemPrelude pkgs a d s) as (_ & Hkeep & _).
  specialize (Hkeep H). unfold bind at 1 3.
  destruct (itemPrelude pkgs a d s) as [[[p|]| |] s1]; try reflexivity.
  simpl in Hkeep. erewrite bind_Ret by (apply applyObjectsLoop_aborted; exact Hkeep).
  reflexivity.
Qed.

(** C8: HandleError sets the abort signal exactly when the run has
    AbortOnError, and records the error.  Across ApplyObject, DeleteObject,
    WaitReadiness, applyDeploymentItem and ReplaceObject, and along every
    run of the scheduler, a set signal stays set, and a signal that becomes
    set does so with AbortOnError and a newly recorded error.  With the
    signal set, the object loop of an item applies nothing, while the rest
    of the item (deletions and hooks) still runs; in a run of the scheduler
    that starts with the signal set, no item is dispatched any more and the
    only objects still applied are those of workers that had passed their
    abort check before; such a worker can still take its step. *)
Theorem C8_abort_signal pkgs a :
  (forall ref e s,
     abortSignal (HandleError a ref e s).2 = abortSignal s || AbortOnError (o a)
     /\ dewErrors (dew (HandleError a ref e s).2) = dewErrors (dew s) ++ [(ref, e)])
  /\ (forall x replaced hook, always (abortMonotone a) (ApplyObject pkgs a x replaced hook))
  /\ (forall ref hook, always (abortMonotone a) (DeleteObject a ref hook))
  /\ (forall fuel ref timeout,
        always (abortMonotone a) (WaitReadiness pkgs a fuel ref timeout))
  /\ (forall fuel d, always (abortMonotone a) (applyDeploymentItem pkgs a fuel d))
  /\ (forall fuel ref firstVersion callback,
        always (abortMonotone a) (ReplaceObject a fuel ref firstVersion callback))
  /\ (forall s tr s',
        steps pkgs a s tr s' -> abortMonotone a (shared s) (shared s'))
  /\ (forall fuel d n l startTime didLog s,
        abortSignal s = true ->
        applyObjectsLoop pkgs a fuel d n l startTime didLog s = (Ret tt, s))
  /\ (forall fuel d s,
        abortSignal s = true ->
        applyDeploymentItem pkgs a fuel d s
        = (let* plan := itemPrelude pkgs a d in
           match plan with
           | None => ret tt
           | Some p => itemEpilogue pkgs a (planPostHooks p)
           end) s)
  /\ (forall s tr s',
        abortSignal (shared s) = true -> steps pkgs a s tr s' ->
        abortSignal (shared s') = true
        /\ Forall (fun l => ~ isDispatch l) tr
        /\ (forall i w, In (LRun i w) tr -> isApplying w ->
            exists d, workers s !! i = Some (d, w)))
  /\ (forall s i d w fuel m w' st',
        abortSignal (shared s) = true -> crashed s = false ->
        workers s !! i = Some (d, w) -> workerCode pkgs a fuel d w = Some m ->
        m (shared s) = (Ret w', st') ->
        exists s', step pkgs a s (LRun i w) s').
Proof.
  split; [intros; apply HandleError_abort|].
  split; [intros; apply abort_ApplyObject|].
  split; [intros; apply abort_DeleteObject|].
  split; [intros; apply abort_WaitReadiness|].
  split; [intros; apply abort_applyDeploymentItem|].
  split; [intros; apply abort_ReplaceObject|].
  split; [intros; eapply steps_abortMonotone; eassumption|].
  split; [intros; apply applyObjectsLoop_aborted; assumption|].
  split; [intros; apply applyDeploymentItem_aborted; assumption|].
  split.
  { intros s tr s' Hab Hsteps.
    destruct (after_abort pkgs a s tr s' Hab Hsteps) as (H1 & H2 & _ & H4). auto. }
  intros s i d w fuel m w' st' _ Hc Hw Hcode Hrun. eexists.
  eapply step_run; eassumption.
Qed.

Lemma C8_abort_signal_witness :
  applyObjectsLoop scriptedPackages aPlain 0 includedItem 1 [(0%nat, d1)] 0 false
                   abortedState
  = (Ret tt, abortedState)
  /\ calls (applyDeploymentItem scriptedPackages aPlain 0 includedItem abortedState).2
     = [CallDelete oldDeploymentRef {| DeleteOptions.ForceDryRun := false |}]
  /\ (exists s',
        steps scriptedPackages aPlain (ApplyDeployments aPlain abortedState) [LBreak] s'
        /\ abortMonotone aPlain (shared (ApplyDeployments aPlain abortedState)) (shared s')
        /\ abortSignal (shared s') = true
        /\ Forall (fun l => ~ isDispatch l) [LBreak])
  /\ (exists s', step scriptedPackages aPlain inFlight (LRun 0 (WEpilogue [])) s').
Proof.
  destruct (C8_abort_signal scriptedPackages aPlain)
    as (_ & _ & _ & _ & _ & _ & Hmono & Hloop & Hitem & Hafter & Hflight).
  split; [|split; [|split]].
  - apply Hloop. reflexivity.
  - rewrite Hitem by reflexivity. vm_compute. reflexivity.
  - assert (Hrun : steps scriptedPackages aPlain (ApplyDeployments aPlain abortedState)
                         ([] ++ [LBreak])
                         {| shared := shared (ApplyDeployments aPlain abortedState);
                            pc := PcFinalWait;
                            pending := pending (ApplyDeployments aPlain abortedState);
                            workers := []; wg := 0; sem := 0; crashed := false |}).
    { eapply steps_snoc; [apply steps_refl|].
      eapply step_break; reflexivity. }
    eexists. split; [exact Hrun|]. split; [exact (Hmono _ _ _ Hrun)|].
    destruct (Hafter (ApplyDeployments aPlain abortedState) _ _ eq_refl Hrun)
      as (H1 & H2 & _).
    split; [exact H1 | exact H2].
  - apply (Hflight inFlight 0%nat plainItem (WEpilogue []) 0%nat
             (itemEpilogue scriptedPackages aPlain [] ;; ret WReturned) WReturned
             ((itemEpilogue scriptedPackages aPlain [] ;; ret WReturned) abortedState).2);
      reflexivity.
Defined.

(** ** Barriers *)

(** C9: in every run of ApplyDeployments, when an item after a barrier
    item has been dispatched, the workers of the barrier item and of every
    item before it are done; in particular they are done whenever a worker
    of a later item runs any of its code.  And a barrier item is in flight
    together with the items dispatched before it in its wave: whenever a
    run has the scheduler at the head of its loop with items that are no
    barriers and then a barrier item still to dispatch, no abort, and two
    permits free, the run goes on to a state in which the scheduler waits
    in the barrier while the worker of the barrier item and the worker of
    any of those earlier items both hold a permit. *)
Theorem C9_barrier_drains_the_items_before_it pkgs a st :
  (forall tr s b d i j,
     steps pkgs a (ApplyDeployments a st) tr s ->
     deployments a !! b = Some d -> isBarrier d = true ->
     (i <= b)%nat -> (b < j)%nat -> (j < length (workers s))%nat ->
     exists di, workers s !! i = Some (di, WDone))
  /\ (forall tr s j w s' b d i,
        steps pkgs a (ApplyDeployments a st) tr s -> step pkgs a s (LRun j w) s' ->
        deployments a !! b = Some d -> isBarrier d = true ->
        (i <= b)%nat -> (b < j)%nat ->
        exists di, workers s !! i = Some (di, WDone))
  /\ (forall tr s wave b post i di,
        steps pkgs a (ApplyDeployments a st) tr s ->
        crashed s = false -> pc s = PcLoop -> pending s = wave ++ b :: post ->
        abortSignal (shared s) = false ->
        Forall (fun d => isBarrier d = false) wave -> isBarrier b = true ->
        wave !! i = Some di -> (sem s + 2 <= semaphoreWeight)%nat ->
        exists tr' s',
          steps pkgs a (ApplyDeployments a st) (tr ++ tr') s'
          /\ pc s' = PcBarrier
          /\ workers s' !! (length (workers s) + i)%nat = Some (di, WAcquired)
          /\ workers s' !! (length (workers s) + length wave)%nat
             = Some (b, WAcquired)).
Proof.
  assert (Hdrained : forall tr s b d i j,
     steps pkgs a (ApplyDeployments a st) tr s ->
     deployments a !! b = Some d -> isBarrier d = true ->
     (i <= b)%nat -> (b < j)%nat -> (j < length (workers s))%nat ->
     exists di, workers s !! i = Some (di, WDone)).
  { intros tr s b d i j Hsteps Hb Hbar Hi Hj Hdisp.
    destruct (schedInv_steps pkgs a _ _ _ (schedInv_init a st) Hsteps) as (_ & _ & Hdr).
    apply (Hdr b i d); auto. unfold drainedBelow. destruct (pc s); lia. }
  split; [exact Hdrained|]. split.
  - intros tr s j w s' b d i Hsteps Hstep Hb Hbar Hi Hj.
    apply (Hdrained tr s b d i j); auto.
    inversion Hstep; subst. eapply lookup_lt_Some; eassumption.
  - intros tr s wave b post i di Hsteps Hc Hpc Hpend Hab Hnb Hb Hi Hsem.
    destruct (barrier_in_flight_with_wave pkgs a s wave b post i di
                Hc Hpc Hpend Hab Hnb Hb Hi Hsem) as (tr' & s' & Hrun & Hrest).
    exists tr', s'. split; [|exact Hrest].
    eapply steps_app; eassumption.
Qed.

Lemma C9_barrier_drains_the_items_before_it_witness :
  (exists tr s s',
     steps scriptedPackages aBarrierFirst (ApplyDeployments aBarrierFirst freshState) tr s
     /\ step scriptedPackages aBarrierFirst s (LRun 1 WAcquired) s'
     /\ length (workers s) = 2%nat
     /\ exists di, workers s !! 0%nat = Some (di, WDone))
  /\ (exists tr s,
        steps scriptedPackages aWave (ApplyDeployments aWave freshState) tr s
        /\ pc s = PcBarrier
        /\ workers s !! 0%nat = Some (plainItem, WAcquired)
        /\ workers s !! 1%nat = Some (barrierItem, WAcquired)).
Proof.
  destruct (C9_barrier_drains_the_items_before_it scriptedPackages aBarrierFirst freshState)
    as (Hdrained & Hrunning & _).
  destruct (C9_barrier_drains_the_items_before_it scriptedPackages aWave freshState)
    as (_ & _ & Hwave).
  split.
  - eassert (Hrun : steps scriptedPackages aBarrierFirst
                          (ApplyDeployments aBarrierFirst freshState) _ _).
    { eapply steps_cons; [eapply step_dispatch; reflexivity|]. cbn.
      eapply steps_cons;
        [eapply (step_acquire _ _ _ 0%nat); [reflexivity | reflexivity | cbv; lia]|]. cbn.
      eapply steps_cons;
        [eapply (step_run _ _ _ 0%nat _ _ 0%nat); reflexivity|]. cbn.
      eapply steps_cons;
        [eapply (step_run _ _ _ 0%nat _ _ 0%nat); reflexivity|]. cbn.
      eapply steps_cons;
        [eapply (step_run _ _ _ 0%nat _ _ 0%nat); reflexivity|]. cbn.
      eapply steps_cons; [eapply (step_release _ _ _ 0%nat); reflexivity|]. cbn.
      eapply steps_cons; [eapply (step_wg_done _ _ _ 0%nat); reflexivity|]. cbn.
      eapply steps_cons; [eapply step_barrier_passed; reflexivity|]. cbn.
      eapply steps_cons; [eapply step_dispatch; reflexivity|]. cbn.
      eapply steps_cons;
        [eapply (step_acquire _ _ _ 1%nat); [reflexivity | reflexivity | cbv; lia]|]. cbn.
      apply steps_refl. }
    match type of Hrun with
    | steps _ _ _ _ ?s =>
        eassert (Hstep : step scriptedPackages aBarrierFirst s (LRun 1 WAcquired) _)
    end.
    { eapply (step_run _ _ _ 1%nat plainItem WAcquired 0%nat); reflexivity. }
    eexists _, _, _. split; [exact Hrun|]. split; [exact Hstep|].
    split; [reflexivity|].
    apply (Hrunning _ _ _ _ _ 0%nat barrierItem 0%nat Hrun Hstep);
      [reflexivity | reflexivity | lia | lia].
  - destruct (Hwave [] (ApplyDeployments aWave freshState) [plainItem] barrierItem
                [plainItem] 0%nat plainItem) as (tr & s & Hrun & Hrest);
      try reflexivity.
    + apply steps_refl.
    + constructor; [reflexivity | constructor].
    + cbv. lia.
    + exists tr, s. split; [exact Hrun | exact Hrest].
Defined.

(** ** Relations that every piece of the code keeps *)

Section Everywhere.
Variable pkgs : Packages.
Variable a : ApplyUtil.
Variable R : relation ApplyState.
Context `{!PreOrder R}.
Hypothesis R_output : forall e s, R s (with_output e s).
Hypothesis R_now : forall f s, R s (with_now f s).
Hypothesis R_randoms : forall f s, R s (with_randoms f s).
Hypothesis R_call : forall c s, R s (with_call (k a) c s).
Hypothesis R_apiWarnings : forall ref ws s, R s (with_dew (AddApiWarnings ref ws) s).
Hypothesis R_warning : forall ref w s, R s (with_dew (AddWarning ref w) s).
Hypothesis R_error : forall ref e s, R s (with_dew (AddError ref e) s).
Hypothesis R_abort : forall s, R s (with_abortSignal true s).
Hypothesis R_latch : forall b s, R s (with_deployedNewCRD b s).
Hypothesis R_result : forall r hook, always R (handleResult r hook).
Hypothesis R_deleted : forall ref s, R s (with_deletedObjects (insert ref true) s).
Hypothesis R_deletedHook :
  forall ref s, R s (with_deletedHookObjects (insert ref true) s).

Lemma every_emit e : always R (emit e).
Proof. intros s. apply R_output. Qed.

Lemma every_sleep d : always R (time_Sleep d).
Proof. intros s. apply R_now. Qed.

Lemma every_random n : always R (utils_RandomString pkgs n).
Proof. intros s. apply R_randoms. Qed.

Lemma every_patch x opts : always R (k_PatchObject a x opts).
Proof. intros s. apply R_call. Qed.

Lemma every_update x opts : always R (k_UpdateObject a x opts).
Proof. intros s. apply R_call. Qed.

Lemma every_delete ref opts : always R (k_DeleteSingleObject a ref opts).
Proof. intros s. apply R_call. Qed.

Lemma every_get ref : always R (k_GetSingleObject a ref).
Proof. intros s. apply R_call. Qed.

Lemma every_rediscover : always R (k_RediscoverResources a).
Proof. intros s. apply R_call. Qed.

Lemma every_apiWarnings ref ws : always R (handleApiWarnings ref ws).
Proof. intros s. apply R_apiWarnings. Qed.

Lemma every_addApiWarnings ref ws :
  always R (modify (with_dew (AddApiWarnings ref ws))).
Proof. intros s. apply R_apiWarnings. Qed.

Lemma every_addWarning ref w : always R (modify (with_dew (AddWarning ref w))).
Proof. intros s. apply R_warning. Qed.

Lemma every_latch b : always R (modify (with_deployedNewCRD b)).
Proof. intros s. apply R_latch. Qed.

Lemma every_deleted ref : always R (modify (with_deletedObjects (insert ref true))).
Proof. intros s. apply R_deleted. Qed.

Lemma every_deletedHook ref :
  always R (modify (with_deletedHookObjects (insert ref true))).
Proof. intros s. apply R_deletedHook. Qed.

Lemma every_HandleError ref e : always R (HandleError a ref e).
Proof.
  intros s. rewrite HandleError_state. simpl.
  destruct (AbortOnError (o a)); [|apply R_error].
  etransitivity; [apply R_abort | apply R_error].
Qed.

Hint Resolve every_emit every_sleep every_random every_patch every_update every_delete
  every_get every_rediscover every_apiWarnings every_addApiWarnings every_addWarning
  every_latch every_deleted every_deletedHook every_HandleError R_result : always.

Lemma every_DeleteObject ref hook : always R (DeleteObject a ref hook).
Proof. unfold DeleteObject. always_auto. Qed.
Hint Resolve every_DeleteObject : always.

Lemma every_retryApplyForceReplace x hook e :
  always R (retryApplyForceReplace a x hook e).
Proof. unfold retryApplyForceReplace. always_auto. Qed.
Hint Resolve every_retryApplyForceReplace : always.

Lemma every_retryApplyWithReplace x hook remote e :
  always R (retryApplyWithReplace a x hook remote e).
Proof. unfold retryApplyWithReplace. always_auto. Qed.

Lemma every_retryApplyWithConflicts x hook remote e :
  always R (retryApplyWithConflicts pkgs a x hook remote e).
Proof. unfold retryApplyWithConflicts. always_auto. Qed.
Hint Resolve every_retryApplyWithReplace every_retryApplyWithConflicts : always.

Lemma every_firstPatch x opts : always R (firstPatch a x opts).
Proof. unfold firstPatch, handleNewCRDs. always_auto. Qed.
Hint Resolve every_firstPatch : always.

Lemma every_lostOwnership ref (l : list LostOwnership) :
  always R (forM_ l (fun lo =>
                       modify (with_dew (AddWarning ref (lostOwnershipWarning lo))))).
Proof. always_auto. Qed.

Lemma every_ApplyObject x replaced hook :
  always R (ApplyObject pkgs a x replaced hook).
Proof. unfold ApplyObject, classifyPatchResult, dummyName. always_auto. Qed.
Hint Resolve every_ApplyObject : always.

Lemma every_waitLoop fuel ref timeout startTime lastLogTime didLog :
  always R (waitLoop pkgs a fuel ref timeout startTime lastLogTime didLog).
Proof.
  revert startTime lastLogTime didLog.
  induction fuel as [|fuel IH]; intros; simpl; [apply always_outOfFuel; typeclasses eauto|].
  unfold waitLog, time_Now. always_auto.
Qed.
Hint Resolve every_waitLoop : always.

Lemma every_WaitReadiness fuel ref timeout :
  always R (WaitReadiness pkgs a fuel ref timeout).
Proof. unfold WaitReadiness, time_Now. always_auto. Qed.
Hint Resolve every_WaitReadiness : always.

Lemma every_RunHooks hooks : always R (RunHooks pkgs a hooks).
Proof. unfold RunHooks, runHook, HadError. always_auto. Qed.
Hint Resolve every_RunHooks : always.

Lemma every_itemPrelude d : always R (itemPrelude pkgs a d).
Proof. unfold itemPrelude, deleteLoop, time_Now. always_auto. Qed.

Lemma every_applyOne fuel d n startTime didLog i obj :
  always R (applyOne pkgs a fuel d n startTime didLog i obj).
Proof. unfold applyOne, time_Now. always_auto. Qed.

Lemma every_itemEpilogue postHooks : always R (itemEpilogue pkgs a postHooks).
Proof. unfold itemEpilogue. always_auto. Qed.
Hint Resolve every_itemPrelude every_applyOne every_itemEpilogue : always.

Lemma every_applyObjectsLoop fuel d n l startTime didLog :
  always R (applyObjectsLoop pkgs a fuel d n l startTime didLog).
Proof.
  revert startTime didLog.
  induction l as [|[i obj] l IH]; intros; simpl; always_auto.
Qed.
Hint Resolve every_applyObjectsLoop : always.

Lemma every_applyDeploymentItem fuel d : always R (applyDeploymentItem pkgs a fuel d).
Proof. unfold applyDeploymentItem. always_auto. Qed.

Lemma every_replaceLoop fuel ref firstVersion callback firstCall :
  always R (replaceLoop a fuel ref firstVersion callback firstCall).
Proof.
  revert firstCall.
  induction fuel as [|fuel IH]; intros; simpl; [apply always_outOfFuel; typeclasses eauto|].
  unfold fetchRemote. always_auto.
Qed.

Lemma every_ReplaceObject fuel ref firstVersion callback :
  always R (ReplaceObject a fuel ref firstVersion callback).
Proof. apply every_replaceLoop. Qed.

Lemma every_workerCode fuel d w m :
  workerCode pkgs a fuel d w = Some m -> always R m.
Proof.
  intros Hcode. destruct w; simpl in Hcode; try discriminate.
  - injection Hcode as <-. always_auto.
  - destruct rest as [|[i obj] rest]; injection Hcode as <-; always_auto.
  - injection Hcode as <-. always_auto.
  - injection Hcode as <-. always_auto.
Qed.

Lemma every_step s l s' : step pkgs a s l s' -> R (shared s) (shared s').
Proof.
  intros Hstep. inversion Hstep; subst; simpl; try reflexivity.
  - destruct (isBarrier d); [apply R_output | reflexivity].
  - match goal with
    | Hc : workerCode _ _ _ _ _ = Some ?m, Hr : ?m _ = _ |- _ =>
        pose proof (every_workerCode _ _ _ _ Hc (shared s)) as HR;
        rewrite Hr in HR; exact HR
    end.
  - match goal with
    | Hc : workerCode _ _ _ _ _ = Some ?m, Hr : ?m _ = _ |- _ =>
        pose proof (every_workerCode _ _ _ _ Hc (shared s)) as HR;
        rewrite Hr in HR; exact HR
    end.
Qed.

Lemma every_steps s tr s' : steps pkgs a s tr s' -> R (shared s) (shared s').
Proof.
  induction 1 as [s|s tr s' l s'' _ IH Hstep]; [reflexivity|].
  etransitivity; [exact IH | eapply every_step; exact Hstep].
Qed.
End Everywhere.

(** ** Deleting one object *)

Lemma DeleteObject_outcome a ref hook s :
  let opts := {| DeleteOptions.ForceDryRun := DryRun (o a) |} in
  let err := (DeleteSingleObject (k a) (length (calls s)) ref opts).2 in
  let failed := match err with Some e => negb (IsNotFound e) | None => false end in
  let r := DeleteObject a ref hook s in
  r.1 = Ret (isNil err)
  /\ calls r.2 = calls s ++ [CallDelete ref opts]
  /\ dewErrors (dew r.2)
     = dewErrors (dew s)
       ++ match err with
          | Some e => if IsNotFound e then [] else [(ref, e)]
          | None => []
          end
  /\ abortSignal r.2 = abortSignal s || (failed && AbortOnError (o a))
  /\ deletedObjects r.2
     = (if isNil err && negb hook then <[ref := true]> (deletedObjects s)
        else deletedObjects s)
  /\ deletedHookObjects r.2
     = (if isNil err && hook then <[ref := true]> (deletedHookObjects s)
        else deletedHookObjects s)
  /\ AppliedObjects r.2 = AppliedObjects s
  /\ appliedHookObjects r.2 = appliedHookObjects s.
Proof.
  cbv zeta. unfold DeleteObject, bind, k_DeleteSingleObject.
  destruct (DeleteSingleObject (k a) _ ref _) as [ws [e|]]; simpl.
  - destruct (IsNotFound e); simpl.
    + rewrite app_nil_r, orb_false_r. repeat split; reflexivity.
    + unfold bind. rewrite HandleError_state.
      destruct (AbortOnError (o a)); simpl; rewrite ?orb_true_r, ?orb_false_r;
        repeat split; reflexivity.
  - rewrite app_nil_r, orb_false_r. destruct hook; repeat split; reflexivity.
Qed.

(** X1: DeleteObject makes exactly one DeleteSingleObject call, flagged
    with the DryRun option of the run, and returns true exactly when the
    gateway reported no error.  Only then is the reference marked as
    deleted, in the set of hooks for a hook and in the plain set otherwise.
    An error of the gateway is recorded, and raises the abort signal under
    AbortOnError, unless it is NotFound: that one is dropped.  The applied
    objects are left alone. *)
Theorem X1_DeleteObject_outcome a ref hook s :
  let opts := {| DeleteOptions.ForceDryRun := DryRun (o a) |} in
  let err := (DeleteSingleObject (k a) (length (calls s)) ref opts).2 in
  let failed := match err with Some e => negb (IsNotFound e) | None => false end in
  let r := DeleteObject a ref hook s in
  r.1 = Ret (isNil err)
  /\ calls r.2 = calls s ++ [CallDelete ref opts]
  /\ dewErrors (dew r.2)
     = dewErrors (dew s)
       ++ match err with
          | Some e => if IsNotFound e then [] else [(ref, e)]
          | None => []
          end
  /\ abortSignal r.2 = abortSignal s || (failed && AbortOnError (o a))
  /\ deletedObjects r.2
     = (if isNil err && negb hook then <[ref := true]> (deletedObjects s)
        else deletedObjects s)
  /\ deletedHookObjects r.2
     = (if isNil err && hook then <[ref := true]> (deletedHookObjects s)
        else deletedHookObjects s)
  /\ AppliedObjects r.2 = AppliedObjects s
  /\ appliedHookObjects r.2 = appliedHookObjects s.
Proof. exact (DeleteObject_outcome a ref hook s). Qed.

(** ** The ladder of [ApplyObject], path by path *)

(** The fields of a state after the updates of a path. *)
Tactic Notation "fields" "in" hyp(H) :=
  cbn [calls dew AppliedObjects appliedHookObjects deletedObjects deletedHookObjects
       abortSignal deployedNewCRD now randoms output
       with_output with_dew with_call with_now with_randoms with_abortSignal
       with_deployedNewCRD with_AppliedObjects with_appliedHookObjects
       with_deletedObjects with_deletedHookObjects] in H.

Ltac fields :=
  cbn [calls dew AppliedObjects appliedHookObjects deletedObjects deletedHookObjects
       abortSignal deployedNewCRD now randoms output
       with_output with_dew with_call with_now with_randoms with_abortSignal
       with_deployedNewCRD with_AppliedObjects with_appliedHookObjects
       with_deletedObjects with_deletedHookObjects].

Section Ladder.
Variable pkgs : Packages.
Variable a : ApplyUtil.

(** [ApplyObject] from its first patch on. *)
Lemma ApplyObject_steps x replaced hook s :
  ApplyObject pkgs a x replaced hook s
  = (let* (r, apiWarnings, err) :=
       firstPatch a (patchedObject pkgs a x replaced s) (firstOptions a) in
     handleApiWarnings (GetK8sRef x) apiWarnings ;;
     classifyPatchResult pkgs a (GetK8sRef x) (patchedObject pkgs a x replaced s)
                         hook (GetRemoteObject (ru a) (GetK8sRef x))
                         (undoDummyName pkgs r (usesDummyName a x replaced)) err)
      (enterApply a x replaced s).
Proof.
  unfold ApplyObject, patchedObject, dummyName, enterApply, usesDummyName, firstOptions.
  destruct (GetRemoteObject (ru a) (GetK8sRef x)) as [remote|];
    [destruct (DryRun (o a) && replaced)|]; reflexivity.
Qed.

Lemma enterApply_calls x replaced s : calls (enterApply a x replaced s) = calls s.
Proof. unfold enterApply. destruct (isNil _); reflexivity. Qed.

Lemma enterApply_dew x replaced s : dew (enterApply a x replaced s) = dew s.
Proof. unfold enterApply. destruct (isNil _); reflexivity. Qed.

Lemma enterApply_applied x replaced s :
  AppliedObjects (enterApply a x replaced s) = AppliedObjects s
  /\ appliedHookObjects (enterApply a x replaced s) = appliedHookObjects s
  /\ deletedObjects (enterApply a x replaced s) = deletedObjects s
  /\ deletedHookObjects (enterApply a x replaced s) = deletedHookObjects s.
Proof. unfold enterApply. destruct (isNil _); repeat split; reflexivity. Qed.

Lemma isOtherError_kinds e :
  isOtherError e = true ->
  IsNoMatchError e = false /\ IsConflict e = false /\ IsInternalError e = false.
Proof.
  unfold isOtherError. intros H.
  apply andb_true_iff in H as [H H3]. apply andb_true_iff in H as [H1 H2].
  apply negb_true_iff in H1, H2, H3. auto.
Qed.

(** An error of another kind reaches the replace path as it is. *)
Lemma ApplyObject_other_error x replaced hook s r ws e :
  let xp := patchedObject pkgs a x replaced s in
  PatchObject (k a) (length (calls s)) xp (firstOptions a) = (r, ws, Some e) ->
  isOtherError e = true ->
  ApplyObject pkgs a x replaced hook s
  = retryApplyWithReplace a xp hook (GetRemoteObject (ru a) (GetK8sRef x)) e
      (with_dew (AddApiWarnings (GetK8sRef x) ws)
         (with_call (k a) (CallPatch xp (firstOptions a)) (enterApply a x replaced s))).
Proof.
  intros xp Hp Hother. destruct (isOtherError_kinds e Hother) as (Hnm & Hc & Hi).
  rewrite ApplyObject_steps. fold xp.
  pose proof (firstPatch_other_error a xp (firstOptions a) (enterApply a x replaced s)
                r ws e) as Hfp.
  rewrite enterApply_calls in Hfp. specialize (Hfp Hp Hnm).
  rewrite (bind_Ret _ _ _ _ _ Hfp).
  unfold handleApiWarnings. rewrite (bind_Ret (modify _) _ _ _ _ eq_refl).
  unfold classifyPatchResult. rewrite Hnm, Hc, Hi. reflexivity.
Qed.

(** The replace path when its update fails: the error of the update goes
    on to the last rung. *)
Lemma retryApplyWithReplace_update_fails x hook remote applyError s r ws e :
  ReplaceOnError (o a) = true ->
  UpdateObject (k a) (length (calls s)) x
               {| UpdateOptions.ForceDryRun := DryRun (o a) |} = (r, ws, Some e) ->
  retryApplyWithReplace a x hook (Some remote) applyError s
  = retryApplyForceReplace a x hook e
      (with_dew (AddApiWarnings (GetK8sRef x) ws)
         (with_call (k a) (CallUpdate x {| UpdateOptions.ForceDryRun := DryRun (o a) |})
            (with_output (LogWarningf MsgRetryReplace) s))).
Proof.
  intros Hrep Hu. unfold retryApplyWithReplace. rewrite Hrep. cbn [negb].
  unfold bind, emit, modify, k_UpdateObject, handleApiWarnings.
  cbn [calls with_output]. rewrite Hu. reflexivity.
Qed.

(** The last rung when its deletion fails: nothing is patched, and the
    error of the deletion is recorded unless it is NotFound. *)
Lemma retryApplyForceReplace_delete_fails x hook applyError s ws e :
  ForceReplaceOnError (o a) = true ->
  DeleteSingleObject (k a) (length (calls s)) (GetK8sRef x)
                     {| DeleteOptions.ForceDryRun := DryRun (o a) |} = (ws, Some e) ->
  let s1 := with_dew (AddApiWarnings (GetK8sRef x) ws)
              (with_call (k a)
                 (CallDelete (GetK8sRef x)
                             {| DeleteOptions.ForceDryRun := DryRun (o a) |})
                 (with_output (LogWarningf MsgRetryDeleteAndReapply) s)) in
  retryApplyForceReplace a x hook applyError s
  = (Ret tt,
     if IsNotFound e then s1
     else with_dew (AddError (GetK8sRef x) e)
            (if AbortOnError (o a) then with_abortSignal true s1 else s1)).
Proof.
  intros Hforce Hd s1. subst s1. unfold retryApplyForceReplace. rewrite Hforce.
  cbn [negb].
  unfold DeleteObject, HandleError, bind, emit, modify, when, ret,
    k_DeleteSingleObject, handleApiWarnings.
  cbn [calls with_output]. rewrite Hd.
  destruct (IsNotFound e), (AbortOnError (o a)); reflexivity.
Qed.
End Ladder.

Lemma append_longer (s t : string) : t <> "" -> s +:+ t <> s.
Proof.
  intros Ht H. apply Ht. clear Ht.
  induction s as [|c s IH]; simpl in H; [exact H|].
  injection H as H. auto.
Qed.

(** X2: an apply error can vanish.  With ReplaceOnError and
    ForceReplaceOnError set (and no dry run), a first patch that fails with
    an error of another kind is followed by an update; when that fails too
    the object is deleted; and when the deletion answers NotFound,
    ApplyObject returns having recorded neither an error nor a result: the
    three calls are all that is left of it. *)
Theorem X2_ApplyObject_can_lose_its_error pkgs a x replaced hook s remote
    r ws e r2 ws2 e2 ws3 e3 :
  let xp := FixObjectForPatch (k a) x in
  let n := length (calls s) in
  DryRun (o a) = false -> ReplaceOnError (o a) = true ->
  ForceReplaceOnError (o a) = true ->
  GetRemoteObject (ru a) (GetK8sRef x) = Some remote ->
  PatchObject (k a) n xp (firstOptions a) = (r, ws, Some e) -> isOtherError e = true ->
  UpdateObject (k a) (S n) xp {| UpdateOptions.ForceDryRun := false |}
  = (r2, ws2, Some e2) ->
  DeleteSingleObject (k a) (S (S n)) (GetK8sRef xp) {| DeleteOptions.ForceDryRun := false |}
  = (ws3, Some e3) ->
  IsNotFound e3 = true ->
  let s' := (ApplyObject pkgs a x replaced hook s).2 in
  (ApplyObject pkgs a x replaced hook s).1 = Ret tt
  /\ dewErrors (dew s') = dewErrors (dew s)
  /\ AppliedObjects s' = AppliedObjects s
  /\ appliedHookObjects s' = appliedHookObjects s
  /\ deletedObjects s' = deletedObjects s
  /\ calls s'
     = calls s ++ [CallPatch xp (firstOptions a);
                   CallUpdate xp {| UpdateOptions.ForceDryRun := false |};
                   CallDelete (GetK8sRef xp) {| DeleteOptions.ForceDryRun := false |}].
Proof.
  intros xp n Hdry Hrep Hforce Hremote Hp Hother Hu Hd Hnf s'. subst s'.
  assert (Hxp : patchedObject pkgs a x replaced s = xp).
  { unfold patchedObject, dummyName. rewrite Hremote, Hdry. reflexivity. }
  assert (Henter : enterApply a x replaced s
                   = with_output (LogDebugf MsgApplyingObjectDebug) s).
  { unfold enterApply, usesDummyName. rewrite Hremote, Hdry. reflexivity. }
  pose proof (ApplyObject_other_error pkgs a x replaced hook s r ws e) as Hstart.
  cbv zeta in Hstart. rewrite Hxp in Hstart. specialize (Hstart Hp Hother).
  rewrite Henter, Hremote in Hstart.
  set (s1 := with_dew (AddApiWarnings (GetK8sRef x) ws)
               (with_call (k a) (CallPatch xp (firstOptions a))
                  (with_output (LogDebugf MsgApplyingObjectDebug) s))) in *.
  assert (Hlen1 : length (calls s1) = S n).
  { unfold s1. cbn [calls with_dew with_call with_output]. rewrite length_app.
    simpl. apply Nat.add_1_r. }
  pose proof (retryApplyWithReplace_update_fails a xp hook remote e s1 r2 ws2 e2 Hrep)
    as Hstep2.
  rewrite Hlen1, Hdry in Hstep2. specialize (Hstep2 Hu).
  set (s2 := with_dew (AddApiWarnings (GetK8sRef xp) ws2)
               (with_call (k a) (CallUpdate xp {| UpdateOptions.ForceDryRun := false |})
                  (with_output (LogWarningf MsgRetryReplace) s1))) in *.
  assert (Hlen2 : length (calls s2) = S (S n)).
  { unfold s2. cbn [calls with_dew with_call with_output]. rewrite length_app, Hlen1.
    simpl. lia. }
  pose proof (retryApplyForceReplace_delete_fails a xp hook e2 s2 ws3 e3 Hforce) as Hstep3.
  cbv zeta in Hstep3. rewrite Hlen2, Hdry in Hstep3. specialize (Hstep3 Hd).
  rewrite Hnf in Hstep3.
  rewrite Hstart, Hstep2, Hstep3. unfold s2, s1. cbn [fst snd].
  cbn [calls dew AppliedObjects appliedHookObjects deletedObjects
       with_dew with_call with_output].
  rewrite <- !app_assoc. repeat split; reflexivity.
Qed.

(** X3: the last rung in a dry run.  With ForceReplaceOnError in a dry
    run, retryApplyForceReplace deletes the object (a dry-run deletion) and,
    when that succeeds, records the object it was given as the result
    without patching it: the deletion is its only call, the reference is
    marked deleted as well as applied, and the error that led there is
    dropped. *)
Theorem X3_force_replace_in_a_dry_run a x hook applyError s ws :
  ForceReplaceOnError (o a) = true -> DryRun (o a) = true ->
  DeleteSingleObject (k a) (length (calls s)) (GetK8sRef x)
                     {| DeleteOptions.ForceDryRun := true |} = (ws, None) ->
  let r := retryApplyForceReplace a x hook applyError s in
  r.1 = Ret tt
  /\ calls r.2
     = calls s ++ [CallDelete (GetK8sRef x) {| DeleteOptions.ForceDryRun := true |}]
  /\ AppliedObjects r.2 = <[GetK8sRef x := x]> (AppliedObjects s)
  /\ appliedHookObjects r.2
     = (if hook then <[GetK8sRef x := x]> (appliedHookObjects s)
        else appliedHookObjects s)
  /\ deletedObjects r.2
     = (if hook then deletedObjects s else <[GetK8sRef x := true]> (deletedObjects s))
  /\ deletedHookObjects r.2
     = (if hook then <[GetK8sRef x := true]> (deletedHookObjects s)
        else deletedHookObjects s)
  /\ dewErrors (dew r.2) = dewErrors (dew s).
Proof.
  intros Hforce Hdry Hd r. subst r.
  unfold retryApplyForceReplace, DeleteObject. rewrite Hforce, Hdry. cbn [negb].
  unfold bind, emit, k_DeleteSingleObject, modify. fields. rewrite Hd.
  unfold handleApiWarnings, modify, ret, handleResult, deref, when, bind.
  destruct hook; cbn [fst snd negb]; fields; repeat split; reflexivity.
Qed.

Lemma X3_force_replace_in_a_dry_run_witness :
  let r := retryApplyForceReplace aDryForce d1 false transportError freshState in
  calls r.2 = [CallDelete (GetK8sRef d1) {| DeleteOptions.ForceDryRun := true |}]
  /\ AppliedObjects r.2 = {[GetK8sRef d1 := d1]}
  /\ deletedObjects r.2 = {[GetK8sRef d1 := true]}
  /\ dewErrors (dew r.2) = [].
Proof.
  destruct (X3_force_replace_in_a_dry_run aDryForce d1 false transportError freshState [])
    as (_ & Hc & Ha & _ & Hd & _ & He); try reflexivity.
  cbv zeta. split; [exact Hc|]. split; [exact Ha|]. split; [exact Hd | exact He].
Defined.

Lemma X2_ApplyObject_can_lose_its_error_witness :
  let s' := (ApplyObject scriptedPackages aLost d1 false false freshState).2 in
  dewErrors (dew s') = [] /\ AppliedObjects s' = ∅ /\ abortSignal s' = false
  /\ length (calls s') = 3%nat.
Proof.
  destruct (X2_ApplyObject_can_lose_its_error scriptedPackages aLost d1 false false
              freshState d1Remote None [] transportError None [] transportError
              [] notFoundError)
    as (_ & He & Ha & _ & _ & Hc); try reflexivity.
  cbv zeta. rewrite He, Ha, Hc. repeat split; reflexivity.
Defined.

Section LadderPaths.
Variable pkgs : Packages.
Variable a : ApplyUtil.

(** [ApplyObject] once its (possibly retried) first patch has answered
    with an object and no error. *)
Lemma ApplyObject_patched x replaced hook s s1 r ws r' :
  firstPatch a (patchedObject pkgs a x replaced s) (firstOptions a)
             (enterApply a x replaced s)
  = (Ret (Some r, ws, None), s1) ->
  undoDummyName pkgs (Some r) (usesDummyName a x replaced) = Some r' ->
  ApplyObject pkgs a x replaced hook s
  = (Ret tt,
     with_AppliedObjects (insert (GetK8sRef r') r')
       ((if hook then with_appliedHookObjects (insert (GetK8sRef r') r') else id)
          (with_dew (AddApiWarnings (GetK8sRef x) ws) s1))).
Proof.
  intros Hfp Hr'. rewrite ApplyObject_steps. rewrite (bind_Ret _ _ _ _ _ Hfp).
  unfold handleApiWarnings. rewrite (bind_Ret (modify _) _ _ _ _ eq_refl).
  unfold classifyPatchResult. rewrite Hr'.
  unfold handleResult, deref, bind, ret, when, modify. destruct hook; reflexivity.
Qed.
End LadderPaths.

(** X4: a CustomResourceDefinition is patched twice.  When the first patch
    of ApplyObject succeeds and the object that comes back is a
    CustomResourceDefinition, handleNewCRDs arms the latch and asks for a
    retry, so the same patch is sent again with the same options; the
    answer of the second patch is the one recorded, and the API warnings
    of the first are dropped. *)
Theorem X4_a_CRD_is_patched_twice pkgs a x replaced hook s r ws r2 ws2 r' :
  let xp := patchedObject pkgs a x replaced s in
  let n := length (calls s) in
  PatchObject (k a) n xp (firstOptions a) = (Some r, ws, None) ->
  isCRD (GetK8sRef r) = true ->
  PatchObject (k a) (S n) xp (firstOptions a) = (Some r2, ws2, None) ->
  undoDummyName pkgs (Some r2) (usesDummyName a x replaced) = Some r' ->
  let s' := (ApplyObject pkgs a x replaced hook s).2 in
  (ApplyObject pkgs a x replaced hook s).1 = Ret tt
  /\ calls s' = calls s ++ [CallPatch xp (firstOptions a); CallPatch xp (firstOptions a)]
  /\ deployedNewCRD s' = true
  /\ dewApiWarnings (dew s')
     = dewApiWarnings (dew s) ++ map (fun w => (GetK8sRef x, w)) ws2
  /\ dewErrors (dew s') = dewErrors (dew s)
  /\ AppliedObjects s' = <[GetK8sRef r' := r']> (AppliedObjects s).
Proof.
  intros xp n Hp Hcrd Hp2 Hr' s'. subst s'.
  pose proof (firstPatch_crd a xp (firstOptions a) (enterApply a x replaced s) r ws) as Hfp.
  rewrite enterApply_calls in Hfp. fold n in Hfp. specialize (Hfp Hp Hcrd).
  rewrite Hp2 in Hfp.
  rewrite (ApplyObject_patched pkgs a x replaced hook s _ r2 ws2 r' Hfp Hr').
  cbn [fst snd]. destruct (enterApply_applied a x replaced s) as (Ha & _).
  destruct hook; fields; cbn [id]; fields;
    rewrite ?enterApply_calls, ?enterApply_dew, ?Ha, <- ?app_assoc;
    repeat split; reflexivity.
Qed.

(** X5: the plain success.  When the first patch of ApplyObject succeeds
    with an object that is no CustomResourceDefinition, that patch is the
    only call; the object that came back (with the real name put back where
    a dummy name was used) is stored under its own reference in the applied
    objects, and in the applied hook objects exactly when the hook flag is
    set; the API warnings are recorded under the reference of the object
    that was given; no error is recorded, and the abort signal and the
    latch are as before. *)
Theorem X5_ApplyObject_success pkgs a x replaced hook s r ws r' :
  let xp := patchedObject pkgs a x replaced s in
  PatchObject (k a) (length (calls s)) xp (firstOptions a) = (Some r, ws, None) ->
  isCRD (GetK8sRef r) = false ->
  undoDummyName pkgs (Some r) (usesDummyName a x replaced) = Some r' ->
  let s' := (ApplyObject pkgs a x replaced hook s).2 in
  (ApplyObject pkgs a x replaced hook s).1 = Ret tt
  /\ calls s' = calls s ++ [CallPatch xp (firstOptions a)]
  /\ AppliedObjects s' = <[GetK8sRef r' := r']> (AppliedObjects s)
  /\ appliedHookObjects s'
     = (if hook then <[GetK8sRef r' := r']> (appliedHookObjects s)
        else appliedHookObjects s)
  /\ dewApiWarnings (dew s')
     = dewApiWarnings (dew s) ++ map (fun w => (GetK8sRef x, w)) ws
  /\ dewErrors (dew s') = dewErrors (dew s)
  /\ abortSignal s' = abortSignal s
  /\ deployedNewCRD s' = deployedNewCRD s.
Proof.
  intros xp Hp Hcrd Hr' s'. subst s'.
  pose proof (firstPatch_plain a xp (firstOptions a) (enterApply a x replaced s) r ws)
    as Hfp.
  rewrite enterApply_calls in Hfp. specialize (Hfp Hp Hcrd).
  rewrite (ApplyObject_patched pkgs a x replaced hook s _ r ws r' Hfp Hr').
  cbn [fst snd]. destruct (enterApply_applied a x replaced s) as (Ha & Hh & _).
  assert (Hab : abortSignal (enterApply a x replaced s) = abortSignal s
                /\ deployedNewCRD (enterApply a x replaced s) = deployedNewCRD s).
  { unfold enterApply. destruct (isNil _); split; reflexivity. }
  destruct Hab as [Hab Hl].
  destruct hook; fields; cbn [id]; fields;
    rewrite ?enterApply_calls, ?enterApply_dew, ?Ha, ?Hh, ?Hab, ?Hl;
    repeat split; reflexivity.
Qed.

(** X6: an error under the dummy name.  In a dry run, an object that was
    deleted before ([replaced]) and that the remote cache knows is patched
    under the name "<name>-<8 random characters>".  When that patch fails
    with an error of another kind and ReplaceOnError is off, the error is
    recorded under the reference with the dummy name, which is not the
    reference of the object: asking the sink about the object itself
    answers as before. *)
Theorem X6_error_under_the_dummy_name pkgs a x hook s remote r ws e :
  let fixed := FixObjectForPatch (k a) x in
  let xp := SetK8sName fixed
              (GetK8sName fixed +:+ "-" +:+ RandomString pkgs (randoms s) 8) in
  DryRun (o a) = true -> ReplaceOnError (o a) = false ->
  GetRemoteObject (ru a) (GetK8sRef x) = Some remote ->
  GetK8sRef fixed = GetK8sRef x ->
  PatchObject (k a) (length (calls s)) xp (firstOptions a) = (r, ws, Some e) ->
  isOtherError e = true ->
  let s' := (ApplyObject pkgs a x true hook s).2 in
  calls s' = calls s ++ [CallPatch xp (firstOptions a)]
  /\ dewErrors (dew s') = dewErrors (dew s) ++ [(GetK8sRef xp, e)]
  /\ GetK8sRef xp <> GetK8sRef x
  /\ dewHadError (GetK8sRef x) (dew s') = dewHadError (GetK8sRef x) (dew s).
Proof.
  intros fixed xp Hdry Hrep Hremote Hfix Hp Hother s'. subst s'.
  assert (Hxp : patchedObject pkgs a x true s = xp).
  { unfold patchedObject, dummyName. rewrite Hremote, Hdry. reflexivity. }
  assert (Hne : GetK8sRef xp <> GetK8sRef x).
  { rewrite <- Hfix. unfold xp, GetK8sRef, SetK8sName, GetK8sName. simpl.
    intros Heq. injection Heq as Heq. revert Heq. apply append_longer. discriminate. }
  pose proof (ApplyObject_other_error pkgs a x true hook s r ws e) as Hstart.
  cbv zeta in Hstart. rewrite Hxp in Hstart. rewrite (Hstart Hp Hother).
  rewrite Hremote. unfold retryApplyWithReplace. rewrite Hrep. cbn [negb].
  rewrite HandleError_state. cbn [fst snd].
  destruct (AbortOnError (o a)); fields; rewrite enterApply_calls, enterApply_dew;
    (split; [reflexivity|]); (split; [reflexivity|]); (split; [exact Hne|]);
    unfold dewHadError; cbn [dewErrors AddError AddApiWarnings];
    rewrite existsb_app; simpl; rewrite bool_decide_eq_false_2 by exact Hne;
    rewrite !orb_false_r; reflexivity.
Qed.

Lemma X4_a_CRD_is_patched_twice_witness :
  let s' := (ApplyObject scriptedPackages aPlain crd false false freshState).2 in
  calls s' = [CallPatch crd plainPatch; CallPatch crd plainPatch]
  /\ deployedNewCRD s' = true
  /\ AppliedObjects s' = {[GetK8sRef crd := crd]}.
Proof.
  destruct (X4_a_CRD_is_patched_twice scriptedPackages aPlain crd false false freshState
              crd [] crd [] crd)
    as (_ & Hc & Hl & _ & _ & Ha); try reflexivity.
  cbv zeta. split; [exact Hc|]. split; [exact Hl | exact Ha].
Defined.

Lemma X5_ApplyObject_success_witness :
  let s' := (ApplyObject scriptedPackages aPlain d1 false false freshState).2 in
  calls s' = [CallPatch d1 plainPatch]
  /\ AppliedObjects s' = {[GetK8sRef d1 := d1]}
  /\ appliedHookObjects s' = ∅
  /\ dewErrors (dew s') = [].
Proof.
  destruct (X5_ApplyObject_success scriptedPackages aPlain d1 false false freshState
              d1 [] d1)
    as (_ & Hc & Ha & Hh & _ & He & _); try reflexivity.
  cbv zeta. split; [exact Hc|]. split; [exact Ha|]. split; [exact Hh | exact He].
Defined.

Lemma X6_error_under_the_dummy_name_witness :
  let s' := (ApplyObject scriptedPackages aDryFails d1 true false freshState).2 in
  dewErrors (dew s') = [(GetK8sRef (SetK8sName d1 "d1-abcdefgh"), transportError)]
  /\ dewHadError (GetK8sRef d1) (dew s') = false.
Proof.
  destruct (X6_error_under_the_dummy_name scriptedPackages aDryFails d1 false freshState
              d1Remote None [] transportError)
    as (_ & He & _ & Hh); try reflexivity.
  cbv zeta. split; [exact He | exact Hh].
Defined.

(** ** At most one error, and no result beside it *)

#[local] Instance quiet_preorder : PreOrder quiet.
Proof.
  split.
  - intros s. repeat split.
  - intros s1 s2 s3 (H1 & H2 & H3) (H4 & H5 & H6). unfold quiet.
    rewrite H4, H5, H6. auto.
Qed.

Section ErrorOrResult.
Variable pkgs : Packages.
Variable a : ApplyUtil.

Lemma eor_quiet {A} (m : M A) : always quiet m -> always errorOrResult m.
Proof. intros H s. left. apply (H s). Qed.

Lemma eor_bind {A B} (m : M A) (f : A -> M B) :
  always quiet m -> (forall x, always errorOrResult (f x)) ->
  always errorOrResult (bind m f).
Proof.
  intros Hm Hf s. unfold bind. specialize (Hm s).
  destruct (m s) as [[x| |] s1]; simpl in *; try (left; apply Hm).
  destruct Hm as (He & Ha & Hh). specialize (Hf x s1).
  unfold errorOrResult in *. rewrite <- He, <- Ha, <- Hh. exact Hf.
Qed.

Lemma eor_HandleError ref e : always errorOrResult (HandleError a ref e).
Proof.
  intros s. rewrite HandleError_state. right.
  destruct (AbortOnError (o a)); simpl; eauto.
Qed.

Lemma eor_handleResult r hook : always errorOrResult (handleResult r hook).
Proof.
  intros s. left. unfold handleResult, deref, bind, when, modify, ret.
  destruct r, hook; reflexivity.
Qed.

Ltac quiet_prim := intros ?; repeat split.

Lemma quiet_firstPatch x opts : always quiet (firstPatch a x opts).
Proof. apply every_firstPatch; try typeclasses eauto; quiet_prim. Qed.

Lemma quiet_lostOwnership ref (l : list LostOwnership) :
  always quiet (forM_ l (fun lo =>
                           modify (with_dew (AddWarning ref (lostOwnershipWarning lo))))).
Proof. apply every_lostOwnership; try typeclasses eauto; quiet_prim. Qed.

(** A deletion that succeeds is quiet; one that fails records at most its
    error. *)
Lemma eor_DeleteObject ref hook s :
  match DeleteObject a ref hook s with
  | (Ret true, s1) => quiet s s1
  | (_, s1) => errorOrResult s s1
  end.
Proof.
  pose proof (DeleteObject_outcome a ref hook s) as H. cbv zeta in H.
  destruct H as (Hr & _ & He & _ & _ & _ & Ha & Hh).
  destruct (DeleteObject a ref hook s) as [out s1]. simpl in *. subst out.
  destruct (DeleteSingleObject (k a) _ ref _).2 as [e|]; simpl.
  - destruct (IsNotFound e).
    + left. rewrite He, app_nil_r. reflexivity.
    + right. eauto.
  - split; [rewrite He, app_nil_r; reflexivity | auto].
Qed.

Lemma eor_retryApplyForceReplace x hook e :
  always errorOrResult (retryApplyForceReplace a x hook e).
Proof.
  unfold retryApplyForceReplace.
  destruct (negb (ForceReplaceOnError (o a))); [apply eor_HandleError|].
  apply eor_bind; [quiet_prim | intros _].
  intros s. unfold bind. pose proof (eor_DeleteObject (GetK8sRef x) hook s) as Hd.
  destruct (DeleteObject a (GetK8sRef x) hook s) as [[[|]| |] s1]; simpl; try exact Hd.
  assert (Hrest : always errorOrResult
            (if negb (DryRun (o a))
             then let* (r, apiWarnings, err) :=
                    k_PatchObject a x {| PatchOptions.ForceDryRun := DryRun (o a);
                                         PatchOptions.ForceApply := false |} in
                  handleApiWarnings (GetK8sRef x) apiWarnings ;;
                  match err with
                  | Some e0 => HandleError a (GetK8sRef x) e0
                  | None => handleResult r hook
                  end
             else handleResult (Some x) hook)).
  { destruct (negb (DryRun (o a))); [|apply eor_handleResult].
    apply eor_bind; [quiet_prim | intros [[r ws] err]].
    apply eor_bind; [quiet_prim | intros _].
    destruct err; [apply eor_HandleError | apply eor_handleResult]. }
  specialize (Hrest s1). destruct Hd as (He & Ha & Hh).
  unfold errorOrResult in *. rewrite <- He, <- Ha, <- Hh. exact Hrest.
Qed.

Lemma eor_retryApplyWithReplace x hook remote e :
  always errorOrResult (retryApplyWithReplace a x hook remote e).
Proof.
  unfold retryApplyWithReplace. destruct remote as [remote|]; [|apply eor_HandleError].
  destruct (negb (ReplaceOnError (o a))); [apply eor_HandleError|].
  apply eor_bind; [quiet_prim | intros _].
  apply eor_bind; [quiet_prim | intros [[r ws] err]].
  apply eor_bind; [quiet_prim | intros _].
  destruct err; [apply eor_retryApplyForceReplace | apply eor_handleResult].
Qed.

Lemma eor_retryApplyWithConflicts x hook remote e :
  always errorOrResult (retryApplyWithConflicts pkgs a x hook remote e).
Proof.
  unfold retryApplyWithConflicts. destruct remote as [remote|]; [|apply eor_HandleError].
  destruct (conflictCandidate pkgs a x remote e) as [e'|[x2 lost]];
    [apply eor_HandleError|].
  apply eor_bind; [apply quiet_lostOwnership | intros _].
  apply eor_bind; [quiet_prim | intros [[r ws] err]].
  apply eor_bind; [quiet_prim | intros _].
  destruct err; [apply eor_HandleError | apply eor_handleResult].
Qed.

Lemma eor_classifyPatchResult ref x hook remote r err :
  always errorOrResult (classifyPatchResult pkgs a ref x hook remote r err).
Proof.
  unfold classifyPatchResult. destruct err as [e|]; [|apply eor_handleResult].
  destruct (IsNoMatchError e); [apply eor_HandleError|].
  destruct (IsConflict e); [apply eor_retryApplyWithConflicts|].
  destruct (IsInternalError e);
    [apply eor_HandleError | apply eor_retryApplyWithReplace].
Qed.

Lemma eor_ApplyObject x replaced hook :
  always errorOrResult (ApplyObject pkgs a x replaced hook).
Proof.
  intros s. rewrite ApplyObject_steps.
  assert (Hq : quiet s (enterApply a x replaced s)).
  { unfold enterApply. destruct (isNil _); repeat split. }
  match goal with |- errorOrResult s (?m ?st).2 =>
    assert (Hm : always errorOrResult m) end.
  { apply eor_bind; [apply quiet_firstPatch | intros [[r ws] err]].
    apply eor_bind; [quiet_prim | intros _]. apply eor_classifyPatchResult. }
  specialize (Hm (enterApply a x replaced s)). destruct Hq as (He & Ha & Hh).
  unfold errorOrResult in *. rewrite <- He, <- Ha, <- Hh. exact Hm.
Qed.

Lemma eor_replaceLoop fuel ref firstVersion callback firstCall :
  always errorOrResult (replaceLoop a fuel ref firstVersion callback firstCall).
Proof.
  revert firstCall. induction fuel as [|fuel IH]; intros firstCall; simpl.
  { intros s. left. reflexivity. }
  assert (Hbody : forall fetched : option (option UnstructuredObject),
    always errorOrResult
      match fetched with
      | None => ret tt
      | Some None => handleResult None false
      | Some (Some remote) =>
          let remoteCopy := Clone remote in
          let '(modified, err) := callback remoteCopy in
          match err with
          | Some e => HandleError a ref e
          | None =>
              let* modified := deref modified in
              if bool_decide (remote = modified) then handleResult (Some remote) false
              else
                let* (result, apiWarnings, err) :=
                  k_UpdateObject a modified {| UpdateOptions.ForceDryRun := false |} in
                modify (with_dew (AddApiWarnings ref apiWarnings)) ;;
                match err with
                | Some e =>
                    if IsConflict e then
                      emit (LogWarningf (MsgConflictRetrying ref)) ;;
                      replaceLoop a fuel ref firstVersion callback false
                    else HandleError a ref e
                | None => handleResult result false
                end
          end
      end).
  { intros [[remote|]|]; [|apply eor_handleResult|intros s; left; reflexivity].
    cbv zeta. destruct (callback (Clone remote)) as [modified [e|]];
      [apply eor_HandleError|].
    apply eor_bind; [destruct modified; quiet_prim | intros m].
    destruct (bool_decide (remote = m)); [apply eor_handleResult|].
    apply eor_bind; [quiet_prim | intros [[r ws] err]].
    apply eor_bind; [quiet_prim | intros _].
    destruct err as [e|]; [|apply eor_handleResult].
    destruct (IsConflict e); [|apply eor_HandleError].
    apply eor_bind; [quiet_prim | intros _]. apply IH. }
  destruct (firstCall && negb (isNil firstVersion)).
  - apply eor_bind; [quiet_prim | intros fetched]. apply Hbody.
  - unfold fetchRemote. intros s. unfold bind at 1 2. unfold k_GetSingleObject at 1.
    destruct (GetSingleObject (k a) (length (calls s)) ref) as [[o2 ws] err].
    unfold bind at 1. unfold modify at 1.
    set (s1 := with_dew (AddApiWarnings ref ws) (with_call (k a) (CallGet ref) s)).
    assert (Hq : quiet s s1) by (repeat split).
    assert (Hfrom : forall s2, errorOrResult s1 s2 -> errorOrResult s s2).
    { intros s2 H. destruct Hq as (He & Ha & Hh). unfold errorOrResult in *.
      rewrite <- He, <- Ha, <- Hh. exact H. }
    destruct err as [e|]; [destruct (negb (IsNotFound e))|].
    + unfold bind. rewrite HandleError_state. apply Hfrom. simpl.
      right. destruct (AbortOnError (o a)); simpl; eauto.
    + apply Hfrom. apply (Hbody (Some o2) s1).
    + apply Hfrom. apply (Hbody (Some o2) s1).
Qed.
End ErrorOrResult.

(** X7: one call of ApplyObject records at most one error, and when it
    records one it stores no result: the applied objects and the applied
    hook objects are then as before.  The same holds for DeleteObject and
    for ReplaceObject, whatever the number of its rounds. *)
Theorem X7_at_most_one_error_and_no_result_beside_it pkgs a :
  (forall x replaced hook, always errorOrResult (ApplyObject pkgs a x replaced hook))
  /\ (forall ref hook, always errorOrResult (DeleteObject a ref hook))
  /\ (forall fuel ref firstVersion callback,
        always errorOrResult (ReplaceObject a fuel ref firstVersion callback)).
Proof.
  split; [intros; apply eor_ApplyObject|]. split.
  - intros ref hook s. pose proof (eor_DeleteObject a ref hook s) as H.
    destruct (DeleteObject a ref hook s) as [[[|]| |] s1]; simpl; try exact H.
    left. apply H.
  - intros. apply eor_replaceLoop.
Qed.

(** ** What the run keeps of its results *)

#[local] Instance mapsGrow_preorder : PreOrder mapsGrow.
Proof.
  split.
  - intros s. repeat split; reflexivity.
  - intros s1 s2 s3 (H1 & H2 & H3 & H4) (H5 & H6 & H7 & H8).
    repeat split; etransitivity; eassumption.
Qed.

#[local] Instance keeps_preorder Inv : PreOrder (keeps Inv).
Proof. split; [intros s H; exact H | intros s1 s2 s3 H1 H2 H; auto]. Qed.

Lemma mapsGrow_handleResult r hook : always mapsGrow (handleResult r hook).
Proof.
  intros s. unfold handleResult, deref, bind, when, modify, ret.
  destruct r as [obj|]; [|reflexivity].
  destruct hook; repeat split; simpl; try reflexivity;
    rewrite dom_insert; set_solver.
Qed.

Lemma storeInv_handleResult r hook : always (keeps storeInv) (handleResult r hook).
Proof.
  intros s [Ha Hh]. unfold handleResult, deref, bind, when, modify, ret.
  destruct r as [obj|]; [|split; assumption].
  assert (Happlied : forall ref x,
            <[GetK8sRef obj := obj]> (AppliedObjects s) !! ref = Some x ->
            GetK8sRef x = ref).
  { intros ref x H. apply lookup_insert_Some in H as [[<- <-]|[_ H]]; eauto. }
  assert (Hsome : forall ref, is_Some (AppliedObjects s !! ref) ->
            is_Some (<[GetK8sRef obj := obj]> (AppliedObjects s) !! ref)).
  { intros ref H. rewrite lookup_insert_is_Some. destruct (decide (GetK8sRef obj = ref)); auto. }
  destruct hook; cbn [fst snd]; unfold storeInv; fields;
    (split; [exact Happlied|]); intros ref x H.
  - apply lookup_insert_Some in H as [[<- <-]|[_ H]].
    + split; [reflexivity|]. rewrite lookup_insert_eq. eauto.
    + destruct (Hh ref x H). auto.
  - destruct (Hh ref x H). auto.
Qed.

Lemma storeInv_NewApplyUtil d t : storeInv (NewApplyUtil d t).
Proof. split; intros ref x H; simpl in H; rewrite lookup_empty in H; discriminate. Qed.

Ltac grow_prim :=
  intros; repeat split; simpl; try reflexivity; rewrite dom_insert; set_solver.

Ltac keep_prim := intros; intros H; exact H.

Ltac by_grow :=
  try typeclasses eauto; first [ apply mapsGrow_handleResult | grow_prim ].

Ltac by_keep :=
  try typeclasses eauto; first [ apply storeInv_handleResult | keep_prim ].

(** ** Concrete runs of the scheduler *)

Lemma outcome_of {A} (p : Outcome A * ApplyState) (x : Outcome A) :
  p.1 = x -> p = (x, p.2).
Proof. intros <-. destruct p; reflexivity. Qed.

(** The fields of a scheduler state other than the shared state. *)
Ltac sched_fields :=
  cbn [shared pc pending workers wg sem crashed setWorker insert list_insert
       length app pred Nat.pred isBarrier orb DeploymentItem.Config
       DeploymentItem.Barrier DeploymentItemConfig.Barrier].

(** One step of a concrete run: worker [i] runs its code, which is
    evaluated; the shared state stays the expression that the code makes
    of it. *)
Ltac worker_runs i fuel :=
  eapply steps_cons;
  [ eapply (step_run _ _ _ i _ _ fuel);
    [ reflexivity | reflexivity | reflexivity
    | apply outcome_of;
      lazymatch goal with
      | |- ?lhs = ?rhs =>
          let v := eval vm_compute in lhs in
          unify rhs v; vm_cast_no_check (@eq_refl _ v)
      end ]
  | sched_fields ].

Ltac sched_step c := eapply steps_cons; [ c | sched_fields ].

(** One item with one object, from the start of [ApplyDeployments] to its
    end. *)
Lemma run_of_one_item :
  exists tr s,
    steps scriptedPackages aOne (ApplyDeployments aOne freshState) tr s
    /\ pc s = PcDone
    /\ workers s = [(itemOf [d1], WDone)]
    /\ AppliedObjects (shared s) !! GetK8sRef d1 = Some d1
    /\ dispatched tr = [0%nat].
Proof.
  eexists _, _. split; [|split; [|split; [|split]]].
  - sched_step ltac:(eapply step_dispatch; reflexivity).
    sched_step ltac:(eapply (step_acquire _ _ _ 0%nat);
                     [reflexivity | reflexivity | cbv; lia]).
    worker_runs 0%nat 0%nat. worker_runs 0%nat 0%nat. worker_runs 0%nat 0%nat.
    worker_runs 0%nat 0%nat. worker_runs 0%nat 0%nat.
    sched_step ltac:(eapply (step_release _ _ _ 0%nat); reflexivity).
    sched_step ltac:(eapply (step_wg_done _ _ _ 0%nat); reflexivity).
    sched_step ltac:(eapply step_loop_end; reflexivity).
    sched_step ltac:(eapply step_finished; reflexivity).
    apply steps_refl.
  - reflexivity.
  - reflexivity.
  - vm_compute. reflexivity.
  - reflexivity.
Qed.

(** X8: nothing is ever taken out of the four maps.  Across ApplyObject,
    DeleteObject, WaitReadiness, applyDeploymentItem and ReplaceObject, and
    along every run of the scheduler, a reference that is among the applied
    objects, the applied hook objects, the deleted objects or the deleted
    hook objects stays there: an object once recorded as applied or as
    deleted remains recorded, also when it is deleted or applied
    afterwards. *)
Theorem X8_results_and_deletions_are_never_removed pkgs a :
  (forall x replaced hook, always mapsGrow (ApplyObject pkgs a x replaced hook))
  /\ (forall ref hook, always mapsGrow (DeleteObject a ref hook))
  /\ (forall fuel ref timeout, always mapsGrow (WaitReadiness pkgs a fuel ref timeout))
  /\ (forall fuel d, always mapsGrow (applyDeploymentItem pkgs a fuel d))
  /\ (forall fuel ref firstVersion callback,
        always mapsGrow (ReplaceObject a fuel ref firstVersion callback))
  /\ (forall s tr s', steps pkgs a s tr s' -> mapsGrow (shared s) (shared s')).
Proof.
  split; [intros; apply every_ApplyObject; by_grow|].
  split; [intros; apply every_DeleteObject; by_grow|].
  split; [intros; apply every_WaitReadiness; by_grow|].
  split; [intros; apply every_applyDeploymentItem; by_grow|].
  split; [intros; apply every_ReplaceObject; by_grow|].
  intros s tr s' Hsteps. eapply every_steps; [..|exact Hsteps]; by_grow.
Qed.

Lemma X8_results_and_deletions_are_never_removed_witness :
  exists tr s,
    steps scriptedPackages aOne (ApplyDeployments aOne freshState) tr s
    /\ AppliedObjects (shared s) !! GetK8sRef d1 = Some d1
    /\ mapsGrow (shared (ApplyDeployments aOne freshState)) (shared s).
Proof.
  destruct run_of_one_item as (tr & s & Hrun & _ & _ & Ha & _).
  exists tr, s. split; [exact Hrun|]. split; [exact Ha|].
  destruct (X8_results_and_deletions_are_never_removed scriptedPackages aOne)
    as (_ & _ & _ & _ & _ & Hsteps).
  exact (Hsteps _ _ _ Hrun).
Defined.

Lemma storeInv_accessor s :
  storeInv s ->
  NoDup (RefAndObject.Ref <$> GetAppliedHookObjects s)
  /\ (forall e, e ∈ GetAppliedHookObjects s ->
        appliedHookObjects s !! RefAndObject.Ref e = Some (RefAndObject.Object e)
        /\ is_Some (AppliedObjects s !! RefAndObject.Ref e)).
Proof.
  intros [_ Hh]. unfold GetAppliedHookObjects.
  assert (Hkey : forall p, p ∈ map_to_list (appliedHookObjects s) ->
            GetK8sRef p.2 = p.1).
  { intros [ref x] Hp. apply elem_of_map_to_list in Hp. apply (Hh ref x Hp). }
  split.
  - rewrite <- list_fmap_compose.
    rewrite (list_fmap_ext _ fst (map_to_list (appliedHookObjects s))).
    + apply NoDup_fst_map_to_list.
    + intros i p Hp. simpl. apply Hkey. eapply list_elem_of_lookup_2. exact Hp.
  - intros e He. apply list_elem_of_fmap in He as ([ref x] & -> & Hp). simpl.
    apply elem_of_map_to_list in Hp. destruct (Hh ref x Hp) as [Href Hsome].
    rewrite Href. auto.
Qed.

(** X9: results are stored under their own reference.  handleResult is
    the only writer of the applied objects and the applied hook objects and
    stores an object under the reference that the object itself carries.
    So from construction on, across ApplyObject, DeleteObject,
    WaitReadiness, applyDeploymentItem and ReplaceObject and in every state
    of a run of ApplyDeployments: every entry of the two maps sits under
    the reference of its object, and every applied hook object has an entry
    among the applied objects.  GetAppliedHookObjects therefore lists no
    reference twice, and each of its entries pairs an object with the key
    it is stored under. *)
Theorem X9_results_are_stored_under_their_own_reference pkgs a :
  (forall d t, storeInv (NewApplyUtil d t))
  /\ (forall x replaced hook,
        always (keeps storeInv) (ApplyObject pkgs a x replaced hook))
  /\ (forall ref hook, always (keeps storeInv) (DeleteObject a ref hook))
  /\ (forall fuel ref timeout,
        always (keeps storeInv) (WaitReadiness pkgs a fuel ref timeout))
  /\ (forall fuel d, always (keeps storeInv) (applyDeploymentItem pkgs a fuel d))
  /\ (forall fuel ref firstVersion callback,
        always (keeps storeInv) (ReplaceObject a fuel ref firstVersion callback))
  /\ (forall d t tr s,
        steps pkgs a (ApplyDeployments a (NewApplyUtil d t)) tr s ->
        storeInv (shared s)
        /\ NoDup (RefAndObject.Ref <$> GetAppliedHookObjects (shared s))
        /\ (forall e, e ∈ GetAppliedHookObjects (shared s) ->
              appliedHookObjects (shared s) !! RefAndObject.Ref e
              = Some (RefAndObject.Object e)
              /\ is_Some (AppliedObjects (shared s) !! RefAndObject.Ref e))).
Proof.
  split; [apply storeInv_NewApplyUtil|].
  split; [intros; apply every_ApplyObject; by_keep|].
  split; [intros; apply every_DeleteObject; by_keep|].
  split; [intros; apply every_WaitReadiness; by_keep|].
  split; [intros; apply every_applyDeploymentItem; by_keep|].
  split; [intros; apply every_ReplaceObject; by_keep|].
  intros d t tr s Hsteps.
  assert (Hinv : storeInv (shared s)).
  { assert (Hk : keeps storeInv (shared (ApplyDeployments a (NewApplyUtil d t)))
                       (shared s)).
    { eapply every_steps; [..|exact Hsteps]; by_keep. }
    apply Hk. split; intros ref x H; simpl in H; rewrite lookup_empty in H;
      discriminate. }
  split; [exact Hinv|]. apply storeInv_accessor. exact Hinv.
Qed.

Lemma X9_results_are_stored_under_their_own_reference_witness :
  exists tr s,
    steps scriptedPackages aOne (ApplyDeployments aOne freshState) tr s
    /\ AppliedObjects (shared s) !! GetK8sRef d1 = Some d1
    /\ storeInv (shared s).
Proof.
  destruct run_of_one_item as (tr & s & Hrun & _ & _ & Ha & _).
  exists tr, s. split; [exact Hrun|]. split; [exact Ha|].
  destruct (X9_results_are_stored_under_their_own_reference scriptedPackages aOne)
    as (_ & _ & _ & _ & _ & _ & Hsteps).
  exact (proj1 (Hsteps emptySink 0 _ _ Hrun)).
Defined.

(** ** More on the readiness waiter *)

#[local] Instance sameStore_preorder : PreOrder sameStore.
Proof.
  split.
  - intros s. repeat split.
  - intros s1 s2 s3 (H1 & H2 & H3 & H4 & H5) (H6 & H7 & H8 & H9 & H10).
    unfold sameStore. rewrite H6, H7, H8, H9, H10. auto.
Qed.

#[local] Instance onlyReads_preorder ref : PreOrder (onlyReads ref).
Proof.
  split.
  - intros s. split; [reflexivity|]. split; [exists 0%nat; simpl; rewrite app_nil_r; auto|].
    split; [|reflexivity]. exists []. rewrite app_nil_r. auto.
  - intros s1 s2 s3 (Hs1 & [n1 Hc1] & (l1 & He1 & Hl1) & Hw1)
                    (Hs2 & [n2 Hc2] & (l2 & He2 & Hl2) & Hw2).
    split; [etransitivity; eassumption|]. split; [|split].
    + exists (n1 + n2)%nat. rewrite Hc2, Hc1, <- app_assoc, replicate_add. reflexivity.
    + exists (l1 ++ l2). rewrite He2, He1, <- app_assoc. split; [reflexivity|].
      apply Forall_app; auto.
    + congruence.
Qed.

Section WaitingMore.
Variable pkgs : Packages.
Variable a : ApplyUtil.

Lemma onlyReads_frame ref {A} (m : M A) :
  (forall s, sameStore s (m s).2 /\ calls (m s).2 = calls s /\ dew (m s).2 = dew s) ->
  always (onlyReads ref) m.
Proof.
  intros H s. destruct (H s) as (Hs & Hc & Hd). split; [exact Hs|]. split; [|split].
  - exists 0%nat. simpl. rewrite app_nil_r. exact Hc.
  - exists []. rewrite app_nil_r, Hd. auto.
  - rewrite Hd. reflexivity.
Qed.

Lemma onlyReads_HandleError ref e : always (onlyReads ref) (HandleError a ref e).
Proof.
  intros s. rewrite HandleError_state. split; [|split; [|split]].
  - destruct (AbortOnError (o a)); repeat split.
  - exists 0%nat. destruct (AbortOnError (o a)); simpl; rewrite app_nil_r; reflexivity.
  - exists [(ref, e)]. destruct (AbortOnError (o a)); simpl; auto.
  - destruct (AbortOnError (o a)); reflexivity.
Qed.

Lemma onlyReads_get ref : always (onlyReads ref) (k_GetSingleObject a ref).
Proof.
  intros s. split; [repeat split|]. split; [|split].
  - exists 1%nat. reflexivity.
  - exists []. simpl. rewrite app_nil_r. auto.
  - reflexivity.
Qed.

Lemma onlyReads_apiWarnings ref ws : always (onlyReads ref) (handleApiWarnings ref ws).
Proof.
  intros s. split; [repeat split|]. split; [|split].
  - exists 0%nat. simpl. rewrite app_nil_r. reflexivity.
  - exists []. simpl. rewrite app_nil_r. auto.
  - reflexivity.
Qed.

Ltac reads_prim :=
  first [ apply onlyReads_HandleError | apply onlyReads_get | apply onlyReads_apiWarnings
        | apply onlyReads_frame; intros ?; repeat split ].

Lemma onlyReads_waitLoop fuel ref timeout startTime lastLogTime didLog :
  always (onlyReads ref) (waitLoop pkgs a fuel ref timeout startTime lastLogTime didLog).
Proof.
  revert startTime lastLogTime didLog.
  induction fuel as [|fuel IH]; intros; simpl; [apply always_outOfFuel; typeclasses eauto|].
  unfold waitLog, time_Now. always_auto; reads_prim.
Qed.

Lemma onlyReads_WaitReadiness fuel ref timeout :
  always (onlyReads ref) (WaitReadiness pkgs a fuel ref timeout).
Proof.
  pose proof (onlyReads_waitLoop fuel ref) as Hloop.
  unfold WaitReadiness, time_Now. always_auto; reads_prim.
Qed.

(** The waiter returns false exactly when it recorded an error. *)
Lemma waitLoop_reports ref timeout startTime :
  forall fuel lastLogTime didLog s b,
    (waitLoop pkgs a fuel ref timeout startTime lastLogTime didLog s).1 = Ret b ->
    exists l,
      dewErrors (dew (waitLoop pkgs a fuel ref timeout startTime lastLogTime didLog s).2)
      = dewErrors (dew s) ++ l
      /\ (b = true <-> l = []).
Proof.
  induction fuel as [|fuel IH]; intros lastLogTime didLog s b Hret; [discriminate|].
  destruct (GetSingleObject (k a) (length (calls s)) ref) as [[obj ws] [e|]] eqn:Hget.
  - destruct (IsNotFound e) eqn:Hnf.
    + destruct (wait_not_found pkgs a fuel ref timeout startTime lastLogTime didLog s
                  obj ws e Hget Hnf) as [H1 H2].
      rewrite H1 in Hret. injection Hret as <-. eexists. split; [exact H2|].
      split; discriminate.
    + destruct (wait_get_error pkgs a fuel ref timeout startTime lastLogTime didLog s
                  obj ws e Hget Hnf) as [H1 H2].
      rewrite H1 in Hret. injection Hret as <-. eexists. split; [exact H2|].
      split; discriminate.
  - destruct (Ready (ValidateObject pkgs obj)) eqn:Hr.
    { destruct (wait_ready pkgs a fuel ref timeout startTime lastLogTime didLog s
                  obj ws Hget Hr) as [H1 H2].
      rewrite H1 in Hret. injection Hret as <-. exists []. rewrite app_nil_r.
      split; [exact H2 | split; reflexivity]. }
    destruct (Errors (ValidateObject pkgs obj)) as [|e0 l0] eqn:He.
    2:{ destruct (wait_validation_errors pkgs a fuel ref timeout startTime lastLogTime
                    didLog s obj ws Hget Hr) as [H1 H2]; [rewrite He; discriminate|].
        rewrite H1 in Hret. injection Hret as <-. eexists. split; [exact H2|].
        rewrite He. split; discriminate. }
    destruct ((0 <? timeout)
              && (timeout <=? now s + callDuration (k a) (length (calls s)) - startTime))
      eqn:Hcond.
    + apply andb_true_iff in Hcond as [Hpos Hle].
      apply Z.ltb_lt in Hpos. apply Z.leb_le in Hle.
      destruct (wait_timed_out pkgs a fuel ref timeout startTime lastLogTime didLog s
                  obj ws Hget Hr He Hpos Hle) as [H1 H2].
      rewrite H1 in Hret. injection Hret as <-. eexists. split; [exact H2|].
      split; discriminate.
    + destruct (wait_pending pkgs a fuel ref timeout startTime lastLogTime didLog s obj ws
                  Hget Hr He Hcond) as (l' & d' & s' & Heq & _ & Hd & _).
      rewrite Heq in Hret |- *. destruct (IH l' d' s' b Hret) as (l & Hl & Hb).
      exists l. rewrite Hl, Hd. auto.
Qed.

(** With no timeout and an object that stays pending, every iteration
    leads to the next. *)
Lemma waitLoop_never_ends ref timeout startTime :
  timeout <= 0 -> alwaysPending pkgs a ref ->
  forall fuel lastLogTime didLog s,
    (waitLoop pkgs a fuel ref timeout startTime lastLogTime didLog s).1 = OutOfFuel
    /\ calls (waitLoop pkgs a fuel ref timeout startTime lastLogTime didLog s).2
       = calls s ++ replicate fuel (CallGet ref)
    /\ dewErrors (dew (waitLoop pkgs a fuel ref timeout startTime lastLogTime didLog s).2)
       = dewErrors (dew s).
Proof.
  intros Hno Hpending. induction fuel as [|fuel IH]; intros lastLogTime didLog s.
  - simpl. rewrite app_nil_r. auto.
  - destruct (Hpending (length (calls s))) as (obj & ws & Hget & Hr & He).
    assert (Hcond : (0 <? timeout)
                    && (timeout <=? now s + callDuration (k a) (length (calls s))
                                    - startTime) = false).
    { replace (0 <? timeout) with false; [reflexivity|].
      symmetry. apply Z.ltb_ge. exact Hno. }
    destruct (wait_pending pkgs a fuel ref timeout startTime lastLogTime didLog s obj ws
                Hget Hr He Hcond) as (l' & d' & s' & Heq & Hc & Hd & _).
    rewrite Heq. destruct (IH l' d' s') as (H1 & H2 & H3).
    split; [exact H1|]. split.
    + rewrite H2, Hc, <- app_assoc. reflexivity.
    + rewrite H3, Hd. reflexivity.
Qed.
End WaitingMore.

(** X11: the answer of WaitReadiness agrees with the sink.  Whenever
    WaitReadiness returns, it returns true when it recorded no error and
    false when it recorded at least one; the errors it records are added
    after those that were there. *)
Theorem X11_WaitReadiness_fails_exactly_with_an_error pkgs a fuel ref timeout s b :
  (WaitReadiness pkgs a fuel ref timeout s).1 = Ret b ->
  exists l,
    dewErrors (dew (WaitReadiness pkgs a fuel ref timeout s).2) = dewErrors (dew s) ++ l
    /\ (b = true <-> l = []).
Proof.
  unfold WaitReadiness. destruct (DryRun (o a)).
  - intros [= <-]. exists []. simpl. rewrite app_nil_r. split; [reflexivity|].
    split; reflexivity.
  - rewrite (bind_Ret (emit _) _ _ _ _ eq_refl).
    rewrite (bind_Ret time_Now _ _ _ _ eq_refl).
    rewrite (bind_Ret time_Now _ _ _ _ eq_refl).
    intros Hret. apply (waitLoop_reports pkgs a) in Hret. exact Hret.
Qed.

Lemma X11_WaitReadiness_fails_exactly_with_an_error_witness :
  (exists l,
     dewErrors (dew (WaitReadiness scriptedPackages aReady 1 (GetK8sRef d1) 0
                       freshState).2) = [] ++ l
     /\ (true = true <-> l = []))
  /\ (exists l,
        dewErrors (dew (WaitReadiness scriptedPackages aGetFails 1 (GetK8sRef d1) 0
                          freshState).2) = [] ++ l
        /\ (false = true <-> l = [])).
Proof.
  split.
  - apply (X11_WaitReadiness_fails_exactly_with_an_error scriptedPackages aReady 1
             (GetK8sRef d1) 0 freshState true). reflexivity.
  - apply (X11_WaitReadiness_fails_exactly_with_an_error scriptedPackages aGetFails 1
             (GetK8sRef d1) 0 freshState false). reflexivity.
Defined.

(** X12: no timeout means no end.  Outside a dry run, when the effective
    timeout (the given one, or WaitObjectTimeout for a given zero) is zero
    or negative and the gateway keeps finding the object in a state that is
    neither ready nor failed, WaitReadiness never returns: whatever the
    number of iterations allowed it uses them all, one read of the object
    per iteration, and records no error. *)
Theorem X12_without_a_timeout_the_wait_never_ends pkgs a ref timeout fuel s :
  DryRun (o a) = false ->
  (if timeout =? 0 then WaitObjectTimeout (o a) else timeout) <= 0 ->
  alwaysPending pkgs a ref ->
  let r := WaitReadiness pkgs a fuel ref timeout s in
  r.1 = OutOfFuel
  /\ calls r.2 = calls s ++ replicate fuel (CallGet ref)
  /\ dewErrors (dew r.2) = dewErrors (dew s).
Proof.
  intros Hdry Hno Hpending r. subst r. rewrite WaitReadiness_starts by exact Hdry.
  exact (waitLoop_never_ends pkgs a ref _ (now s) Hno Hpending fuel (now s) false
           (with_output (PctxDebugf (MsgWaitingFor ref)) s)).
Qed.

Lemma X12_without_a_timeout_the_wait_never_ends_witness :
  let r := WaitReadiness scriptedPackages aPendingForever 5 (GetK8sRef d1) 0 freshState in
  r.1 = OutOfFuel
  /\ calls r.2 = calls freshState ++ replicate 5 (CallGet (GetK8sRef d1))
  /\ dewErrors (dew r.2) = dewErrors (dew freshState).
Proof.
  apply (X12_without_a_timeout_the_wait_never_ends scriptedPackages aPendingForever
           (GetK8sRef d1) 0 5 freshState).
  - reflexivity.
  - vm_compute. discriminate.
  - intros n. exists (Some d1), []. repeat split; reflexivity.
Defined.

(** X13: WaitReadiness only reads.  All it sends to the gateway are reads
    of the object it waits for; it stores no result, marks nothing as
    deleted and leaves the latch alone; the errors it records are all
    under the reference it waits for, and it records no warning. *)
Theorem X13_WaitReadiness_only_reads pkgs a fuel ref timeout :
  always (onlyReads ref) (WaitReadiness pkgs a fuel ref timeout).
Proof. apply onlyReads_WaitReadiness. Qed.

(** ** The list of deleted objects *)

Lemma elem_of_GetDeletedObjectsList s ref :
  ref ∈ GetDeletedObjectsList s <-> is_Some (deletedObjects s !! ref).
Proof.
  unfold GetDeletedObjectsList. rewrite list_elem_of_fmap. split.
  - intros ([ref' b] & -> & H). apply elem_of_map_to_list in H. simpl. eauto.
  - intros [b H]. exists (ref, b). split; [reflexivity|].
    apply elem_of_map_to_list. exact H.
Qed.

(** X10: what GetDeletedObjectsList shows of a deletion.  The list never
    names a reference twice.  After DeleteObject it names what it named
    before and, when the deletion was of a plain object (no hook) and the
    gateway reported no error, the deleted reference as well; the deletion
    of a hook and a failed deletion add nothing to it. *)
Theorem X10_GetDeletedObjectsList_after_DeleteObject a ref hook s :
  let r := DeleteObject a ref hook s in
  NoDup (GetDeletedObjectsList r.2)
  /\ (forall ref',
        ref' ∈ GetDeletedObjectsList r.2
        <-> ref' ∈ GetDeletedObjectsList s
            \/ (ref' = ref /\ r.1 = Ret true /\ hook = false)).
Proof.
  intros r. split; [apply NoDup_fst_map_to_list|]. intros ref'.
  rewrite !elem_of_GetDeletedObjectsList.
  pose proof (DeleteObject_outcome a ref hook s) as H. cbv zeta in H.
  destruct H as (Hr & _ & _ & _ & Hd & _). fold r in Hr, Hd. rewrite Hr, Hd.
  destruct (isNil _), hook; simpl.
  - split; [auto|]. intros [H|(_ & _ & [=])]. exact H.
  - rewrite lookup_insert_is_Some. split.
    + intros [<-|[_ H]]; auto.
    + intros [H|(-> & _)]; [|auto].
      destruct (decide (ref = ref')); auto.
  - split; [auto|]. intros [H|(_ & [=] & _)]. exact H.
  - split; [auto|]. intros [H|(_ & [=] & _)]. exact H.
Qed.

(** ** The rounds of the replace loop *)

Section Rounds.
Variable a : ApplyUtil.
Variable ref : ObjectRef.
Variable firstVersion : option UnstructuredObject.
Variable callback : UnstructuredObject -> option UnstructuredObject * option error.

Lemma fetches_first fv s :
  firstVersion = Some fv -> fetches a ref firstVersion true s fv s.
Proof. intros H. unfold fetches. rewrite H. reflexivity. Qed.

Lemma fetches_read firstCall s remote ws :
  firstCall && negb (isNil firstVersion) = false ->
  GetSingleObject (k a) (length (calls s)) ref = (Some remote, ws, None) ->
  fetches a ref firstVersion firstCall s remote
          (with_dew (AddApiWarnings ref ws) (with_call (k a) (CallGet ref) s)).
Proof.
  intros Hfirst Hget. unfold fetches. rewrite Hfirst.
  unfold fetchRemote, bind, k_GetSingleObject. rewrite Hget. reflexivity.
Qed.

Lemma round_callback_fails fuel firstCall s remote s1 m e :
  fetches a ref firstVersion firstCall s remote s1 -> callback (Clone remote) = (m, Some e) ->
  replaceLoop a (S fuel) ref firstVersion callback firstCall s = HandleError a ref e s1.
Proof.
  intros Hf Hcb. unfold fetches in Hf. cbn [replaceLoop].
  rewrite (bind_Ret _ _ _ _ _ Hf). cbv zeta. rewrite Hcb. reflexivity.
Qed.

Lemma round_unchanged fuel firstCall s remote s1 :
  fetches a ref firstVersion firstCall s remote s1 -> callback (Clone remote) = (Some remote, None) ->
  replaceLoop a (S fuel) ref firstVersion callback firstCall s
  = (Ret tt, with_AppliedObjects (insert (GetK8sRef remote) remote) s1).
Proof.
  intros Hf Hcb. unfold fetches in Hf. cbn [replaceLoop].
  rewrite (bind_Ret _ _ _ _ _ Hf). cbv zeta. rewrite Hcb.
  unfold deref. rewrite (bind_Ret (ret remote) _ _ _ _ eq_refl).
  rewrite bool_decide_eq_true_2 by reflexivity. reflexivity.
Qed.

Lemma round_updates fuel firstCall s remote s1 m r ws :
  fetches a ref firstVersion firstCall s remote s1 -> callback (Clone remote) = (Some m, None) ->
  m <> remote ->
  UpdateObject (k a) (length (calls s1)) m {| UpdateOptions.ForceDryRun := false |}
  = (Some r, ws, None) ->
  replaceLoop a (S fuel) ref firstVersion callback firstCall s
  = (Ret tt,
     with_AppliedObjects (insert (GetK8sRef r) r)
       (with_dew (AddApiWarnings ref ws)
          (with_call (k a) (CallUpdate m {| UpdateOptions.ForceDryRun := false |}) s1))).
Proof.
  intros Hf Hcb Hne Hu. unfold fetches in Hf. cbn [replaceLoop].
  rewrite (bind_Ret _ _ _ _ _ Hf). cbv zeta. rewrite Hcb.
  unfold deref. rewrite (bind_Ret (ret m) _ _ _ _ eq_refl).
  rewrite bool_decide_eq_false_2 by congruence.
  unfold bind, k_UpdateObject, modify. rewrite Hu. reflexivity.
Qed.

Lemma round_conflicts fuel firstCall s remote s1 m r ws e :
  fetches a ref firstVersion firstCall s remote s1 -> callback (Clone remote) = (Some m, None) ->
  m <> remote ->
  UpdateObject (k a) (length (calls s1)) m {| UpdateOptions.ForceDryRun := false |}
  = (r, ws, Some e) ->
  IsConflict e = true ->
  replaceLoop a (S fuel) ref firstVersion callback firstCall s
  = replaceLoop a fuel ref firstVersion callback false
      (with_output (LogWarningf (MsgConflictRetrying ref))
         (with_dew (AddApiWarnings ref ws)
            (with_call (k a) (CallUpdate m {| UpdateOptions.ForceDryRun := false |}) s1))).
Proof.
  intros Hf Hcb Hne Hu Hc. unfold fetches in Hf. cbn [replaceLoop].
  rewrite (bind_Ret _ _ _ _ _ Hf). cbv zeta. rewrite Hcb.
  unfold deref. rewrite (bind_Ret (ret m) _ _ _ _ eq_refl).
  rewrite bool_decide_eq_false_2 by congruence.
  unfold bind at 1. unfold k_UpdateObject at 1. rewrite Hu.
  unfold bind at 1. unfold modify at 1. rewrite Hc.
  unfold bind at 1. unfold emit at 1, modify at 1. reflexivity.
Qed.

Lemma round_update_fails fuel firstCall s remote s1 m r ws e :
  fetches a ref firstVersion firstCall s remote s1 -> callback (Clone remote) = (Some m, None) ->
  m <> remote ->
  UpdateObject (k a) (length (calls s1)) m {| UpdateOptions.ForceDryRun := false |}
  = (r, ws, Some e) ->
  IsConflict e = false ->
  replaceLoop a (S fuel) ref firstVersion callback firstCall s
  = HandleError a ref e
      (with_dew (AddApiWarnings ref ws)
         (with_call (k a) (CallUpdate m {| UpdateOptions.ForceDryRun := false |}) s1)).
Proof.
  intros Hf Hcb Hne Hu Hc. unfold fetches in Hf. cbn [replaceLoop].
  rewrite (bind_Ret _ _ _ _ _ Hf). cbv zeta. rewrite Hcb.
  unfold deref. rewrite (bind_Ret (ret m) _ _ _ _ eq_refl).
  rewrite bool_decide_eq_false_2 by congruence.
  unfold bind at 1. unfold k_UpdateObject at 1. rewrite Hu.
  unfold bind at 1. unfold modify at 1. rewrite Hc. reflexivity.
Qed.
End Rounds.

Lemma fetches_inv a ref firstVersion s remote s1 :
  fetches a ref firstVersion true s remote s1 ->
  (firstVersion = Some remote /\ s1 = s)
  \/ (firstVersion = None /\ calls s1 = calls s ++ [CallGet ref]
      /\ dewErrors (dew s1) = dewErrors (dew s)
      /\ AppliedObjects s1 = AppliedObjects s).
Proof.
  unfold fetches. destruct firstVersion as [fv|]; simpl.
  - intros [= -> ->]. left. auto.
  - intros H. right. split; [reflexivity|]. revert H.
    unfold fetchRemote, bind, k_GetSingleObject, modify.
    destruct (GetSingleObject (k a) (length (calls s)) ref) as [[o2 ws] [e|]]; simpl.
    + destruct (negb (IsNotFound e)); simpl.
      * unfold bind. rewrite HandleError_state. intros [=].
      * intros [= -> <-]. auto.
    + intros [= -> <-]. auto.
Qed.

(** X14: a round that changes nothing writes nothing.  When the callback
    of ReplaceObject returns the object as it is, ReplaceObject sends no
    update: it stores the object it worked on (the first version, or the
    object it read) as the result, under that object's own reference, and
    returns.  When the callback returns an error, that error is recorded
    under the reference of the call and nothing is sent either.  The one
    gateway call in both cases is the read of the object, made only when
    no first version was given. *)
Theorem X14_ReplaceObject_writes_only_changes a fuel ref firstVersion callback s
    remote s1 :
  fetches a ref firstVersion true s remote s1 ->
  (callback (Clone remote) = (Some remote, None) ->
   ReplaceObject a (S fuel) ref firstVersion callback s
   = (Ret tt, with_AppliedObjects (insert (GetK8sRef remote) remote) s1))
  /\ (forall m e,
        callback (Clone remote) = (m, Some e) ->
        ReplaceObject a (S fuel) ref firstVersion callback s = HandleError a ref e s1)
  /\ ((firstVersion = Some remote /\ s1 = s)
      \/ (firstVersion = None /\ calls s1 = calls s ++ [CallGet ref]
          /\ dewErrors (dew s1) = dewErrors (dew s)
          /\ AppliedObjects s1 = AppliedObjects s)).
Proof.
  intros Hf. split; [|split].
  - intros Hcb. apply round_unchanged; assumption.
  - intros m e Hcb. eapply round_callback_fails; eassumption.
  - exact (fetches_inv a ref firstVersion s remote s1 Hf).
Qed.

Lemma X14_ReplaceObject_writes_only_changes_witness :
  ReplaceObject aPlain 1 (GetK8sRef d1) (Some d1Remote) keepAsIs freshState
  = (Ret tt, with_AppliedObjects (insert (GetK8sRef d1Remote) d1Remote) freshState)
  /\ ReplaceObject aPlain 1 (GetK8sRef d1) (Some d1Remote) refuses freshState
     = HandleError aPlain (GetK8sRef d1) transportError freshState.
Proof.
  assert (Hf : fetches aPlain (GetK8sRef d1) (Some d1Remote) true freshState
                       d1Remote freshState) by reflexivity.
  destruct (X14_ReplaceObject_writes_only_changes aPlain 0 (GetK8sRef d1)
              (Some d1Remote) keepAsIs freshState d1Remote freshState Hf) as (Hsame & _).
  destruct (X14_ReplaceObject_writes_only_changes aPlain 0 (GetK8sRef d1)
              (Some d1Remote) refuses freshState d1Remote freshState Hf)
    as (_ & Hfails & _).
  split; [apply Hsame; reflexivity | apply (Hfails None); reflexivity].
Defined.

(** X15: a conflict is retried on a fresh read.  When the update of the
    first round (made from the first version) meets a Conflict,
    ReplaceObject does not use the first version again: it reads the object
    from the gateway, runs the callback on what it read and updates again.
    When that update succeeds its answer is the result; the conflict leaves
    no error behind, and the three calls are the update, the read and the
    second update. *)
Theorem X15_ReplaceObject_retries_a_conflict_on_a_fresh_read a fuel ref fv callback s
    m r1 ws1 e remote ws2 m2 r ws3 :
  let n := length (calls s) in
  callback (Clone fv) = (Some m, None) -> m <> fv ->
  UpdateObject (k a) n m {| UpdateOptions.ForceDryRun := false |} = (r1, ws1, Some e) ->
  IsConflict e = true ->
  GetSingleObject (k a) (S n) ref = (Some remote, ws2, None) ->
  callback (Clone remote) = (Some m2, None) -> m2 <> remote ->
  UpdateObject (k a) (S (S n)) m2 {| UpdateOptions.ForceDryRun := false |}
  = (Some r, ws3, None) ->
  let res := ReplaceObject a (S (S fuel)) ref (Some fv) callback s in
  res.1 = Ret tt
  /\ calls res.2
     = calls s ++ [CallUpdate m {| UpdateOptions.ForceDryRun := false |};
                   CallGet ref;
                   CallUpdate m2 {| UpdateOptions.ForceDryRun := false |}]
  /\ AppliedObjects res.2 = <[GetK8sRef r := r]> (AppliedObjects s)
  /\ dewErrors (dew res.2) = dewErrors (dew s).
Proof.
  intros n Hcb Hne Hu He Hget Hcb2 Hne2 Hu2 res. subst res. unfold ReplaceObject.
  rewrite (round_conflicts a ref (Some fv) callback (S fuel) true s fv s m r1 ws1 e
             (fetches_first a ref (Some fv) fv s eq_refl) Hcb Hne Hu He).
  set (s1 := with_output (LogWarningf (MsgConflictRetrying ref))
               (with_dew (AddApiWarnings ref ws1)
                  (with_call (k a) (CallUpdate m {| UpdateOptions.ForceDryRun := false |})
                     s))).
  assert (Hlen1 : length (calls s1) = S n).
  { unfold s1. cbn [calls with_output with_dew with_call]. rewrite length_app.
    simpl. fold n. lia. }
  assert (Hf2 : fetches a ref (Some fv) false s1 remote
                  (with_dew (AddApiWarnings ref ws2)
                     (with_call (k a) (CallGet ref) s1))).
  { apply fetches_read; [reflexivity|]. rewrite Hlen1. exact Hget. }
  set (s2 := with_dew (AddApiWarnings ref ws2) (with_call (k a) (CallGet ref) s1)) in *.
  assert (Hlen2 : length (calls s2) = S (S n)).
  { unfold s2. cbn [calls with_dew with_call]. rewrite length_app, Hlen1. simpl. lia. }
  rewrite (round_updates a ref (Some fv) callback fuel false s1 remote s2 m2 r ws3
             Hf2 Hcb2 Hne2).
  2:{ rewrite Hlen2. exact Hu2. }
  unfold s2, s1. cbn [fst snd].
  cbn [calls dew AppliedObjects with_AppliedObjects with_output with_dew with_call
       dewErrors AddApiWarnings].
  rewrite <- !app_assoc. repeat split; reflexivity.
Qed.

Lemma X15_ReplaceObject_retries_a_conflict_on_a_fresh_read_witness :
  let res := ReplaceObject aConflictOnce 2 (GetK8sRef d1) (Some d1Remote) scaleUp
                           freshState in
  res.1 = Ret tt
  /\ calls res.2
     = [CallUpdate d1Scaled realUpdate; CallGet (GetK8sRef d1);
        CallUpdate d1NewerScaled realUpdate]
  /\ dewErrors (dew res.2) = [].
Proof.
  destruct (X15_ReplaceObject_retries_a_conflict_on_a_fresh_read aConflictOnce 0
              (GetK8sRef d1) d1Remote scaleUp freshState d1Scaled None []
              resourceVersionConflict d1Newer [] d1NewerScaled d1NewerScaled [])
    as (Hr & Hc & _ & He); try reflexivity; try discriminate.
  cbv zeta. split; [exact Hr|]. split; [exact Hc | exact He].
Defined.

Section Forever.
Variable a : ApplyUtil.
Variable ref : ObjectRef.
Variable firstVersion : option UnstructuredObject.
Variable callback : UnstructuredObject -> option UnstructuredObject * option error.
Hypothesis Hforever : everyRoundConflicts a ref firstVersion callback.

Lemma replaceLoop_never_ends fuel : forall firstCall s,
  let res := replaceLoop a fuel ref firstVersion callback firstCall s in
  res.1 = OutOfFuel
  /\ dewErrors (dew res.2) = dewErrors (dew s)
  /\ AppliedObjects res.2 = AppliedObjects s
  /\ exists l, calls res.2 = calls s ++ l /\ (fuel <= length l)%nat.
Proof.
  destruct Hforever as (Hfirst & Hget & Hupd).
  induction fuel as [|fuel IH]; intros firstCall s res; subst res.
  { simpl. repeat split. exists []. rewrite app_nil_r. split; [reflexivity | simpl; lia]. }
  assert (Hfetch : exists remote s1,
            fetches a ref firstVersion firstCall s remote s1
            /\ changes callback remote
            /\ dewErrors (dew s1) = dewErrors (dew s)
            /\ AppliedObjects s1 = AppliedObjects s
            /\ exists l, calls s1 = calls s ++ l).
  { destruct (firstCall && negb (isNil firstVersion)) eqn:Hfc.
    - apply andb_true_iff in Hfc as [Hcall Hfv].
      destruct firstVersion as [fv|] eqn:Hv; [|discriminate].
      exists fv, s. split; [unfold fetches; rewrite Hcall; reflexivity|].
      split; [apply Hfirst; reflexivity|].
      repeat split. exists []. rewrite app_nil_r. reflexivity.
    - destruct (Hget (length (calls s))) as (remote & ws & Hg & Hch).
      eexists remote, _. split; [apply fetches_read; eassumption|].
      split; [exact Hch|].
      repeat split. exists [CallGet ref]. reflexivity. }
  destruct Hfetch as (remote & s1 & Hf & (m & Hm & Hne) & Hd1 & Ha1 & l1 & Hc1).
  destruct (Hupd (length (calls s1)) m) as (r & ws & e & Hu & He).
  rewrite (round_conflicts a ref firstVersion callback fuel firstCall s remote s1
             m r ws e Hf Hm Hne Hu He).
  match goal with |- context [ replaceLoop a fuel ref firstVersion callback false ?st ] =>
    destruct (IH false st) as (H1 & H2 & H3 & l & H4 & H5) end.
  split; [exact H1|]. split; [rewrite H2; exact Hd1|]. split; [rewrite H3; exact Ha1|].
  exists (l1 ++ CallUpdate m {| UpdateOptions.ForceDryRun := false |} :: l).
  split.
  - rewrite H4. cbn [calls with_output with_dew with_call]. rewrite Hc1.
    rewrite <- !app_assoc. reflexivity.
  - rewrite length_app. simpl. lia.
Qed.
End Forever.

(** X16: the replace loop has no bound.  With a gateway that finds the
    object at every read and answers every update with a Conflict, and a
    callback that changes every object it is given, ReplaceObject never
    returns: whatever the number of rounds allowed, it uses them all, with
    at least one gateway call per round, recording no error and storing no
    result. *)
Theorem X16_ReplaceObject_never_gives_up_on_conflicts a ref firstVersion callback
    fuel s :
  everyRoundConflicts a ref firstVersion callback ->
  let res := ReplaceObject a fuel ref firstVersion callback s in
  res.1 = OutOfFuel
  /\ dewErrors (dew res.2) = dewErrors (dew s)
  /\ AppliedObjects res.2 = AppliedObjects s
  /\ exists l, calls res.2 = calls s ++ l /\ (fuel <= length l)%nat.
Proof.
  intros Hforever. exact (replaceLoop_never_ends a ref firstVersion callback Hforever
                            fuel true s).
Qed.

Lemma X16_ReplaceObject_never_gives_up_on_conflicts_witness :
  let res := ReplaceObject aConflictsForever 7 (GetK8sRef d1) None scaleUp freshState in
  res.1 = OutOfFuel
  /\ dewErrors (dew res.2) = dewErrors (dew freshState)
  /\ AppliedObjects res.2 = AppliedObjects freshState
  /\ exists l, calls res.2 = calls freshState ++ l /\ (7 <= length l)%nat.
Proof.
  apply (X16_ReplaceObject_never_gives_up_on_conflicts aConflictsForever (GetK8sRef d1)
           None scaleUp 7 freshState).
  split; [|split].
  - intros fv [=].
  - intros n. exists d1Remote, []. split; [reflexivity|].
    exists d1Scaled. split; [reflexivity | discriminate].
  - intros n x. exists None, [], resourceVersionConflict. split; reflexivity.
Defined.

(** ** More on the runs of the scheduler *)

Section SchedulerMore.
Variable pkgs : Packages.
Variable a : ApplyUtil.

Lemma permitsHeld_app ws ws' :
  permitsHeld (ws ++ ws') = (permitsHeld ws + permitsHeld ws')%nat.
Proof. induction ws as [|[d w] ws IH]; simpl; [reflexivity | rewrite IH; lia]. Qed.

Lemma permitsHeld_insert ws i d w d' w' :
  ws !! i = Some (d, w) ->
  (permitsHeld (<[i := (d', w')]> ws) + (if holdsPermit w then 1 else 0)
   = permitsHeld ws + (if holdsPermit w' then 1 else 0))%nat.
Proof.
  revert i. induction ws as [|[d0 w0] ws IH]; intros [|i] H; simpl in *; try discriminate.
  - injection H as -> ->. lia.
  - specialize (IH i H). lia.
Qed.

(** The code of a worker runs between its acquire and its release. *)
Lemma workerCode_holds fuel d w m st w' st' :
  workerCode pkgs a fuel d w = Some m -> m st = (Ret w', st') ->
  holdsPermit w = true /\ holdsPermit w' = true.
Proof.
  intros Hcode Hrun. destruct w; simpl in Hcode; try discriminate.
  - injection Hcode as <-. unfold bind in Hrun.
    destruct (itemPrelude pkgs a d st) as [[[p|]| |] s1]; try discriminate;
      injection Hrun as <- <-; simpl; auto.
  - destruct rest as [|[i obj] rest]; injection Hcode as <-.
    + injection Hrun as <- <-. simpl; auto.
    + unfold bind, gets in Hrun. destruct (abortSignal st);
        injection Hrun as <- <-; simpl; auto.
  - injection Hcode as <-. unfold bind in Hrun.
    destruct (applyOne pkgs a fuel d n startTime didLog i obj st) as [[[t b]| |] s1];
      try discriminate.
    injection Hrun as <- <-. simpl; auto.
  - injection Hcode as <-. unfold bind in Hrun.
    destruct (itemEpilogue pkgs a postHooks st) as [[[]| |] s1]; try discriminate.
    injection Hrun as <- <-. simpl; auto.
Qed.

Lemma semInv_step s l s' : semInv s -> step pkgs a s l s' -> semInv s'.
Proof.
  intros [Hsem Hle] Hstep. unfold semInv.
  inversion Hstep; subst; simpl; unfold setWorker; auto.
  - rewrite permitsHeld_app. simpl. split; [lia | exact Hle].
  - match goal with Hi : workers s !! _ = Some _ |- _ =>
      pose proof (permitsHeld_insert _ _ _ _ d WAcquired Hi) as Hp end.
    simpl in Hp. split; lia.
  - match goal with
    | Hc : workerCode _ _ _ _ _ = Some _, Hr : _ = (Ret _, _) |- _ =>
        destruct (workerCode_holds _ _ _ _ _ _ _ Hc Hr) as (Hw & Hw')
    end.
    match goal with Hi : workers s !! _ = Some _ |- _ =>
      pose proof (permitsHeld_insert _ _ _ _ d w' Hi) as Hp end.
    rewrite Hw, Hw' in Hp. split; lia.
  - match goal with Hi : workers s !! _ = Some _ |- _ =>
      pose proof (permitsHeld_insert _ _ _ _ d WReleased Hi) as Hp end.
    simpl in Hp. split; lia.
  - match goal with Hi : workers s !! _ = Some _ |- _ =>
      pose proof (permitsHeld_insert _ _ _ _ d WDone Hi) as Hp end.
    simpl in Hp. split; lia.
Qed.

Lemma semInv_steps s tr s' : semInv s -> steps pkgs a s tr s' -> semInv s'.
Proof.
  intros Hinv Hsteps.
  induction Hsteps as [s|s tr s' l s'' Hsteps IH Hstep]; [exact Hinv|].
  eapply semInv_step; [apply IH; exact Hinv | exact Hstep].
Qed.

(** *** The end of a run *)

Lemma active_none ws :
  active ws = 0%nat -> forall i d w, ws !! i = Some (d, w) -> w = WDone.
Proof. intros H i d w Hi. eapply active_zero; eassumption. Qed.

Lemma endInv_step s l s' :
  schedInv a s -> endInv s -> step pkgs a s l s' -> endInv s'.
Proof.
  intros (_ & Hwg & _) (Hpend & Hdone) Hstep.
  assert (Hmono : abortSignal (shared s) = true -> abortSignal (shared s') = true).
  { destruct (step_abortMonotone pkgs a _ _ _ Hstep) as (_ & Hk & _). exact Hk. }
  assert (Hworker : forall i d w, workers s !! i = Some (d, w) -> w <> WDone ->
                    pc s <> PcDone).
  { intros i d w Hi Hw Hpc. apply Hw. eapply active_none; [|exact Hi].
    rewrite <- Hwg. apply Hdone. exact Hpc. }
  assert (Hkeep : forall st', (abortSignal (shared s) = true -> abortSignal st' = true) ->
            (pc s = PcFinalWait \/ pc s = PcDone ->
             pending s = [] \/ abortSignal st' = true)).
  { intros st' Hst Hpc. destruct (Hpend Hpc); auto. }
  unfold endInv. inversion Hstep; subst; simpl in *.
  - destruct (isBarrier d); (split; [intros [?|?]; discriminate | discriminate]).
  - split; [auto | discriminate].
  - split; [auto | discriminate].
  - split; [intros [?|?]; discriminate | discriminate].
  - split; [|auto]. intros _. apply Hpend. auto.
  - split; [apply Hkeep; auto|].
    intros Hpc. exfalso. eapply Hworker; [eassumption | discriminate | exact Hpc].
  - split; [apply Hkeep; auto|].
    intros Hpc. exfalso. eapply Hworker; [eassumption | | exact Hpc].
    match goal with
    | Hc : workerCode _ _ _ _ _ = Some _ |- _ => intros ->; discriminate Hc
    end.
  - split; [apply Hkeep; auto|].
    intros Hpc. exfalso. eapply Hworker; [eassumption | | exact Hpc].
    match goal with
    | Hc : workerCode _ _ _ _ _ = Some _ |- _ => intros ->; discriminate Hc
    end.
  - split; [apply Hkeep; auto|].
    intros Hpc. exfalso. eapply Hworker; [eassumption | discriminate | exact Hpc].
  - split; [apply Hkeep; auto|].
    intros Hpc. exfalso. eapply Hworker; [eassumption | discriminate | exact Hpc].
Qed.

Lemma endInv_steps st tr s :
  steps pkgs a (ApplyDeployments a st) tr s -> schedInv a s /\ endInv s.
Proof.
  intros Hsteps. remember (ApplyDeployments a st) as s0 eqn:Hs0.
  induction Hsteps as [s|s tr s' l s'' Hsteps IH Hstep].
  - subst s. split; [apply schedInv_init|].
    split; [intros [H|H]; discriminate H | intros H; discriminate H].
  - destruct (IH Hs0) as [Hinv Hend]. split.
    + eapply schedInv_step; eassumption.
    + eapply endInv_step; eassumption.
Qed.

Lemma finished_is_final s l s' :
  schedInv a s -> endInv s -> pc s = PcDone -> ~ step pkgs a s l s'.
Proof.
  intros (_ & Hwg & _) (_ & Hdone) Hpc Hstep.
  assert (Hall : forall i d w, workers s !! i = Some (d, w) -> w = WDone).
  { apply active_none. rewrite <- Hwg. auto. }
  inversion Hstep; subst; try congruence;
    match goal with Hi : workers s !! _ = Some _ |- _ =>
      pose proof (Hall _ _ _ Hi) as Hw end;
    try discriminate.
  - subst. discriminate.
  - subst. discriminate.
Qed.

(** *** The order of the dispatches *)

Lemma dispatched_snoc tr l :
  dispatched (tr ++ [l])
  = dispatched tr ++ match l with LDispatch i => [i] | _ => [] end.
Proof.
  unfold dispatched. rewrite omap_app. simpl. destruct l; reflexivity.
Qed.

Lemma dispatched_in_order st tr s :
  steps pkgs a (ApplyDeployments a st) tr s ->
  dispatched tr = seq 0 (length (workers s)).
Proof.
  intros Hsteps. remember (ApplyDeployments a st) as s0 eqn:Hs0.
  induction Hsteps as [s|s tr s' l s'' Hsteps IH Hstep].
  - subst s. reflexivity.
  - specialize (IH Hs0). rewrite dispatched_snoc, IH.
    inversion Hstep; subst; simpl; unfold setWorker; rewrite ?length_insert;
      rewrite ?app_nil_r; try reflexivity.
    rewrite length_app. simpl. rewrite seq_app. reflexivity.
Qed.
End SchedulerMore.

(** X17: at most eight items at a time.  In every state of a run of
    ApplyDeployments the permits taken from the semaphore are as many as
    the workers between their sem.Acquire and their sem.Release, which are
    the workers that can be inside applyDeploymentItem, and they are never
    more than the weight of the semaphore, eight. *)
Theorem X17_at_most_eight_items_at_a_time pkgs a st tr s :
  steps pkgs a (ApplyDeployments a st) tr s ->
  sem s = permitsHeld (workers s)
  /\ (permitsHeld (workers s) <= 8)%nat
  /\ (forall i d w m, workers s !! i = Some (d, w) ->
        forall fuel, workerCode pkgs a fuel d w = Some m -> holdsPermit w = true).
Proof.
  intros Hsteps.
  assert (Hinv : semInv s).
  { eapply semInv_steps; [|exact Hsteps]. split; [reflexivity | cbv; lia]. }
  destruct Hinv as [Hsem Hle]. split; [exact Hsem|]. split.
  - rewrite <- Hsem. exact Hle.
  - intros i d w m _ fuel Hcode. destruct w; simpl in Hcode; try discriminate;
      reflexivity.
Qed.

Lemma X17_at_most_eight_items_at_a_time_witness :
  exists tr s,
    steps scriptedPackages aOne (ApplyDeployments aOne freshState) tr s
    /\ sem s = permitsHeld (workers s)
    /\ (permitsHeld (workers s) <= 8)%nat.
Proof.
  destruct run_of_one_item as (tr & s & Hrun & _).
  exists tr, s. split; [exact Hrun|].
  destruct (X17_at_most_eight_items_at_a_time scriptedPackages aOne freshState tr s Hrun)
    as (H1 & H2 & _).
  split; [exact H1 | exact H2].
Defined.

(** X18: ApplyDeployments returns only when all is done.  In a run that
    has reached the return of ApplyDeployments, every worker that was
    started has finished (its wg.Done has run), the scheduler has ranged
    over every item unless the abort signal is set, and no step is left to
    take: nothing runs on after the return. *)
Theorem X18_ApplyDeployments_returns_when_all_workers_are_done pkgs a st tr s :
  steps pkgs a (ApplyDeployments a st) tr s -> pc s = PcDone ->
  (forall i d w, workers s !! i = Some (d, w) -> w = WDone)
  /\ (pending s = [] \/ abortSignal (shared s) = true)
  /\ (forall l s', ~ step pkgs a s l s').
Proof.
  intros Hsteps Hpc. destruct (endInv_steps pkgs a st tr s Hsteps) as [Hinv Hend].
  split; [|split].
  - destruct Hinv as (_ & Hwg & _), Hend as (_ & Hdone).
    apply active_none. rewrite <- Hwg. auto.
  - destruct Hend as (Hpend & _). auto.
  - intros l s'. apply finished_is_final; assumption.
Qed.

Lemma X18_ApplyDeployments_returns_when_all_workers_are_done_witness :
  exists tr s,
    steps scriptedPackages aOne (ApplyDeployments aOne freshState) tr s
    /\ pc s = PcDone
    /\ (forall i d w, workers s !! i = Some (d, w) -> w = WDone)
    /\ (forall l s', ~ step scriptedPackages aOne s l s').
Proof.
  destruct run_of_one_item as (tr & s & Hrun & Hpc & _).
  exists tr, s. split; [exact Hrun|]. split; [exact Hpc|].
  destruct (X18_ApplyDeployments_returns_when_all_workers_are_done scriptedPackages aOne
              freshState tr s Hrun Hpc) as (H1 & _ & H3).
  split; [exact H1 | exact H3].
Defined.

(** X19: the items are started in their order.  Along every run of
    ApplyDeployments the dispatches are those of the items 0, 1, 2, ... in
    this order, one for each worker there is; the worker with index i is
    that of the i-th deployment item, and the items not yet dispatched are
    the rest of the list. *)
Theorem X19_items_are_dispatched_in_order pkgs a st tr s :
  steps pkgs a (ApplyDeployments a st) tr s ->
  dispatched tr = seq 0 (length (workers s))
  /\ (workers s).*1 ++ pending s = deployments a
  /\ (forall i d w, workers s !! i = Some (d, w) -> deployments a !! i = Some d).
Proof.
  intros Hsteps. split; [eapply dispatched_in_order; exact Hsteps|].
  destruct (endInv_steps pkgs a st tr s Hsteps) as [(Hitems & _) _].
  split; [exact Hitems|]. intros i d w Hi. rewrite <- Hitems.
  apply lookup_app_l_Some. rewrite list_lookup_fmap, Hi. reflexivity.
Qed.

Lemma X19_items_are_dispatched_in_order_witness :
  exists tr s,
    steps scriptedPackages aOne (ApplyDeployments aOne freshState) tr s
    /\ dispatched tr = [0%nat]
    /\ dispatched tr = seq 0 (length (workers s)).
Proof.
  destruct run_of_one_item as (tr & s & Hrun & _ & _ & _ & Hd).
  exists tr, s. split; [exact Hrun|]. split; [exact Hd|].
  exact (proj1 (X19_items_are_dispatched_in_order scriptedPackages aOne freshState
                  tr s Hrun)).
Defined.

(** ** No nil is dereferenced *)

Section Wp.
Context {A B : Type}.

Lemma wp_bind (loops : bool) (Q : A -> Prop) (Q' : B -> Prop) (m : M A) (f : A -> M B) :
  wp loops Q m -> (forall x, Q x -> wp loops Q' (f x)) -> wp loops Q' (bind m f).
Proof.
  intros Hm Hf s. unfold bind. specialize (Hm s).
  destruct (m s) as [[x| |] s1]; simpl in *; [|contradiction|exact Hm].
  apply (Hf x Hm s1).
Qed.

Lemma wp_weaken (loops : bool) (Q Q' : A -> Prop) (m : M A) :
  wp loops Q m -> (forall x, Q x -> Q' x) -> wp loops Q' m.
Proof.
  intros Hm HQ s. specialize (Hm s). destruct (m s).1; auto.
Qed.

Lemma wp_ret (loops : bool) (Q : A -> Prop) (x : A) : Q x -> wp loops Q (ret x).
Proof. intros H s. exact H. Qed.

Lemma wp_gets (loops : bool) (f : ApplyState -> A) : wp loops (fun _ => True) (gets f).
Proof. intros s. exact I. Qed.
End Wp.

Lemma wp_modify loops f : wp loops (fun _ => True) (modify f).
Proof. intros s. exact I. Qed.

Lemma wp_when loops b (m : M unit) :
  wp loops (fun _ => True) m -> wp loops (fun _ => True) (when b m).
Proof. destruct b; simpl; [auto | intros _ s; exact I]. Qed.

Lemma wp_forM_ {A} loops (l : list A) (f : A -> M unit) :
  (forall x, wp loops (fun _ => True) (f x)) -> wp loops (fun _ => True) (forM_ l f).
Proof.
  intros Hf. induction l as [|x l IH]; simpl; [intros s; exact I|].
  eapply wp_bind; [apply Hf | intros _ _; exact IH].
Qed.

Lemma wp_loops {A} (Q : A -> Prop) (m : M A) : wp false Q m -> wp true Q m.
Proof. intros H s. specialize (H s). destruct (m s).1; auto. Qed.

(** One layer of the code is peeled off. *)
Ltac wp_step :=
  lazymatch goal with
  | |- wp _ _ (ret _) => apply wp_ret; try exact I
  | |- wp _ _ (gets _) => apply wp_gets
  | |- wp _ _ (modify _) => apply wp_modify
  | |- wp _ _ (emit _) => apply wp_modify
  | |- wp _ _ (time_Sleep _) => apply wp_modify
  | |- wp _ _ time_Now => apply wp_gets
  | |- wp _ _ (handleApiWarnings _ _) => apply wp_modify
  | |- wp _ _ (when _ _) => apply wp_when
  | |- wp _ _ (forM_ _ _) => apply wp_forM_; intros
  | |- wp _ _ (bind _ _) => eapply (wp_bind _ (fun _ => True)); [ | intros ]
  | |- wp _ _ (match ?x with _ => _ end) => destruct x
  end.

Section NoPanic.
Variable pkgs : Packages.
Variable a : ApplyUtil.
Hypothesis Hcontract : gatewayContract (k a).

Lemma wp_random loops n : wp loops (fun _ => True) (utils_RandomString pkgs n).
Proof. intros s. exact I. Qed.

Lemma wp_patch loops x opts :
  wp loops answersWithObject (k_PatchObject a x opts).
Proof. intros s. apply Hcontract. Qed.

Lemma wp_update loops x opts :
  wp loops answersWithObject (k_UpdateObject a x opts).
Proof. intros s. apply Hcontract. Qed.

Lemma wp_delete loops ref opts :
  wp loops (fun _ => True) (k_DeleteSingleObject a ref opts).
Proof. intros s. exact I. Qed.

Lemma wp_get loops ref : wp loops (fun _ => True) (k_GetSingleObject a ref).
Proof. intros s. exact I. Qed.

Lemma wp_rediscover loops : wp loops (fun _ => True) (k_RediscoverResources a).
Proof. intros s. exact I. Qed.

Lemma wp_HandleError loops ref e : wp loops (fun _ => True) (HandleError a ref e).
Proof. intros s. rewrite HandleError_state. exact I. Qed.

Lemma wp_handleResult loops r hook :
  r <> None -> wp loops (fun _ => True) (handleResult r hook).
Proof.
  intros Hr s. destruct r as [obj|]; [|congruence].
  unfold handleResult, deref, bind, when, modify, ret. destruct hook; exact I.
Qed.

(** What is stored after a patch or an update that reported no error. *)
Lemma wp_store loops (answer : option UnstructuredObject * list ApiWarning * option error)
    ref hook (onError : error -> M unit) :
  answersWithObject answer ->
  (forall e, wp loops (fun _ => True) (onError e)) ->
  wp loops (fun _ => True)
     (let '(r, apiWarnings, err) := answer in
      handleApiWarnings ref apiWarnings ;;
      match err with
      | Some e => onError e
      | None => handleResult r hook
      end).
Proof.
  intros Hans Herr. destruct answer as [[r ws] err]. unfold answersWithObject in Hans.
  simpl in Hans. eapply wp_bind; [apply wp_modify | intros _ _].
  destruct err as [e|]; [apply Herr | apply wp_handleResult; auto].
Qed.

Lemma wp_DeleteObject loops ref hook : wp loops (fun _ => True) (DeleteObject a ref hook).
Proof.
  intros s. pose proof (DeleteObject_outcome a ref hook s) as H. cbv zeta in H.
  destruct H as (Hr & _). rewrite Hr. exact I.
Qed.

Lemma wp_retryApplyForceReplace loops x hook e :
  wp loops (fun _ => True) (retryApplyForceReplace a x hook e).
Proof.
  unfold retryApplyForceReplace.
  destruct (negb (ForceReplaceOnError (o a))); [apply wp_HandleError|].
  eapply wp_bind; [apply wp_modify | intros _ _].
  eapply wp_bind; [apply wp_DeleteObject | intros deleted _].
  destruct (negb deleted); [apply wp_ret; exact I|].
  destruct (negb (DryRun (o a))); [|apply wp_handleResult; discriminate].
  eapply wp_bind; [apply wp_patch | intros answer Hans].
  apply wp_store; [exact Hans | intros; apply wp_HandleError].
Qed.

Lemma wp_retryApplyWithReplace loops x hook remote e :
  wp loops (fun _ => True) (retryApplyWithReplace a x hook remote e).
Proof.
  unfold retryApplyWithReplace. destruct remote as [remote|]; [|apply wp_HandleError].
  destruct (negb (ReplaceOnError (o a))); [apply wp_HandleError|].
  eapply wp_bind; [apply wp_modify | intros _ _]. cbv zeta.
  eapply wp_bind; [apply wp_update | intros answer Hans].
  apply wp_store; [exact Hans | intros; apply wp_retryApplyForceReplace].
Qed.

Lemma wp_retryApplyWithConflicts loops x hook remote e :
  wp loops (fun _ => True) (retryApplyWithConflicts pkgs a x hook remote e).
Proof.
  unfold retryApplyWithConflicts. destruct remote as [remote|]; [|apply wp_HandleError].
  destruct (conflictCandidate pkgs a x remote e) as [e'|[x2 lost]];
    [apply wp_HandleError|].
  eapply wp_bind; [apply wp_forM_; intros; apply wp_modify | intros _ _]. cbv zeta.
  eapply wp_bind; [apply wp_patch | intros answer Hans].
  apply wp_store; [exact Hans | intros; apply wp_HandleError].
Qed.

Lemma wp_classifyPatchResult loops ref x hook remote r err :
  (err = None -> r <> None) ->
  wp loops (fun _ => True) (classifyPatchResult pkgs a ref x hook remote r err).
Proof.
  intros Hr. unfold classifyPatchResult.
  destruct err as [e|]; [|apply wp_handleResult; auto].
  destruct (IsNoMatchError e); [apply wp_HandleError|].
  destruct (IsConflict e); [apply wp_retryApplyWithConflicts|].
  destruct (IsInternalError e);
    [apply wp_HandleError | apply wp_retryApplyWithReplace].
Qed.

Lemma wp_handleNewCRDs loops r err :
  (err = None -> r <> None) ->
  wp loops (fun res => res.1 = false -> res.2 = None -> err = None)
     (handleNewCRDs a r err).
Proof.
  intros Hr. unfold handleNewCRDs. destruct err as [e|].
  - destruct (IsNoMatchError e); [|apply wp_ret; simpl; auto].
    eapply wp_bind; [apply wp_gets | intros armed _].
    destruct armed; [|apply wp_ret; simpl; auto].
    eapply wp_bind; [apply wp_modify | intros _ _].
    eapply wp_bind; [apply wp_rediscover | intros err' _].
    destruct err'; apply wp_ret; simpl; intros; discriminate.
  - destruct r as [x|]; [|exfalso; apply Hr; reflexivity].
    unfold deref. eapply wp_bind; [apply (wp_ret _ (fun _ => True)); exact I | intros x' _].
    destruct (isCRD (GetK8sRef x'));
      [eapply wp_bind; [apply wp_modify | intros _ _]|]; apply wp_ret; simpl; auto.
Qed.

Lemma wp_firstPatch loops x opts : wp loops answersWithObject (firstPatch a x opts).
Proof.
  unfold firstPatch.
  eapply wp_bind; [apply wp_patch | intros [[r ws] err] Hans].
  eapply wp_bind; [apply wp_handleNewCRDs; exact Hans | intros [retry err'] Hres].
  destruct retry; [apply wp_patch|].
  apply wp_ret. unfold answersWithObject in *. simpl in *.
  intros Herr'. apply Hans. auto.
Qed.

Lemma undoDummyName_some r dn : r <> None -> undoDummyName pkgs r dn <> None.
Proof. destruct r, dn; simpl; congruence. Qed.

Lemma wp_ApplyObject loops x replaced hook :
  wp loops (fun _ => True) (ApplyObject pkgs a x replaced hook).
Proof.
  unfold ApplyObject.
  eapply wp_bind; [apply wp_modify | intros _ _]. cbv zeta.
  eapply (wp_bind _ (fun _ => True)).
  { unfold dummyName. destruct (GetRemoteObject (ru a) (GetK8sRef x)) as [remote|];
      [destruct (DryRun (o a) && replaced)|]; try (apply wp_ret; exact I).
    eapply wp_bind; [apply wp_random | intros suffix _]. apply wp_ret. exact I. }
  intros [xp dn] _.
  eapply wp_bind; [apply wp_firstPatch | intros [[r ws] err] Hans].
  eapply wp_bind; [apply wp_modify | intros _ _].
  apply wp_classifyPatchResult. intros Herr. apply undoDummyName_some.
  apply Hans. exact Herr.
Qed.

Lemma wp_waitLoop fuel ref timeout startTime lastLogTime didLog :
  wp true (fun _ => True)
     (waitLoop pkgs a fuel ref timeout startTime lastLogTime didLog).
Proof.
  revert startTime lastLogTime didLog.
  induction fuel as [|fuel IH]; intros; simpl; [intros s; reflexivity|].
  unfold waitLog.
  repeat first [ apply IH | apply wp_HandleError | apply wp_get | wp_step ].
Qed.

Lemma wp_WaitReadiness fuel ref timeout :
  wp true (fun _ => True) (WaitReadiness pkgs a fuel ref timeout).
Proof.
  unfold WaitReadiness.
  repeat first [ apply wp_waitLoop | wp_step ].
Qed.

Lemma wp_RunHooks hooks : wp true (fun _ => True) (RunHooks pkgs a hooks).
Proof.
  unfold RunHooks, runHook, HadError.
  repeat first [ apply wp_ApplyObject | apply wp_DeleteObject | wp_step ].
Qed.

Lemma wp_itemPrelude d : wp true (fun _ => True) (itemPrelude pkgs a d).
Proof.
  unfold itemPrelude, deleteLoop.
  repeat first [ apply wp_RunHooks | apply wp_DeleteObject | wp_step ].
Qed.

Lemma wp_applyOne fuel d n startTime didLog i obj :
  wp true (fun _ => True) (applyOne pkgs a fuel d n startTime didLog i obj).
Proof.
  unfold applyOne.
  repeat first [ apply wp_ApplyObject | apply wp_WaitReadiness | wp_step ].
Qed.

Lemma wp_itemEpilogue postHooks : wp true (fun _ => True) (itemEpilogue pkgs a postHooks).
Proof. unfold itemEpilogue. repeat first [ apply wp_RunHooks | wp_step ]. Qed.

Lemma wp_applyObjectsLoop fuel d n l : forall startTime didLog,
  wp true (fun _ => True) (applyObjectsLoop pkgs a fuel d n l startTime didLog).
Proof.
  induction l as [|[i obj] l IH]; intros; simpl;
    repeat first [ apply IH | apply wp_applyOne | wp_step ].
Qed.

Lemma wp_applyDeploymentItem fuel d :
  wp true (fun _ => True) (applyDeploymentItem pkgs a fuel d).
Proof.
  unfold applyDeploymentItem.
  repeat first [ apply wp_itemPrelude | apply wp_applyObjectsLoop
               | apply wp_itemEpilogue | wp_step ].
Qed.

Lemma wp_workerCode fuel d w m :
  workerCode pkgs a fuel d w = Some m -> wp true (fun _ => True) m.
Proof.
  intros Hcode. destruct w; simpl in Hcode; try discriminate.
  - injection Hcode as <-. repeat first [ apply wp_itemPrelude | wp_step ].
  - destruct rest as [|[i obj] rest]; injection Hcode as <-; repeat wp_step.
  - injection Hcode as <-. repeat first [ apply wp_applyOne | wp_step ].
  - injection Hcode as <-. repeat first [ apply wp_itemEpilogue | wp_step ].
Qed.

Lemma never_crashed s tr s' :
  crashed s = false -> steps pkgs a s tr s' -> crashed s' = false.
Proof.
  intros Hc Hsteps. induction Hsteps as [s|s tr s' l s'' Hsteps IH Hstep]; [exact Hc|].
  inversion Hstep; subst; simpl; try reflexivity.
  match goal with
  | Hcode : workerCode _ _ _ _ _ = Some ?m, Hr : ?m _ = (Panic, _) |- _ =>
      pose proof (wp_workerCode _ _ _ _ Hcode (shared s')) as Hwp;
      rewrite Hr in Hwp; contradiction
  end.
Qed.
End NoPanic.

(** X20: no nil is dereferenced as long as the gateway answers a patch or
    an update that reports no error with an object.  Then ApplyObject
    always returns, whatever path of its ladder it takes;
    applyDeploymentItem never panics; and in no run of ApplyDeployments
    does a worker panic. *)
Theorem X20_no_nil_dereference_under_the_gateway_contract pkgs a :
  gatewayContract (k a) ->
  (forall x replaced hook s, (ApplyObject pkgs a x replaced hook s).1 = Ret tt)
  /\ (forall fuel d s, (applyDeploymentItem pkgs a fuel d s).1 <> Panic)
  /\ (forall st tr s, steps pkgs a (ApplyDeployments a st) tr s -> crashed s = false).
Proof.
  intros Hcontract. split; [|split].
  - intros x replaced hook s.
    pose proof (wp_ApplyObject pkgs a Hcontract false x replaced hook s) as H.
    destruct (ApplyObject pkgs a x replaced hook s).1 as [[]| |];
      [reflexivity | contradiction | discriminate].
  - intros fuel d s Hp.
    pose proof (wp_applyDeploymentItem pkgs a Hcontract fuel d s) as H.
    rewrite Hp in H. exact H.
  - intros st tr s Hsteps.
    eapply (never_crashed pkgs a Hcontract); [|exact Hsteps]. reflexivity.
Qed.

Lemma X20_no_nil_dereference_under_the_gateway_contract_witness :
  (forall x replaced hook s,
     (ApplyObject scriptedPackages aOne x replaced hook s).1 = Ret tt)
  /\ (exists tr s,
        steps scriptedPackages aOne (ApplyDeployments aOne freshState) tr s
        /\ pc s = PcDone /\ crashed s = false).
Proof.
  destruct (X20_no_nil_dereference_under_the_gateway_contract scriptedPackages aOne)
    as (Hobj & _ & Hrun).
  { split; intros n x opts; unfold answersWithObject; simpl; discriminate. }
  split; [exact Hobj|].
  destruct run_of_one_item as (tr & s & Hsteps & Hpc & _).
  exists tr, s. split; [exact Hsteps|]. split; [exact Hpc|].
  exact (Hrun freshState tr s Hsteps).
Defined.

(** ** How many calls the ladder makes *)

Lemma atMost_bind {A B} n1 n2 (m : M A) (f : A -> M B) :
  atMost n1 m -> (forall x, atMost n2 (f x)) -> atMost (n1 + n2) (bind m f).
Proof.
  intros Hm Hf s. unfold bind. destruct (Hm s) as (l1 & H1 & Hl1).
  destruct (m s) as [[x| |] s1]; simpl in *;
    try (exists l1; split; [exact H1 | lia]).
  destruct (Hf x s1) as (l2 & H2 & Hl2). exists (l1 ++ l2).
  rewrite H2, H1, app_assoc. split; [reflexivity | rewrite length_app; lia].
Qed.

Lemma atMost_weaken {A} n n' (m : M A) : (n <= n')%nat -> atMost n m -> atMost n' m.
Proof. intros Hle Hm s. destruct (Hm s) as (l & H & Hl). exists l. split; [auto | lia]. Qed.

Lemma atMost_frame {A} (m : M A) : (forall s, calls (m s).2 = calls s) -> atMost 0 m.
Proof. intros H s. exists []. rewrite H, app_nil_r. auto. Qed.

Lemma atMost_call {A} (m : M A) c :
  (forall s, calls (m s).2 = calls s ++ [c]) -> atMost 1 m.
Proof. intros H s. exists [c]. rewrite H. auto. Qed.

(** A step that makes no call, in front of code that makes at most [n]. *)
Lemma atMost_then {A B} n (m : M A) (f : A -> M B) :
  (forall s, calls (m s).2 = calls s) -> (forall x, atMost n (f x)) ->
  atMost n (bind m f).
Proof. intros Hm Hf. apply (atMost_bind 0 n); [apply atMost_frame; exact Hm | exact Hf]. Qed.

Section CallsOfTheLadderCounted.
Variable pkgs : Packages.
Variable a : ApplyUtil.

Lemma atMost_HandleError ref e : atMost 0 (HandleError a ref e).
Proof.
  apply atMost_frame. intros s. rewrite HandleError_state.
  destruct (AbortOnError (o a)); reflexivity.
Qed.

Lemma atMost_handleResult r hook : atMost 0 (handleResult r hook).
Proof.
  apply atMost_frame. intros s. unfold handleResult, deref, bind, when, modify, ret.
  destruct r, hook; reflexivity.
Qed.

Lemma atMost_DeleteObject ref hook : atMost 1 (DeleteObject a ref hook).
Proof.
  intros s. destruct (DeleteObject_call a ref hook s) as (b & _ & Hc).
  eexists. split; [exact Hc | simpl; lia].
Qed.

(** What follows a patch or an update: the warnings, then the error
    branch or the result. *)
Lemma atMost_store n (answer : option UnstructuredObject * list ApiWarning * option error)
    ref hook (onError : error -> M unit) :
  (forall e, atMost n (onError e)) ->
  atMost n (let '(r, apiWarnings, err) := answer in
            handleApiWarnings ref apiWarnings ;;
            match err with
            | Some e => onError e
            | None => handleResult r hook
            end).
Proof.
  intros Herr. destruct answer as [[r ws] err].
  apply atMost_then; [reflexivity | intros _].
  destruct err as [e|]; [apply Herr|].
  apply (atMost_weaken 0); [lia | apply atMost_handleResult].
Qed.

Lemma atMost_retryApplyForceReplace x hook e :
  atMost 2 (retryApplyForceReplace a x hook e).
Proof.
  unfold retryApplyForceReplace.
  destruct (negb (ForceReplaceOnError (o a)));
    [apply (atMost_weaken 0); [lia | apply atMost_HandleError]|].
  apply atMost_then; [reflexivity | intros _].
  apply (atMost_bind 1 1); [apply atMost_DeleteObject | intros deleted].
  destruct (negb deleted); [apply (atMost_weaken 0); [lia | apply atMost_frame; reflexivity]|].
  destruct (negb (DryRun (o a)));
    [|apply (atMost_weaken 0); [lia | apply atMost_handleResult]].
  apply (atMost_bind 1 0); [eapply atMost_call; reflexivity | intros answer].
  apply atMost_store. intros. apply atMost_HandleError.
Qed.

Lemma atMost_retryApplyWithReplace x hook remote e :
  atMost 3 (retryApplyWithReplace a x hook remote e).
Proof.
  unfold retryApplyWithReplace.
  destruct remote as [remote|];
    [|apply (atMost_weaken 0); [lia | apply atMost_HandleError]].
  destruct (negb (ReplaceOnError (o a)));
    [apply (atMost_weaken 0); [lia | apply atMost_HandleError]|].
  apply atMost_then; [reflexivity | intros _]. cbv zeta.
  apply (atMost_bind 1 2); [eapply atMost_call; reflexivity | intros answer].
  apply atMost_store. intros. apply atMost_retryApplyForceReplace.
Qed.

Lemma atMost_retryApplyWithConflicts x hook remote e :
  atMost 1 (retryApplyWithConflicts pkgs a x hook remote e).
Proof.
  unfold retryApplyWithConflicts.
  destruct remote as [remote|];
    [|apply (atMost_weaken 0); [lia | apply atMost_HandleError]].
  destruct (conflictCandidate pkgs a x remote e) as [e'|[x2 lost]];
    [apply (atMost_weaken 0); [lia | apply atMost_HandleError]|].
  apply atMost_then; [|intros _].
  { intros s. rewrite lostOwnership_warnings. reflexivity. }
  cbv zeta.
  apply (atMost_bind 1 0); [eapply atMost_call; reflexivity | intros answer].
  apply atMost_store. intros. apply atMost_HandleError.
Qed.

Lemma atMost_classifyPatchResult ref x hook remote r err :
  atMost 3 (classifyPatchResult pkgs a ref x hook remote r err).
Proof.
  unfold classifyPatchResult.
  destruct err as [e|]; [|apply (atMost_weaken 0); [lia | apply atMost_handleResult]].
  destruct (IsNoMatchError e);
    [apply (atMost_weaken 0); [lia | apply atMost_HandleError]|].
  destruct (IsConflict e);
    [apply (atMost_weaken 1); [lia | apply atMost_retryApplyWithConflicts]|].
  destruct (IsInternalError e);
    [apply (atMost_weaken 0); [lia | apply atMost_HandleError]
    |apply atMost_retryApplyWithReplace].
Qed.

Lemma atMost_handleNewCRDs r err : atMost 1 (handleNewCRDs a r err).
Proof.
  unfold handleNewCRDs. destruct err as [e|].
  - destruct (IsNoMatchError e);
      [|apply (atMost_weaken 0); [lia | apply atMost_frame; reflexivity]].
    apply atMost_then; [reflexivity | intros armed].
    destruct armed; [|apply (atMost_weaken 0); [lia | apply atMost_frame; reflexivity]].
    apply atMost_then; [reflexivity | intros _].
    apply (atMost_bind 1 0); [eapply atMost_call; reflexivity | intros err'].
    destruct err'; apply atMost_frame; reflexivity.
  - apply (atMost_weaken 0); [lia|]. apply atMost_then; [destruct r; reflexivity|].
    intros x'. destruct (isCRD (GetK8sRef x')); [|apply atMost_frame; reflexivity].
    apply atMost_then; [reflexivity | intros _]. apply atMost_frame; reflexivity.
Qed.

(** The first patch with its retry: the patch, and at most two calls
    more. *)
Lemma firstPatch_calls x opts s :
  exists l, calls (firstPatch a x opts s).2 = calls s ++ CallPatch x opts :: l
            /\ (length l <= 2)%nat.
Proof.
  unfold firstPatch. unfold bind at 1. unfold k_PatchObject at 1.
  destruct (PatchObject (k a) (length (calls s)) x opts) as [[r ws] err].
  set (s1 := with_call (k a) (CallPatch x opts) s).
  assert (Hrest : atMost 2
            (let* (retry, err0) := handleNewCRDs a r err in
             if retry then k_PatchObject a x opts else ret (r, ws, err0))).
  { apply (atMost_bind 1 1); [apply atMost_handleNewCRDs | intros [retry err0]].
    destruct retry; [eapply atMost_call; reflexivity|].
    apply (atMost_weaken 0); [lia | apply atMost_frame; reflexivity]. }
  destruct (Hrest s1) as (l & Hl & Hlen). exists l. split; [|exact Hlen].
  rewrite Hl. unfold s1. simpl. rewrite <- app_assoc. reflexivity.
Qed.

Lemma ApplyObject_calls x replaced hook s :
  exists l,
    calls (ApplyObject pkgs a x replaced hook s).2
    = calls s ++ CallPatch (patchedObject pkgs a x replaced s) (firstOptions a) :: l
    /\ (length l <= 5)%nat.
Proof.
  rewrite ApplyObject_steps.
  set (xp := patchedObject pkgs a x replaced s).
  set (s0 := enterApply a x replaced s).
  destruct (firstPatch_calls xp (firstOptions a) s0) as (l1 & Hl1 & Hlen1).
  unfold bind at 1. destruct (firstPatch a xp (firstOptions a) s0) as [[[[r ws] err]| |] s1];
    simpl in Hl1; try (exists l1; unfold s0 in Hl1; rewrite enterApply_calls in Hl1;
                       split; [exact Hl1 | lia]).
  assert (Hrest : atMost 3
            (handleApiWarnings (GetK8sRef x) ws ;;
             classifyPatchResult pkgs a (GetK8sRef x) xp hook
               (GetRemoteObject (ru a) (GetK8sRef x))
               (undoDummyName pkgs r (usesDummyName a x replaced)) err)).
  { apply atMost_then; [reflexivity | intros _]. apply atMost_classifyPatchResult. }
  destruct (Hrest s1) as (l2 & Hl2 & Hlen2). exists (l1 ++ l2).
  rewrite Hl2, Hl1. unfold s0. rewrite enterApply_calls, <- app_assoc. simpl.
  split; [reflexivity | rewrite length_app; lia].
Qed.
End CallsOfTheLadderCounted.

(** X21: the ladder is short.  Every call of ApplyObject starts with the
    patch of the object (under its dummy name where that applies) and
    makes at most five gateway calls more, whatever the gateway answers:
    at least one call and at most six.  DeleteObject makes one call. *)
Theorem X21_ApplyObject_makes_one_to_six_calls pkgs a x replaced hook s :
  (exists l,
     calls (ApplyObject pkgs a x replaced hook s).2
     = calls s ++ CallPatch (patchedObject pkgs a x replaced s) (firstOptions a) :: l
     /\ (length l <= 5)%nat)
  /\ (forall ref, atMost 1 (DeleteObject a ref hook)).
Proof.
  split; [apply ApplyObject_calls | intros; apply atMost_DeleteObject].
Qed.

Lemma X21_ApplyObject_makes_one_to_six_calls_witness :
  (exists l,
     calls (ApplyObject scriptedPackages aLongest d1 false false freshState).2
     = calls freshState ++ CallPatch d1 plainPatch :: l
     /\ (length l <= 5)%nat)
  /\ length (calls (ApplyObject scriptedPackages aLongest d1 false false freshState).2)
     = 6%nat.
Proof.
  split.
  - exact (proj1 (X21_ApplyObject_makes_one_to_six_calls scriptedPackages aLongest d1
                    false false freshState)).
  - vm_compute. reflexivity.
Defined.

(** ** An item whose patches all succeed *)

Section PlainItem.
Variable pkgs : Packages.
Variable a : ApplyUtil.
Hypothesis Hnowait : NoWait (o a) = true.

Lemma increments_output e s :
  increments (with_output e s) = (increments s + if isIncrement e then 1 else 0)%nat.
Proof.
  unfold increments. simpl. rewrite List.filter_app, length_app. simpl.
  destruct (isIncrement e); simpl; lia.
Qed.

(** The patch of an object that was not deleted before, when it is
    accepted. *)
Lemma ApplyObject_accepted obj hook s :
  acceptsPatchOf a obj ->
  exists s',
    ApplyObject pkgs a obj false hook s = (Ret tt, s')
    /\ calls s' = calls s ++ [patchOf a obj]
    /\ dewErrors (dew s') = dewErrors (dew s)
    /\ abortSignal s' = abortSignal s
    /\ output s' = output s ++ [LogDebugf MsgApplyingObjectDebug].
Proof.
  intros Haccepts.
  assert (Hdn : usesDummyName a obj false = None).
  { unfold usesDummyName. destruct (GetRemoteObject (ru a) (GetK8sRef obj));
      [rewrite andb_false_r|]; reflexivity. }
  assert (Hxp : patchedObject pkgs a obj false s = FixObjectForPatch (k a) obj).
  { unfold patchedObject, dummyName. destruct (GetRemoteObject (ru a) (GetK8sRef obj));
      [rewrite andb_false_r|]; reflexivity. }
  assert (Henter : enterApply a obj false s
                   = with_output (LogDebugf MsgApplyingObjectDebug) s).
  { unfold enterApply. rewrite Hdn. reflexivity. }
  destruct (Haccepts (length (calls s)) (firstOptions a))
    as (r & ws & Hp & Hcrd).
  pose proof (firstPatch_plain a (FixObjectForPatch (k a) obj) (firstOptions a)
                (enterApply a obj false s) r ws) as Hfp.
  rewrite enterApply_calls in Hfp. specialize (Hfp Hp Hcrd). rewrite <- Hxp in Hfp.
  assert (Hr : undoDummyName pkgs (Some r) (usesDummyName a obj false) = Some r).
  { rewrite Hdn. reflexivity. }
  rewrite (ApplyObject_patched pkgs a obj false hook s _ r ws r Hfp Hr).
  eexists. split; [reflexivity|]. rewrite Hxp, Henter.
  destruct hook; repeat split; reflexivity.
Qed.

Lemma applyOne_accepted fuel d n startTime didLog i obj s :
  acceptsPatchOf a obj ->
  exists t b s',
    applyOne pkgs a fuel d n startTime didLog i obj s = (Ret (t, b), s')
    /\ calls s' = calls s ++ [patchOf a obj]
    /\ dewErrors (dew s') = dewErrors (dew s)
    /\ abortSignal s' = abortSignal s
    /\ increments s' = S (increments s)
    /\ exists l, output s' = output s ++ l.
Proof.
  intros Haccepts. unfold applyOne. rewrite Hnowait. cbn [negb andb].
  rewrite (bind_Ret (emit _) _ _ _ _ eq_refl).
  destruct (ApplyObject_accepted obj false
              (with_output (PctxSetStatus (MsgApplyingObject (GetK8sRef obj) (i + 1) n)) s)
              Haccepts)
    as (s1 & Happly & Hc & He & Hab & Hout).
  rewrite (bind_Ret _ _ _ _ _ Happly).
  rewrite (bind_Ret (emit _) _ _ _ _ eq_refl).
  rewrite (bind_Ret time_Now _ _ _ _ eq_refl).
  assert (Hinc : increments (with_output PctxIncrement s1) = S (increments s)).
  { rewrite increments_output. simpl. unfold increments. rewrite Hout. simpl.
    rewrite !List.filter_app, !length_app. simpl. lia. }
  destruct ((10 * Second <=? _) || _).
  - rewrite bind_assoc. rewrite (bind_Ret (emit _) _ _ _ _ eq_refl).
    rewrite bind_assoc. rewrite (bind_Ret time_Now _ _ _ _ eq_refl).
    rewrite (bind_Ret (ret _) _ _ _ _ eq_refl).
    rewrite (bind_Ret (ret tt) _ _ _ _ eq_refl).
    eexists _, _, _. split; [reflexivity|]. simpl.
    split; [exact Hc|]. split; [exact He|]. split; [exact Hab|]. split.
    + rewrite increments_output. simpl. rewrite Hinc. lia.
    + rewrite Hout. simpl. rewrite <- !app_assoc. eexists. reflexivity.
  - rewrite (bind_Ret (ret _) _ _ _ _ eq_refl).
    rewrite (bind_Ret (ret tt) _ _ _ _ eq_refl).
    eexists _, _, _. split; [reflexivity|]. simpl.
    split; [exact Hc|]. split; [exact He|]. split; [exact Hab|]. split.
    + exact Hinc.
    + rewrite Hout. simpl. rewrite <- !app_assoc. eexists. reflexivity.
Qed.

Lemma applyObjectsLoop_accepted fuel d n l : forall startTime didLog s,
  Forall (fun io => acceptsPatchOf a io.2) l ->
  abortSignal s = false ->
  exists s',
    applyObjectsLoop pkgs a fuel d n l startTime didLog s = (Ret tt, s')
    /\ calls s' = calls s ++ map (fun io => patchOf a io.2) l
    /\ dewErrors (dew s') = dewErrors (dew s)
    /\ abortSignal s' = false
    /\ increments s' = (increments s + length l)%nat
    /\ exists out, output s' = output s ++ out.
Proof.
  induction l as [|[i obj] l IH]; intros startTime didLog s Hall Hab.
  - exists s. simpl. rewrite !app_nil_r, Nat.add_0_r. repeat split; auto.
    exists []. rewrite app_nil_r. reflexivity.
  - cbn [applyObjectsLoop]. unfold bind at 1. unfold gets at 1. rewrite Hab.
    inversion Hall as [|? ? Hobj Hl]; subst.
    destruct (applyOne_accepted fuel d n startTime didLog i obj s Hobj)
      as (t & b & s1 & Hone & Hc & He & Hab1 & Hi & out1 & Hout).
    rewrite (bind_Ret _ _ _ _ _ Hone).
    destruct (IH t b s1) as (s' & Hloop & Hc' & He' & Hab' & Hi' & out2 & Hout');
      [exact Hl|congruence|].
    exists s'. split; [exact Hloop|]. simpl.
    split; [rewrite Hc', Hc, <- app_assoc; reflexivity|].
    split; [congruence|]. split; [exact Hab'|]. split; [lia|].
    exists (out1 ++ out2). rewrite Hout', Hout, app_assoc. reflexivity.
Qed.
End PlainItem.

Lemma indexed_length {A} (l : list A) : length (indexed l) = length l.
Proof. unfold indexed. apply length_imap. Qed.

Section PlainPrelude.
Variable pkgs : Packages.
Variable a : ApplyUtil.
Variable d : DeploymentItem.t.
Hypothesis Hplain : plainObjectsOnly pkgs a d.

Lemma applyObjectsOf_plain : applyObjectsOf pkgs d = DeploymentItem.Objects d.
Proof.
  destruct Hplain as (_ & _ & Hall). unfold applyObjectsOf.
  induction Hall as [|x l Hx Hl IH]; [reflexivity|].
  rewrite filter_cons_True by exact Hx. rewrite IH. reflexivity.
Qed.

Lemma DetermineHooks_plain phases : DetermineHooks pkgs d phases = [].
Proof.
  destruct Hplain as (_ & _ & Hall). unfold DetermineHooks.
  assert (H : omap (GetHook pkgs) (DeploymentItem.Objects d) = []).
  { induction Hall as [|x l Hx Hl IH]; [reflexivity|]. simpl. rewrite Hx. exact IH. }
  rewrite H. reflexivity.
Qed.

Lemma selectHooks_plain b : selectHooks pkgs d b = ([], []).
Proof. unfold selectHooks. destruct b; rewrite ?DetermineHooks_plain; reflexivity. Qed.

Lemma itemPrelude_plain s :
  exists s1,
    itemPrelude pkgs a d s
    = (Ret (Some {| planObjects := indexed (DeploymentItem.Objects d);
                    planPostHooks := [];
                    planStartTime := now s |}), s1)
    /\ calls s1 = calls s
    /\ dew s1 = dew s
    /\ abortSignal s1 = abortSignal s
    /\ increments s1 = increments s
    /\ exists out,
         output s1 = output s ++ PctxSetTotal (length (DeploymentItem.Objects d)) :: out.
Proof.
  unfold itemPrelude. rewrite selectHooks_plain, applyObjectsOf_plain.
  destruct Hplain as (Hincl & Hdel & _). rewrite Hincl, Hdel.
  cbn [negb length Nat.eqb when]. rewrite !Nat.add_0_r.
  rewrite (bind_Ret (emit _) _ _ _ _ eq_refl).
  rewrite (bind_Ret (ret tt) _ _ _ _ eq_refl).
  rewrite (bind_Ret (RunHooks pkgs a []) _ _ _ _ eq_refl).
  destruct (length (DeploymentItem.Objects d) =? 0)%nat; cbn [negb when].
  - rewrite (bind_Ret (ret tt) _ _ _ _ eq_refl).
    rewrite (bind_Ret time_Now _ _ _ _ eq_refl).
    eexists. split; [reflexivity|]. repeat split.
    + rewrite increments_output. simpl. lia.
    + exists []. reflexivity.
  - rewrite (bind_Ret (emit _) _ _ _ _ eq_refl).
    rewrite (bind_Ret time_Now _ _ _ _ eq_refl).
    eexists. split; [reflexivity|]. repeat split.
    + rewrite !increments_output. simpl. lia.
    + eexists [_]. simpl. rewrite <- app_assoc. reflexivity.
Qed.

Lemma itemEpilogue_plain s :
  itemEpilogue pkgs a [] s
  = (Ret tt, with_output PctxFinish (with_output (PctxSetStatus (finalStatus s)) s)).
Proof. reflexivity. Qed.
End PlainPrelude.

Lemma indexed_Forall {A} (P : A -> Prop) (l : list A) :
  Forall P l -> Forall (fun io => P io.2) (indexed l).
Proof.
  intros H. apply Forall_forall. intros [i x] Hin.
  apply list_elem_of_lookup_1 in Hin as [j Hj]. unfold indexed in Hj.
  rewrite list_lookup_imap in Hj. destruct (l !! j) as [y|] eqn:Hy; [|discriminate].
  simpl in Hj. injection Hj as <- <-. simpl.
  rewrite Forall_forall in H. apply H. eapply list_elem_of_lookup_2. exact Hy.
Qed.

(** X22: an included item without deletions and without hooks, in a run
    that does not wait for readiness and has not been aborted, whose
    patches the gateway accepts: [applyDeploymentItem] returns with any
    fuel; it sets the progress total to the number of objects, patches
    every object exactly once, in the order of the item and with the
    options of a first patch, makes no other call, advances the progress
    counter once per object, records no error, leaves the abort signal
    down and ends with the final status and [Finish]. *)
Theorem X22_an_accepted_item_is_patched_once_per_object
    (pkgs : Packages) (a : ApplyUtil) (fuel : nat) (d : DeploymentItem.t)
    (s : ApplyState) :
  plainObjectsOnly pkgs a d ->
  Forall (acceptsPatchOf a) (DeploymentItem.Objects d) ->
  NoWait (o a) = true ->
  abortSignal s = false ->
  exists s',
    applyDeploymentItem pkgs a fuel d s = (Ret tt, s')
    /\ calls s' = calls s ++ map (patchOf a) (DeploymentItem.Objects d)
    /\ dewErrors (dew s') = dewErrors (dew s)
    /\ abortSignal s' = false
    /\ increments s' = (increments s + length (DeploymentItem.Objects d))%nat
    /\ exists out status,
         output s' = output s
                     ++ PctxSetTotal (length (DeploymentItem.Objects d)) :: out
                     ++ [PctxSetStatus status; PctxFinish].
Proof.
  intros Hplain Hall Hnowait Hab.
  destruct (itemPrelude_plain pkgs a d Hplain s)
    as (s1 & Hpre & Hc1 & Hd1 & Hab1 & Hi1 & out1 & Hout1).
  destruct (applyObjectsLoop_accepted pkgs a Hnowait fuel d
              (length (indexed (DeploymentItem.Objects d)))
              (indexed (DeploymentItem.Objects d)) (now s) false s1
              (indexed_Forall _ _ Hall) ltac:(congruence))
    as (s2 & Hloop & Hc2 & Hd2 & Hab2 & Hi2 & out2 & Hout2).
  unfold applyDeploymentItem. rewrite (bind_Ret _ _ _ _ _ Hpre).
  cbn [planObjects planPostHooks planStartTime].
  rewrite (bind_Ret _ _ _ _ _ Hloop). rewrite itemEpilogue_plain.
  eexists. split; [reflexivity|].
  split; [fields; rewrite Hc2, Hc1, indexed_snd; reflexivity|].
  split; [fields; rewrite Hd2, Hd1; reflexivity|].
  split; [fields; exact Hab2|].
  split.
  - rewrite !increments_output. simpl. rewrite Hi2, Hi1, indexed_length. lia.
  - exists (out1 ++ out2), (finalStatus s2). simpl.
    rewrite Hout2, Hout1. repeat (rewrite <- ?app_assoc; simpl). reflexivity.
Qed.

Lemma X22_an_accepted_item_is_patched_once_per_object_witness :
  let s' := (applyDeploymentItem scriptedPackages aTwoObjects 0 (itemOf [d1; d2])
               freshState).2 in
  calls s' = [patchOf aTwoObjects d1; patchOf aTwoObjects d2]
  /\ increments s' = 2%nat
  /\ dewErrors (dew s') = [].
Proof.
  destruct (X22_an_accepted_item_is_patched_once_per_object
              scriptedPackages aTwoObjects 0 (itemOf [d1; d2]) freshState)
    as (s' & Heq & Hc & He & _ & Hi & _).
  - split; [reflexivity|]. split; [reflexivity|]. repeat constructor.
  - apply List.Forall_cons; [|apply List.Forall_cons; [|apply List.Forall_nil]];
      intros n opts; eexists _, []; split; reflexivity.
  - reflexivity.
  - reflexivity.
  - cbv zeta. rewrite Heq. split; [exact Hc|]. split; [exact Hi | exact He].
Defined.

(** ** The progress counter and the deletions *)

#[local] Instance outputGrows_preorder : PreOrder outputGrows.
Proof.
  split.
  - intros s. exists []. rewrite app_nil_r. reflexivity.
  - intros s1 s2 s3 [o1 H1] [o2 H2]. exists (o1 ++ o2).
    rewrite H2, H1, app_assoc. reflexivity.
Qed.

Lemma outputGrows_frame s s' : output s' = output s -> outputGrows s s'.
Proof. intros H. exists []. rewrite H, app_nil_r. reflexivity. Qed.

Lemma outputGrows_handleResult r hook : always outputGrows (handleResult r hook).
Proof.
  intros s. apply outputGrows_frame.
  unfold handleResult, deref, bind, when, modify, ret. destruct r, hook; reflexivity.
Qed.

Ltac by_output :=
  try typeclasses eauto;
  first [ apply outputGrows_handleResult
        | intros; apply outputGrows_frame; reflexivity
        | intros; eexists [_]; reflexivity ].

Lemma incrementsOf_app l1 l2 :
  incrementsOf (l1 ++ l2) = (incrementsOf l1 + incrementsOf l2)%nat.
Proof. unfold incrementsOf. rewrite List.filter_app, length_app. reflexivity. Qed.

Lemma DeleteObject_output a ref hook s :
  exists b s', DeleteObject a ref hook s = (Ret b, s') /\ output s' = output s.
Proof.
  unfold DeleteObject, bind, k_DeleteSingleObject.
  destruct (DeleteSingleObject (k a) _ ref _) as [ws [e|]]; simpl.
  - destruct (IsNotFound e); simpl; [eexists _, _; split; reflexivity|].
    unfold bind. rewrite HandleError_state.
    destruct (AbortOnError (o a)); eexists _, _; split; reflexivity.
  - destruct hook; eexists _, _; split; reflexivity.
Qed.

(** Every deletion of the loop advances the counter once. *)
Lemma deleteLoop_output a n (l : list (nat * ObjectRef)) : forall s,
  let m := forM_ l (fun ir =>
                      emit (PctxSetStatus (MsgDeletingObject ir.2 (ir.1 + 1) n)) ;;
                      DeleteObject a ir.2 false ;;
                      emit PctxIncrement) in
  exists s' out,
    m s = (Ret tt, s') /\ output s' = output s ++ out /\ incrementsOf out = length l.
Proof.
  induction l as [|ir l IH]; intros s; cbv zeta.
  - exists s, []. rewrite app_nil_r. repeat split.
  - cbn [forM_].
    set (s1 := with_output (PctxSetStatus (MsgDeletingObject ir.2 (ir.1 + 1) n)) s).
    destruct (DeleteObject_output a ir.2 false s1) as (b & s2 & Hd & Ho).
    rewrite bind_assoc. erewrite (bind_Ret (emit _)) by reflexivity. fold s1.
    rewrite bind_assoc. erewrite (bind_Ret (DeleteObject _ _ _)) by exact Hd.
    erewrite (bind_Ret (emit _)) by reflexivity.
    destruct (IH (with_output PctxIncrement s2)) as (s' & out & Hm & Hout & Hinc).
    exists s', (PctxSetStatus (MsgDeletingObject ir.2 (ir.1 + 1) n) :: PctxIncrement :: out).
    split; [exact Hm|]. split.
    + rewrite Hout. simpl. rewrite Ho. unfold s1. simpl.
      rewrite <- !app_assoc. reflexivity.
    + change (S (incrementsOf out) = S (length l)). rewrite Hinc. reflexivity.
Qed.

(** X23: the progress total of an item counts its objects and its hooks,
    not its deletions, but every deletion advances the progress counter:
    an included item first sets the total to
    len(applyObjects)+len(preHooks)+len(postHooks), and whatever happens
    afterwards its counter is advanced at least once per reference to
    delete.  With deletions the counter can therefore pass the total. *)
Theorem X23_deletions_advance_the_counter_but_are_not_in_the_total
    (pkgs : Packages) (a : ApplyUtil) (fuel : nat) (d : DeploymentItem.t)
    (s : ApplyState) :
  DeploymentItem.CheckInclusionForDeploy d = true ->
  let hooks := selectHooks pkgs d (initialDeploy a d) in
  let total := (length (applyObjectsOf pkgs d) + length hooks.1 + length hooks.2)%nat in
  exists out,
    output (applyDeploymentItem pkgs a fuel d s).2 = output s ++ PctxSetTotal total :: out
    /\ (length (toDeleteRefs a d) <= incrementsOf out)%nat.
Proof.
  intros Hincl. cbv zeta.
  assert (Hrest : forall preHooks postHooks,
    always outputGrows
      (let* plan :=
         (RunHooks pkgs a preHooks ;;
          when (negb (Nat.eqb (length (applyObjectsOf pkgs d)) 0))
               (emit (PctxInfof (MsgApplyingN (length (applyObjectsOf pkgs d))))) ;;
          let* startTime := time_Now in
          ret (Some {| planObjects := indexed (applyObjectsOf pkgs d);
                       planPostHooks := postHooks;
                       planStartTime := startTime |})) in
       match plan with
       | None => ret tt
       | Some p =>
           applyObjectsLoop pkgs a fuel d (length (planObjects p)) (planObjects p)
                            (planStartTime p) false ;;
           itemEpilogue pkgs a (planPostHooks p)
       end)).
  { intros preHooks postHooks. apply always_bind; [typeclasses eauto| |].
    - apply always_bind; [typeclasses eauto| |intros _].
      + apply every_RunHooks; by_output.
      + apply always_bind; [typeclasses eauto| |intros _].
        * apply always_when; [typeclasses eauto|]. intros s0. eexists [_]. reflexivity.
        * apply always_bind; [typeclasses eauto| |intros t].
          -- intros s0. apply outputGrows_frame. reflexivity.
          -- intros s0. apply outputGrows_frame. reflexivity.
    - intros [p|]; [|intros s0; apply outputGrows_frame; reflexivity].
      apply always_bind; [typeclasses eauto| |intros _].
      + apply every_applyObjectsLoop; by_output.
      + apply every_itemEpilogue; by_output. }
  unfold applyDeploymentItem, itemPrelude.
  destruct (selectHooks pkgs d (initialDeploy a d)) as [preHooks postHooks].
  rewrite Hincl. cbn [negb fst snd].
  set (total := (length (applyObjectsOf pkgs d) + length preHooks + length postHooks)%nat).
  rewrite bind_assoc. rewrite (bind_Ret (emit _) _ _ _ _ eq_refl).
  rewrite bind_assoc.
  set (s1 := with_output (PctxSetTotal total) s).
  set (refs := toDeleteRefs a d).
  assert (Hdel : exists s2 out1,
            when (negb (length refs =? 0)%nat)
                 (emit (PctxInfof (MsgDeletingN (length refs))) ;; deleteLoop a refs) s1
            = (Ret tt, s2)
            /\ output s2 = output s1 ++ out1 /\ incrementsOf out1 = length refs).
  { destruct refs as [|ref refs'] eqn:Hrefs.
    - exists s1, []. rewrite app_nil_r. repeat split.
    - rewrite <- Hrefs. replace (negb (length refs =? 0)%nat) with true
        by (subst refs; rewrite Hrefs; reflexivity).
      cbn [when]. rewrite (bind_Ret (emit _) _ _ _ _ eq_refl). unfold deleteLoop.
      destruct (deleteLoop_output a (length refs) (indexed refs)
                  (with_output (PctxInfof (MsgDeletingN (length refs))) s1))
        as (s2 & out & Hm & Hout & Hinc).
      exists s2, (PctxInfof (MsgDeletingN (length refs)) :: out).
      split; [exact Hm|]. split.
      + rewrite Hout. simpl. rewrite <- app_assoc. reflexivity.
      + change (incrementsOf out = length refs). rewrite Hinc. apply indexed_length. }
  destruct Hdel as (s2 & out1 & Hwhen & Hout1 & Hinc1).
  rewrite (bind_Ret _ _ _ _ _ Hwhen).
  destruct (Hrest preHooks postHooks s2) as [out2 Hout2].
  exists (out1 ++ out2). split.
  - rewrite Hout2, Hout1. unfold s1. simpl. rewrite <- !app_assoc. reflexivity.
  - rewrite incrementsOf_app, Hinc1. lia.
Qed.

Lemma X23_deletions_advance_the_counter_but_are_not_in_the_total_witness :
  let s' := (applyDeploymentItem scriptedPackages aPlain 0 includedItem freshState).2 in
  (exists out, output s' = output freshState ++ PctxSetTotal 1 :: out
               /\ (1 <= incrementsOf out)%nat)
  /\ increments s' = 2%nat.
Proof.
  split.
  - exact (X23_deletions_advance_the_counter_but_are_not_in_the_total
             scriptedPackages aPlain 0 includedItem freshState eq_refl).
  - vm_compute. reflexivity.
Defined.
